(** * Chat session engine of ollama-gui: a shallow embedding of
    [src/services/chat.ts]

    The engine keeps module-level reactive state (chat list, active chat,
    message list, captured system prompt, in-flight assistant messages),
    mediates every mutation through an IndexedDB record store and drives a
    streamed chat completion.  The embedding keeps the three kinds of state
    apart:

    - the record store, which holds rows by value and hands out copies;
    - the JavaScript objects of the engine, kept in two heaps so that two
      references to one object (the active chat and its entry in the chat
      list, the in-flight assistant message and its entry in the message
      list) see each other's mutations;
    - the outside world: the clock read by [new Date()], the console, the
      requests sent to the model backend, and promise rejections nobody
      awaits.

    Every asynchronous function is a [Task]: a state transformer that either
    returns or throws.

    The confirmation dialog ([src/composables/useConfirmDialog.ts]) and the
    provider client ([src/services/api.ts]) follow the engine, each in a
    module of its own. *)

From Stdlib Require Import ZArith NArith List Lia Bool Sorted.
From stdpp Require Import base option list gmap strings.

Local Open Scope string_scope.
Local Open Scope Z_scope.

(** ** Data model *)

(** [Message.role]. *)
Inductive Role := system | user | assistant.

#[global] Instance Role_eq_dec : EqDecision Role.
Proof. solve_decision. Defined.

(** Timestamps ([Date] objects) are milliseconds since the epoch. *)
Definition Date := Z.

(** [interface Chat { id?: number; name; model; createdAt }].  The engine
    only keeps chat objects whose id has been assigned by the store; an id
    that is still missing is written [0], which is also the only number
    that the truthiness tests of the source ([!chat?.id]) treat like a
    missing id. *)
Record Chat := mkChat {
  chat_id : N;
  chat_name : string;
  chat_model : string;
  chat_createdAt : Date
}.

(** [interface Message { id?; chatId; role; content; meta?; createdAt }];
    [meta] is opaque to the engine. *)
Record Message := mkMessage {
  msg_id : N;
  msg_chatId : N;
  msg_role : Role;
  msg_content : string;
  msg_meta : option string;
  msg_createdAt : Date
}.

#[global] Instance Chat_inhabited : Inhabited Chat :=
  populate (mkChat 0%N "" "" 0).
#[global] Instance Message_inhabited : Inhabited Message :=
  populate (mkMessage 0%N 0%N user "" None 0).

Definition with_chat_id (i : N) (c : Chat) : Chat :=
  mkChat i (chat_name c) (chat_model c) (chat_createdAt c).
Definition with_chat_name (n : string) (c : Chat) : Chat :=
  mkChat (chat_id c) n (chat_model c) (chat_createdAt c).
Definition with_chat_model (m : string) (c : Chat) : Chat :=
  mkChat (chat_id c) (chat_name c) m (chat_createdAt c).
Definition with_msg_id (i : N) (m : Message) : Message :=
  mkMessage i (msg_chatId m) (msg_role m) (msg_content m) (msg_meta m)
            (msg_createdAt m).
Definition with_msg_content (c : string) (m : Message) : Message :=
  mkMessage (msg_id m) (msg_chatId m) (msg_role m) c (msg_meta m)
            (msg_createdAt m).

(** [interface ChatExport extends Chat { messages: Message[] }], as it
    reaches [importChats]: a bundle read back from JSON may lack fields, so
    [createdAt] is optional here ([None] stands for an absent or otherwise
    falsy value; a [Date] object or a date string is always truthy). *)
Record ChatExport := mkChatExport {
  exp_id : N;
  exp_name : string;
  exp_model : string;
  exp_createdAt : option Date;
  exp_messages : list Message
}.

(** ** The record store *)

(** Modelled from the spec: the record store ([./database], a Dexie
    database whose declaration is not part of the sources).  Two tables,
    each with a key generator; [add] assigns the next key (keys start at 1
    and are never reused, also after [delete] and [clear]), rows are listed
    in key order, and [update] and [delete] of a key that has no row do
    nothing.  Store operations do not fail in this model. *)
Record Store := mkStore {
  chatRows : list Chat;
  chatNext : N;
  messageRows : list Message;
  messageNext : N
}.

Definition store_getChat (i : N) (st : Store) : option Chat :=
  List.find (fun c => N.eqb (chat_id c) i) (chatRows st).

Definition store_getMessages (cid : N) (st : Store) : list Message :=
  List.filter (fun m => N.eqb (msg_chatId m) cid) (messageRows st).

Definition store_addChat (c : Chat) (st : Store) : N * Store :=
  (chatNext st,
   mkStore (chatRows st ++ [with_chat_id (chatNext st) c])
           (N.succ (chatNext st)) (messageRows st) (messageNext st)).

Definition store_addMessage (m : Message) (st : Store) : N * Store :=
  (messageNext st,
   mkStore (chatRows st) (chatNext st)
           (messageRows st ++ [with_msg_id (messageNext st) m])
           (N.succ (messageNext st))).

Definition store_updateChat (i : N) (f : Chat -> Chat) (st : Store) : Store :=
  mkStore (List.map (fun c => if N.eqb (chat_id c) i then f c else c)
                    (chatRows st))
          (chatNext st) (messageRows st) (messageNext st).

Definition store_updateMessage (i : N) (f : Message -> Message) (st : Store)
  : Store :=
  mkStore (chatRows st) (chatNext st)
          (List.map (fun m => if N.eqb (msg_id m) i then f m else m)
                    (messageRows st))
          (messageNext st).

Definition store_deleteChat (i : N) (st : Store) : Store :=
  mkStore (List.filter (fun c => negb (N.eqb (chat_id c) i)) (chatRows st))
          (chatNext st) (messageRows st) (messageNext st).

Definition store_deleteMessagesOfChat (cid : N) (st : Store) : Store :=
  mkStore (chatRows st) (chatNext st)
          (List.filter (fun m => negb (N.eqb (msg_chatId m) cid))
                       (messageRows st))
          (messageNext st).

Definition store_deleteMessage (i : N) (st : Store) : Store :=
  mkStore (chatRows st) (chatNext st)
          (List.filter (fun m => negb (N.eqb (msg_id m) i)) (messageRows st))
          (messageNext st).

Definition store_clearChats (st : Store) : Store :=
  mkStore [] (chatNext st) (messageRows st) (messageNext st).

Definition store_clearMessages (st : Store) : Store :=
  mkStore (chatRows st) (chatNext st) [] (messageNext st).

(** ** The outside world *)

(** A thrown value: an [Error] object with its [name], or anything else. *)
Inductive JsError :=
| ErrorObject (name : string)
| NotAnError.

Definition TypeError : JsError := ErrorObject "TypeError".
Definition AbortError : JsError := ErrorObject "AbortError".

(** [error instanceof Error && error.name === 'AbortError'] *)
Definition isAbortError (e : JsError) : bool :=
  match e with
  | ErrorObject n => if decide (n = "AbortError") then true else false
  | NotAnError => false
  end.

Inductive LogLine :=
| ConsoleWarn (text : string)
| ConsoleError (text : string) (cause : JsError).

(** What the engine asks of the model backend client: the request of
    [ollama.chat({model, messages, stream: true})], with the messages as
    they are when the call is made, and [ollama.abort()]. *)
Inductive BackendCall :=
| OllamaChat (model : string) (history : list Message)
| OllamaAbort.

(** ** Engine state *)

(** References to JavaScript objects. *)
Definition loc := nat.

(** The module-level [ref]s of [chat.ts], the two object heaps, the
    configuration the engine reads from [./appConfig], and the outside
    world.

    Modelled from the spec: [./appConfig] is not part of the sources.
    [currentModel] is its current model id, [historyMessageLength] the
    desired history window ([None] when unset) and [systemMessages] what
    [useConfig().getCurrentSystemMessage()] answers for a model id.

    [clock] lists the instants that successive [new Date()] calls will read
    and [ticks] counts the calls made so far. *)
Record State := mkState {
  db : Store;
  chatHeap : list Chat;
  messageHeap : list Message;
  chats : list loc;
  activeChat : option loc;
  messages : list loc;
  systemPrompt : option loc;
  ongoingAiMessages : gmap N loc;
  currentModel : string;
  historyMessageLength : option Z;
  systemMessages : string -> option string;
  clock : nat -> Z;
  ticks : nat;
  console : list LogLine;
  backend : list BackendCall;
  unhandled : list JsError
}.

Definition set_db (v : Store) (s : State) : State :=
  {| db := v;
     chatHeap := chatHeap s;
     messageHeap := messageHeap s;
     chats := chats s;
     activeChat := activeChat s;
     messages := messages s;
     systemPrompt := systemPrompt s;
     ongoingAiMessages := ongoingAiMessages s;
     currentModel := currentModel s;
     historyMessageLength := historyMessageLength s;
     systemMessages := systemMessages s;
     clock := clock s;
     ticks := ticks s;
     console := console s;
     backend := backend s;
     unhandled := unhandled s |}.

Definition set_chatHeap (v : list Chat) (s : State) : State :=
  {| db := db s;
     chatHeap := v;
     messageHeap := messageHeap s;
     chats := chats s;
     activeChat := activeChat s;
     messages := messages s;
     systemPrompt := systemPrompt s;
     ongoingAiMessages := ongoingAiMessages s;
     currentModel := currentModel s;
     historyMessageLength := historyMessageLength s;
     systemMessages := systemMessages s;
     clock := clock s;
     ticks := ticks s;
     console := console s;
     backend := backend s;
     unhandled := unhandled s |}.

Definition set_messageHeap (v : list Message) (s : State) : State :=
  {| db := db s;
     chatHeap := chatHeap s;
     messageHeap := v;
     chats := chats s;
     activeChat := activeChat s;
     messages := messages s;
     systemPrompt := systemPrompt s;
     ongoingAiMessages := ongoingAiMessages s;
     currentModel := currentModel s;
     historyMessageLength := historyMessageLength s;
     systemMessages := systemMessages s;
     clock := clock s;
     ticks := ticks s;
     console := console s;
     backend := backend s;
     unhandled := unhandled s |}.

Definition set_chats (v : list loc) (s : State) : State :=
  {| db := db s;
     chatHeap := chatHeap s;
     messageHeap := messageHeap s;
     chats := v;
     activeChat := activeChat s;
     messages := messages s;
     systemPrompt := systemPrompt s;
     ongoingAiMessages := ongoingAiMessages s;
     currentModel := currentModel s;
     historyMessageLength := historyMessageLength s;
     systemMessages := systemMessages s;
     clock := clock s;
     ticks := ticks s;
     console := console s;
     backend := backend s;
     unhandled := unhandled s |}.

Definition set_activeChat (v : option loc) (s : State) : State :=
  {| db := db s;
     chatHeap := chatHeap s;
     messageHeap := messageHeap s;
     chats := chats s;
     activeChat := v;
     messages := messages s;
     systemPrompt := systemPrompt s;
     ongoingAiMessages := ongoingAiMessages s;
     currentModel := currentModel s;
     historyMessageLength := historyMessageLength s;
     systemMessages := systemMessages s;
     clock := clock s;
     ticks := ticks s;
     console := console s;
     backend := backend s;
     unhandled := unhandled s |}.

Definition set_messages (v : list loc) (s : State) : State :=
  {| db := db s;
     chatHeap := chatHeap s;
     messageHeap := messageHeap s;
     chats := chats s;
     activeChat := activeChat s;
     messages := v;
     systemPrompt := systemPrompt s;
     ongoingAiMessages := ongoingAiMessages s;
     currentModel := currentModel s;
     historyMessageLength := historyMessageLength s;
     systemMessages := systemMessages s;
     clock := clock s;
     ticks := ticks s;
     console := console s;
     backend := backend s;
     unhandled := unhandled s |}.

Definition set_systemPrompt (v : option loc) (s : State) : State :=
  {| db := db s;
     chatHeap := chatHeap s;
     messageHeap := messageHeap s;
     chats := chats s;
     activeChat := activeChat s;
     messages := messages s;
     systemPrompt := v;
     ongoingAiMessages := ongoingAiMessages s;
     currentModel := currentModel s;
     historyMessageLength := historyMessageLength s;
     systemMessages := systemMessages s;
     clock := clock s;
     ticks := ticks s;
     console := console s;
     backend := backend s;
     unhandled := unhandled s |}.

Definition set_ongoingAiMessages (v : gmap N loc) (s : State) : State :=
  {| db := db s;
     chatHeap := chatHeap s;
     messageHeap := messageHeap s;
     chats := chats s;
     activeChat := activeChat s;
     messages := messages s;
     systemPrompt := systemPrompt s;
     ongoingAiMessages := v;
     currentModel := currentModel s;
     historyMessageLength := historyMessageLength s;
     systemMessages := systemMessages s;
     clock := clock s;
     ticks := ticks s;
     console := console s;
     backend := backend s;
     unhandled := unhandled s |}.

Definition set_currentModel (v : string) (s : State) : State :=
  {| db := db s;
     chatHeap := chatHeap s;
     messageHeap := messageHeap s;
     chats := chats s;
     activeChat := activeChat s;
     messages := messages s;
     systemPrompt := systemPrompt s;
     ongoingAiMessages := ongoingAiMessages s;
     currentModel := v;
     historyMessageLength := historyMessageLength s;
     systemMessages := systemMessages s;
     clock := clock s;
     ticks := ticks s;
     console := console s;
     backend := backend s;
     unhandled := unhandled s |}.

Definition set_ticks (v : nat) (s : State) : State :=
  {| db := db s;
     chatHeap := chatHeap s;
     messageHeap := messageHeap s;
     chats := chats s;
     activeChat := activeChat s;
     messages := messages s;
     systemPrompt := systemPrompt s;
     ongoingAiMessages := ongoingAiMessages s;
     currentModel := currentModel s;
     historyMessageLength := historyMessageLength s;
     systemMessages := systemMessages s;
     clock := clock s;
     ticks := v;
     console := console s;
     backend := backend s;
     unhandled := unhandled s |}.

Definition set_console (v : list LogLine) (s : State) : State :=
  {| db := db s;
     chatHeap := chatHeap s;
     messageHeap := messageHeap s;
     chats := chats s;
     activeChat := activeChat s;
     messages := messages s;
     systemPrompt := systemPrompt s;
     ongoingAiMessages := ongoingAiMessages s;
     currentModel := currentModel s;
     historyMessageLength := historyMessageLength s;
     systemMessages := systemMessages s;
     clock := clock s;
     ticks := ticks s;
     console := v;
     backend := backend s;
     unhandled := unhandled s |}.

Definition set_backend (v : list BackendCall) (s : State) : State :=
  {| db := db s;
     chatHeap := chatHeap s;
     messageHeap := messageHeap s;
     chats := chats s;
     activeChat := activeChat s;
     messages := messages s;
     systemPrompt := systemPrompt s;
     ongoingAiMessages := ongoingAiMessages s;
     currentModel := currentModel s;
     historyMessageLength := historyMessageLength s;
     systemMessages := systemMessages s;
     clock := clock s;
     ticks := ticks s;
     console := console s;
     backend := v;
     unhandled := unhandled s |}.

Definition set_unhandled (v : list JsError) (s : State) : State :=
  {| db := db s;
     chatHeap := chatHeap s;
     messageHeap := messageHeap s;
     chats := chats s;
     activeChat := activeChat s;
     messages := messages s;
     systemPrompt := systemPrompt s;
     ongoingAiMessages := ongoingAiMessages s;
     currentModel := currentModel s;
     historyMessageLength := historyMessageLength s;
     systemMessages := systemMessages s;
     clock := clock s;
     ticks := ticks s;
     console := console s;
     backend := backend s;
     unhandled := v |}.

(** ** Tasks: asynchronous functions as state transformers that may throw *)

Inductive Outcome (A : Type) :=
| Returned (a : A)
| Threw (e : JsError).
Arguments Returned {A} a.
Arguments Threw {A} e.

Definition Task (A : Type) : Type := State -> Outcome A * State.

Definition ret {A} (a : A) : Task A := fun s => (Returned a, s).

Definition bind {A B} (m : Task A) (k : A -> Task B) : Task B :=
  fun s => match m s with
           | (Returned a, s') => k a s'
           | (Threw e, s') => (Threw e, s')
           end.

Definition throw {A} (e : JsError) : Task A := fun s => (Threw e, s).

(** [try { body } catch (error) { handler }] *)
Definition try_catch {A} (body : Task A) (handler : JsError -> Task A)
  : Task A :=
  fun s => match body s with
           | (Returned a, s') => (Returned a, s')
           | (Threw e, s') => handler e s'
           end.

Definition get : Task State := fun s => (Returned s, s).
Definition modify (f : State -> State) : Task unit :=
  fun s => (Returned tt, f s).

Notation "x <- m ;; k" := (bind m (fun x => k))
  (at level 100, m at next level, right associativity).
Notation "m ;;; k" := (bind m (fun _ => k))
  (at level 100, right associativity).

(** The state a task leaves behind, and whether it returned. *)
Definition exec {A} (m : Task A) (s : State) : State := snd (m s).
Definition outcome {A} (m : Task A) (s : State) : Outcome A := fst (m s).

(** [arr.forEach(async x => ...)]: every callback is started in turn; a
    callback that throws only rejects its own promise, which nobody awaits,
    and the iteration goes on. *)
Definition detached (m : Task unit) : Task unit :=
  try_catch m (fun e => modify (fun s => set_unhandled (unhandled s ++ [e]) s)).

Fixpoint forEach_async {A} (f : A -> Task unit) (l : list A) : Task unit :=
  match l with
  | [] => ret tt
  | x :: l' => detached (f x) ;;; forEach_async f l'
  end.

(** *** Primitive effects *)

Definition new_Date : Task Date :=
  fun s => (Returned (clock s (ticks s)), set_ticks (S (ticks s)) s).

Definition console_warn (text : string) : Task unit :=
  modify (fun s => set_console (console s ++ [ConsoleWarn text]) s).
Definition console_error (text : string) (e : JsError) : Task unit :=
  modify (fun s => set_console (console s ++ [ConsoleError text e]) s).

(** Allocation of a fresh object, and dereference. *)
Definition newChatObject (c : Chat) : Task loc :=
  fun s => (Returned (length (chatHeap s)), set_chatHeap (chatHeap s ++ [c]) s).
Definition newMessageObject (m : Message) : Task loc :=
  fun s => (Returned (length (messageHeap s)),
            set_messageHeap (messageHeap s ++ [m]) s).

Definition chatAt (s : State) (l : loc) : Chat := chatHeap s !!! l.
Definition messageAt (s : State) (l : loc) : Message := messageHeap s !!! l.

Fixpoint newChatObjects (cs : list Chat) : Task (list loc) :=
  match cs with
  | [] => ret []
  | c :: cs' => l <- newChatObject c ;; ls <- newChatObjects cs' ;; ret (l :: ls)
  end.
Fixpoint newMessageObjects (ms : list Message) : Task (list loc) :=
  match ms with
  | [] => ret []
  | m :: ms' =>
      l <- newMessageObject m ;; ls <- newMessageObjects ms' ;; ret (l :: ls)
  end.

(** The values behind the reactive state. *)
Definition chatList (s : State) : list Chat := List.map (chatAt s) (chats s).
Definition messageList (s : State) : list Message :=
  List.map (messageAt s) (messages s).
Definition activeChatValue (s : State) : option Chat :=
  match activeChat s with Some l => Some (chatAt s l) | None => None end.
Definition systemPromptValue (s : State) : option Message :=
  match systemPrompt s with Some l => Some (messageAt s l) | None => None end.

(** *** [dbLayer] *)

Module dbLayer.

(** Rows read from the store arrive as fresh objects. *)
Definition getAllChats : Task (list loc) :=
  s <- get ;; newChatObjects (chatRows (db s)).

Definition getChat (chatId : N) : Task (option loc) :=
  s <- get ;;
  match store_getChat chatId (db s) with
  | Some c => l <- newChatObject c ;; ret (Some l)
  | None => ret None
  end.

Definition getMessages (chatId : N) : Task (list loc) :=
  s <- get ;; newMessageObjects (store_getMessages chatId (db s)).

Definition addChat (c : Chat) : Task N :=
  fun s => let '(i, st) := store_addChat c (db s) in (Returned i, set_db st s).

Definition updateChat (chatId : N) (f : Chat -> Chat) : Task unit :=
  modify (fun s => set_db (store_updateChat chatId f (db s)) s).

Definition addMessage (m : Message) : Task N :=
  fun s => let '(i, st) := store_addMessage m (db s) in
           (Returned i, set_db st s).

Definition updateMessage (messageId : N) (f : Message -> Message) : Task unit :=
  modify (fun s => set_db (store_updateMessage messageId f (db s)) s).

Definition deleteChat (chatId : N) : Task unit :=
  modify (fun s => set_db (store_deleteChat chatId (db s)) s).

Definition deleteMessagesOfChat (chatId : N) : Task unit :=
  modify (fun s => set_db (store_deleteMessagesOfChat chatId (db s)) s).

Definition deleteMessage (messageId : N) : Task unit :=
  modify (fun s => set_db (store_deleteMessage messageId (db s)) s).

Definition clearChats : Task unit :=
  modify (fun s => set_db (store_clearChats (db s)) s).
Definition clearMessages : Task unit :=
  modify (fun s => set_db (store_clearMessages (db s)) s).

End dbLayer.

(** ** The engine: [useChats()] *)

(** [[...chats.value].sort((a, b) => b.createdAt.getTime() -
    a.createdAt.getTime())]: a stable sort, newest first.  An element goes
    in front of the first one that is not newer than it. *)
Fixpoint insert_newest_first (key : loc -> Date) (x : loc) (l : list loc)
  : list loc :=
  match l with
  | [] => [x]
  | y :: l' =>
      if key x <? key y then y :: insert_newest_first key x l' else x :: l
  end.

Definition sortedChats (s : State) : list loc :=
  List.fold_right (insert_newest_first (fun l => chat_createdAt (chatAt s l)))
                  [] (chats s).

Definition hasActiveChat (s : State) : bool :=
  match activeChat s with Some _ => true | None => false end.
Definition hasMessages (s : State) : bool :=
  match messages s with [] => false | _ => true end.

Definition setActiveChat (chat : loc) : Task unit :=
  modify (set_activeChat (Some chat)).
Definition setMessages (newMessages : list loc) : Task unit :=
  modify (set_messages newMessages).

(** [activeChat.value?.id === chatId] *)
Definition activeChatIs (chatId : N) (s : State) : bool :=
  match activeChat s with
  | Some a => N.eqb (chat_id (chatAt s a)) chatId
  | None => false
  end.

Definition switchModel (model : string) : Task unit :=
  modify (set_currentModel model) ;;;
  s <- get ;;
  match activeChat s with
  | None => ret tt
  | Some a =>
      try_catch
        (dbLayer.updateChat (chat_id (chatAt s a)) (with_chat_model model) ;;;
         modify (fun s' =>
           set_chatHeap (alter (with_chat_model model) a (chatHeap s')) s'))
        (fun e => console_error "Failed to switch model" e)
  end.

Definition switchChat (chatId : N) : Task unit :=
  try_catch
    (chat <- dbLayer.getChat chatId ;;
     match chat with
     | Some c =>
         setActiveChat c ;;;
         chatMessages <- dbLayer.getMessages chatId ;;
         setMessages chatMessages ;;;
         s <- get ;;
         match activeChat s with
         | Some a => switchModel (chat_model (chatAt s a))
         | None => ret tt
         end
     | None => ret tt
     end)
    (fun e => console_error "Failed to switch to chat" e).

Definition renameChat (newName : string) : Task unit :=
  s <- get ;;
  match activeChat s with
  | None => ret tt
  | Some a =>
      modify (fun s' =>
        set_chatHeap (alter (with_chat_name newName) a (chatHeap s')) s') ;;;
      dbLayer.updateChat (chat_id (chatAt s a)) (with_chat_name newName) ;;;
      all <- dbLayer.getAllChats ;;
      modify (set_chats all)
  end.

(** [useConfig().getCurrentSystemMessage()] *)
Definition getCurrentSystemMessage : Task (option string) :=
  s <- get ;; ret (systemMessages s (currentModel s)).

Definition addSystemMessage (content : option string) (meta : option string)
  : Task unit :=
  s <- get ;;
  match activeChat s with
  | None => ret tt
  | Some a =>
      match content with
      | None => ret tt
      | Some text =>
          if decide (text = "") then ret tt
          else
            now <- new_Date ;;
            let systemPromptMessage :=
              mkMessage 0 (chat_id (chatAt s a)) system text meta now in
            i <- dbLayer.addMessage systemPromptMessage ;;
            l <- newMessageObject (with_msg_id i systemPromptMessage) ;;
            modify (fun s' => set_messages (messages s' ++ [l]) s') ;;;
            modify (set_systemPrompt (Some l))
      end
  end.

Definition startNewChat (name : string) : Task unit :=
  s <- get ;;
  now <- new_Date ;;
  let newChat := mkChat 0 name (currentModel s) now in
  try_catch
    (i <- dbLayer.addChat newChat ;;
     l <- newChatObject (with_chat_id i newChat) ;;
     modify (fun s' => set_chats (chats s' ++ [l]) s') ;;;
     setActiveChat l ;;;
     setMessages [] ;;;
     content <- getCurrentSystemMessage ;;
     addSystemMessage content None)
    (fun e => console_error "Failed to start a new chat:" e).

Definition initialize : Task unit :=
  try_catch
    (all <- dbLayer.getAllChats ;;
     modify (set_chats all) ;;;
     s <- get ;;
     match chats s with
     | _ :: _ =>
         match sortedChats s with
         | newest :: _ => switchChat (chat_id (chatAt s newest))
         | [] => throw TypeError
         end
     | [] => startNewChat "New chat"
     end)
    (fun e => console_error "Failed to initialize chats:" e).

Definition wipeDatabase : Task unit :=
  try_catch
    (dbLayer.clearChats ;;;
     dbLayer.clearMessages ;;;
     modify (set_chats []) ;;;
     modify (set_activeChat None) ;;;
     modify (set_messages []) ;;;
     modify (set_ongoingAiMessages ∅) ;;;
     startNewChat "New chat")
    (fun e => console_error "Failed to wipe the database:" e).

Definition deleteChat (chatId : N) : Task unit :=
  try_catch
    (dbLayer.deleteChat chatId ;;;
     dbLayer.deleteMessagesOfChat chatId ;;;
     modify (fun s =>
       set_chats
         (List.filter (fun l => negb (N.eqb (chat_id (chatAt s l)) chatId))
                      (chats s)) s) ;;;
     s <- get ;;
     if activeChatIs chatId s then
       match sortedChats s with
       | newest :: _ => switchChat (chat_id (chatAt s newest))
       | [] => startNewChat "New chat"
       end
     else ret tt)
    (fun e => console_error "Failed to delete chat" e).

Definition abort : Task unit :=
  modify (set_ongoingAiMessages ∅) ;;;
  modify (fun s => set_backend (backend s ++ [OllamaAbort]) s).

(** [exportChats]: one bundle per stored chat with a truthy id, carrying
    the chat's fields and its messages.  The bundles are pushed as the
    reads of the message table resolve, which the store answers in the
    order they were issued. *)
Definition exportOne (st : Store) (chat : Chat) : list ChatExport :=
  if N.eqb (chat_id chat) 0 then []
  else [mkChatExport (chat_id chat) (chat_name chat) (chat_model chat)
                     (Some (chat_createdAt chat))
                     (store_getMessages (chat_id chat) st)].

Definition exportChats : Task (list ChatExport) :=
  s <- get ;; ret (List.flat_map (exportOne (db s)) (chatRows (db s))).

(** The callback of [chatData.messages.forEach] in [importChats]: the
    message is stored under the new chat's id with the bundle's role,
    content and date; its own id and [meta] are not carried over. *)
Definition importMessage (chatId : N) (messageData : Message) : Task unit :=
  let message :=
    mkMessage 0 chatId (msg_role messageData) (msg_content messageData) None
              (msg_createdAt messageData) in
  dbLayer.addMessage message ;;; ret tt.

(** The callback of [jsonData.forEach] in [importChats].
    [chatData?.createdAt || chatData.messages[0].createdAt] reads element 0
    of the message list when the bundle has no [createdAt]; on an empty
    list that element is [undefined] and reading its [createdAt] throws a
    [TypeError].  The inner callbacks are not awaited either; the store
    serves their [add] requests in the order they were issued. *)
Definition importChatData (chatData : ChatExport) : Task unit :=
  createdAt <-
    match exp_createdAt chatData with
    | Some d => ret d
    | None =>
        match exp_messages chatData with
        | first :: _ => ret (msg_createdAt first)
        | [] => throw TypeError
        end
    end ;;
  let chat := mkChat 0 (exp_name chatData) (exp_model chatData) createdAt in
  i <- dbLayer.addChat chat ;;
  l <- newChatObject (with_chat_id i chat) ;;
  modify (fun s => set_chats (chats s ++ [l]) s) ;;;
  forEach_async (importMessage i) (exp_messages chatData).

Definition importChats (jsonData : list ChatExport) : Task unit :=
  forEach_async importChatData jsonData.

(** *** Commands of the user interface *)

(** The operations that do not stream.  They are also what may run while a
    streaming operation is suspended between two chunks. *)
Inductive Command :=
| Initialize
| SwitchChat (chatId : N)
| SwitchModel (model : string)
| RenameChat (newName : string)
| StartNewChat (name : string)
| AddSystemMessage (content : option string) (meta : option string)
| WipeDatabase
| DeleteChat (chatId : N)
| Abort
| ImportChats (jsonData : list ChatExport).

Definition run_command (c : Command) : Task unit :=
  match c with
  | Initialize => initialize
  | SwitchChat chatId => switchChat chatId
  | SwitchModel model => switchModel model
  | RenameChat newName => renameChat newName
  | StartNewChat name => startNewChat name
  | AddSystemMessage content meta => addSystemMessage content meta
  | WipeDatabase => wipeDatabase
  | DeleteChat chatId => deleteChat chatId
  | Abort => abort
  | ImportChats jsonData => importChats jsonData
  end.

(** *** Streaming *)

(** One element of the response iterator: [part.message.content] and the
    completion flag [part.done] (which the engine never reads). *)
Record ChatPart := mkPart {
  part_content : string;
  part_done : bool
}.

(** What happens while [for await (const part of response)] runs: parts
    arrive, and between two parts the task is suspended, so that a command
    of the user interface may run.  The iteration ends when the iterator is
    exhausted or when it throws (an [AbortError] after [ollama.abort()], or
    a failure of the request, possibly before the first part). *)
Inductive StreamItem :=
| Part (p : ChatPart)
| Meanwhile (c : Command).

Inductive StreamEnd :=
| EndOfStream
| StreamThrows (e : JsError).

Record ChatStream := mkStream {
  stream_items : list StreamItem;
  stream_end : StreamEnd
}.

(** [arr.slice(start)] *)
Definition js_slice {A} (start : Z) (l : list A) : list A :=
  let len := Z.of_nat (length l) in
  let k := if start <? 0 then Z.max (len + start) 0 else Z.min start len in
  drop (Z.to_nat k) l.

(** The body of the [for await] loop (lines 230-237 and 284-291). *)
Definition receivePart (currentChatId : N) (part : ChatPart) : Task unit :=
  s <- get ;;
  match ongoingAiMessages s !! currentChatId with
  | None => ret tt
  | Some aiMessage =>
      modify (fun s' =>
        set_messageHeap
          (alter (fun m => with_msg_content
                             (msg_content m +:+ part_content part) m)
                 aiMessage (messageHeap s')) s') ;;;
      s1 <- get ;;
      dbLayer.updateMessage
        (msg_id (messageAt s1 aiMessage))
        (with_msg_content (msg_content (messageAt s1 aiMessage))) ;;;
      s2 <- get ;;
      if activeChatIs currentChatId s2 then
        fresh <- dbLayer.getMessages currentChatId ;; setMessages fresh
      else ret tt
  end.

Fixpoint consume (currentChatId : N) (items : list StreamItem) : Task unit :=
  match items with
  | [] => ret tt
  | Part p :: rest =>
      receivePart currentChatId p ;;; consume currentChatId rest
  | Meanwhile c :: rest =>
      detached (run_command c) ;;; consume currentChatId rest
  end.

(** The history sent to the backend:
    [messages.value.slice(-(historyMessageLength.value ?? 0))] with
    [systemPrompt.value] put in front when it is set. *)
Definition chatHistory (s : State) : list loc :=
  let window :=
    js_slice (- default 0 (historyMessageLength s)) (messages s) in
  match systemPrompt s with
  | Some p => p :: window
  | None => window
  end.

(** Lines 207-240 of [addUserMessage], repeated word for word as lines
    261-294 of [regenerateResponse] (the [generate()] of the comment above
    [addUserMessage]).  First half, up to [await ollama.chat(...)]: start an
    empty assistant message, register it as in flight and send the bounded
    history. *)
Definition requestCompletion (currentChatId : N) : Task unit :=
  now <- new_Date ;;
  let aiMessage := mkMessage 0 currentChatId assistant "" None now in
  i <- dbLayer.addMessage aiMessage ;;
  l <- newMessageObject (with_msg_id i aiMessage) ;;
  modify (fun s =>
    set_ongoingAiMessages (<[currentChatId := l]> (ongoingAiMessages s)) s) ;;;
  modify (fun s => set_messages (messages s ++ [l]) s) ;;;
  s <- get ;;
  modify (fun s' =>
    set_backend
      (backend s' ++
       [OllamaChat (currentModel s) (List.map (messageAt s) (chatHistory s))])
      s').

(** Second half: stream the answer into the in-flight message and clear the
    in-flight entry once the iterator is exhausted. *)
Definition streamResponse (currentChatId : N) (response : ChatStream)
  : Task unit :=
  consume currentChatId (stream_items response) ;;;
  match stream_end response with
  | StreamThrows e => throw e
  | EndOfStream =>
      modify (fun s =>
        set_ongoingAiMessages (delete currentChatId (ongoingAiMessages s)) s)
  end.

Definition generate (currentChatId : N) (response : ChatStream) : Task unit :=
  requestCompletion currentChatId ;;; streamResponse currentChatId response.

(** The [catch] block shared by both streaming operations. *)
Definition onStreamError (currentChatId : N) (text : string) (e : JsError)
  : Task unit :=
  if isAbortError e then
    modify (fun s =>
      set_ongoingAiMessages (delete currentChatId (ongoingAiMessages s)) s)
  else console_error text e.

Definition addUserMessage (content : string) (response : ChatStream)
  : Task unit :=
  s <- get ;;
  match activeChat s with
  | None => console_warn "There was no active chat."
  | Some a =>
      let currentChatId := chat_id (chatAt s a) in
      now <- new_Date ;;
      let message := mkMessage 0 currentChatId user content None now in
      try_catch
        (i <- dbLayer.addMessage message ;;
         l <- newMessageObject (with_msg_id i message) ;;
         modify (fun s' => set_messages (messages s' ++ [l]) s') ;;;
         generate currentChatId response)
        (onStreamError currentChatId "Failed to add user message:")
  end.

Definition regenerateResponse (response : ChatStream) : Task unit :=
  s <- get ;;
  match activeChat s with
  | None => ret tt
  | Some a =>
      let currentChatId := chat_id (chatAt s a) in
      match last (messages s) with
      | Some l =>
          let message := messageAt s l in
          if decide (msg_role message = assistant) then
            (if N.eqb (msg_id message) 0 then ret tt
             else dbLayer.deleteMessage (msg_id message)) ;;;
            modify (fun s' => set_messages (removelast (messages s')) s')
          else ret tt
      | None => ret tt
      end ;;;
      try_catch
        (generate currentChatId response)
        (onStreamError currentChatId "Failed to regenerate response:")
  end.

(** Everything a caller of [useChats()] can ask for. *)
Inductive Request :=
| Plain (c : Command)
| AddUserMessage (content : string) (response : ChatStream)
| RegenerateResponse (response : ChatStream).

Definition run_request (r : Request) : Task unit :=
  match r with
  | Plain c => run_command c
  | AddUserMessage content response => addUserMessage content response
  | RegenerateResponse response => regenerateResponse response
  end.

(** A caller that does not await: whatever the request throws stays an
    unhandled rejection. *)
Definition step (r : Request) (s : State) : State :=
  exec (detached (run_request r)) s.

Definition run (rs : list Request) (s : State) : State :=
  List.fold_left (fun s r => step r s) rs s.

(** The state of a freshly loaded page: empty module state in front of
    whatever the store holds from earlier sessions. *)
Definition boot (st : Store) (model : string) (historyLength : option Z)
    (prompts : string -> option string) (time : nat -> Z) : State :=
  {| db := st; chatHeap := []; messageHeap := []; chats := [];
     activeChat := None; messages := []; systemPrompt := None;
     ongoingAiMessages := ∅; currentModel := model;
     historyMessageLength := historyLength; systemMessages := prompts;
     clock := time; ticks := 0; console := []; backend := [];
     unhandled := [] |}.

Local Open Scope list_scope.

(** * The confirmation dialog: [src/composables/useConfirmDialog.ts] *)

Module useConfirmDialog.

(** The argument of [confirm]; all texts but the message are optional. *)
Record Options := mkOptions {
  opt_message : string;
  opt_title : option string;
  opt_confirmText : option string;
  opt_cancelText : option string
}.

(** [value || fallback] on an optional string: a missing string and the
    empty string are both falsy. *)
Definition or_else (value : option string) (fallback : string) : string :=
  match value with
  | Some text => if decide (text = "") then fallback else text
  | None => fallback
  end.

(** The refs of one [useConfirmDialog()] and the promises it has handed
    out.  A promise is named by its rank of creation; [resolvePromise] holds
    the [resolve] function of a promise, that is the promise it settles;
    [resolved] lists the promises settled so far with their values, in the
    order of settlement. *)
Record Dialog := mkDialog {
  isOpen : bool;
  message : string;
  title : string;
  confirmText : string;
  cancelText : string;
  resolvePromise : option nat;
  promises : nat;
  resolved : list (nat * bool)
}.

(** The state that [useConfirmDialog()] sets up. *)
Definition fresh : Dialog :=
  mkDialog false "" "" "Confirm" "Cancel" None 0 [].

(** [confirm(options)] returns the new promise. *)
Definition confirm (options : Options) (d : Dialog) : nat * Dialog :=
  (promises d,
   mkDialog true
            (opt_message options)
            (or_else (opt_title options) "Confirm")
            (or_else (opt_confirmText options) "Confirm")
            (or_else (opt_cancelText options) "Cancel")
            (Some (promises d))
            (S (promises d))
            (resolved d)).

Definition handleConfirm (d : Dialog) : Dialog :=
  match resolvePromise d with
  | Some p =>
      mkDialog false (message d) (title d) (confirmText d) (cancelText d)
               None (promises d) (resolved d ++ [(p, true)])
  | None =>
      mkDialog false (message d) (title d) (confirmText d) (cancelText d)
               None (promises d) (resolved d)
  end.

Definition handleCancel (d : Dialog) : Dialog :=
  match resolvePromise d with
  | Some p =>
      mkDialog false (message d) (title d) (confirmText d) (cancelText d)
               None (promises d) (resolved d ++ [(p, false)])
  | None =>
      mkDialog false (message d) (title d) (confirmText d) (cancelText d)
               None (promises d) (resolved d)
  end.

(** What the users of the dialog do to it. *)
Inductive Event :=
| Confirm (options : Options)
| HandleConfirm
| HandleCancel.

Definition handle (e : Event) (d : Dialog) : Dialog :=
  match e with
  | Confirm options => snd (confirm options d)
  | HandleConfirm => handleConfirm d
  | HandleCancel => handleCancel d
  end.

Definition run (events : list Event) (d : Dialog) : Dialog :=
  List.fold_left (fun d e => handle e d) events d.

End useConfirmDialog.

(** * The provider client: [useApi()] of [src/services/api.ts] *)

Module useApi.

(** [type ChatMessage] *)
Record ChatMessage := mkChatMessage {
  role : string;
  content : string
}.

(** [type ChatRequest]; [messages] is optional. *)
Record ChatRequest := mkChatRequest {
  req_model : string;
  req_messages : option (list Message)
}.

(** [type ChatPartResponse] as it is at run time.  The last element that
    [generateChat] pushes is a copy of [results[results.length - 1]] with
    [done: true]; without any chunk that element is [undefined], and the
    copy has no field but [done].  [created_at] is kept as the instant that
    [new Date()] has read. *)
Record ChatPartResponse := mkResponse {
  res_model : option string;
  res_created_at : option Date;
  res_message : option ChatMessage;
  res_done : bool
}.

(** The providers that [getProvider] knows. *)
Inductive Provider := openai | ollama | anthropic.

(** [provider.value] comes from [./appConfig]; any other value makes
    [getProvider] throw an [Error]. *)
Definition getProvider (provider : string) : JsError + Provider :=
  if decide (provider = "openai") then inr openai
  else if decide (provider = "ollama") then inr ollama
  else if decide (provider = "anthropic") then inr anthropic
  else inl (ErrorObject "Error").

(** What [await job.run()] and the iteration over its stream deliver: the
    [text] of the chunks, which may be missing, until the stream is
    exhausted or something throws. *)
Record Job := mkJob {
  job_chunks : list (option string);
  job_end : StreamEnd
}.

(** The world of [generateChat]: the configured provider, the clock, the
    jobs started (provider, model, messages), the responses handed to
    [onDataReceived] and the errors written to the console. *)
Record World := mkWorld {
  provider : string;
  now : nat -> Z;
  reads : nat;
  jobs : list (Provider * string * list ChatMessage);
  received : list ChatPartResponse;
  errors : list JsError
}.

Definition roleName (r : Role) : string :=
  match r with
  | system => "system"
  | user => "user"
  | assistant => "assistant"
  end.

(** [request.messages?.map(m => ({ role: m.role, content: m.content })) || []] *)
Definition requestMessages (request : ChatRequest) : list ChatMessage :=
  match req_messages request with
  | Some ms =>
      List.map (fun m => mkChatMessage (roleName (msg_role m)) (msg_content m))
               ms
  | None => []
  end.

(** The body of [for await (const chunk of stream)]. *)
Definition receiveChunk (request : ChatRequest) (text : option string)
    (acc : list ChatPartResponse * World) : list ChatPartResponse * World :=
  let '(results, w) := acc in
  let response :=
    mkResponse (Some (req_model request)) (Some (now w (reads w)))
               (Some (mkChatMessage "assistant" (default "" text))) false in
  (results ++ [response],
   mkWorld (provider w) (now w) (S (reads w)) (jobs w)
           (received w ++ [response]) (errors w)).

(** [{ ...results[results.length - 1], done: true }] *)
Definition finalResponse (results : list ChatPartResponse) : ChatPartResponse :=
  match last results with
  | Some r => mkResponse (res_model r) (res_created_at r) (res_message r) true
  | None => mkResponse None None None true
  end.

(** [console.error(err); throw err] *)
Definition rethrow {A} (e : JsError) (w : World) : Outcome A * World :=
  (Threw e,
   mkWorld (provider w) (now w) (reads w) (jobs w) (received w)
           (errors w ++ [e])).

(** [generateChat(request, onDataReceived)], where [job] is what the
    provider answers.  The callback records what it is given. *)
Definition generateChat (request : ChatRequest) (job : Job) (w : World)
  : Outcome (list ChatPartResponse) * World :=
  match getProvider (provider w) with
  | inl e => rethrow e w
  | inr p =>
      let started :=
        mkWorld (provider w) (now w) (reads w)
                (jobs w ++ [(p, req_model request, requestMessages request)])
                (received w) (errors w) in
      let '(results, w') :=
        List.fold_left (fun acc text => receiveChunk request text acc)
                       (job_chunks job) ([], started) in
      match job_end job with
      | StreamThrows e => rethrow e w'
      | EndOfStream => (Returned (results ++ [finalResponse results]), w')
      end
  end.

End useApi.

(** * Derived definitions

    The states that the operations leave behind, in closed form, the
    invariants of the engine, and the sample states used below. *)

(** ** The states of a stream *)

(** [aiMessage.content += part.message.content] *)
Definition appendPart (part : ChatPart) (m : Message) : Message :=
  with_msg_content (msg_content m +:+ part_content part) m.

(** The state after one iteration of the loop for a chat that has an
    in-flight message: the object is extended, its row is overwritten with
    the object's content, and the visible list is reloaded when the chat is
    the active one. *)
Definition afterPart (currentChatId : N) (aiMessage : loc) (part : ChatPart)
    (s : State) : State :=
  let heap := alter (appendPart part) aiMessage (messageHeap s) in
  let st :=
    store_updateMessage (msg_id (heap !!! aiMessage))
      (with_msg_content (msg_content (heap !!! aiMessage))) (db s) in
  let s1 := set_db st (set_messageHeap heap s) in
  if activeChatIs currentChatId s then
    set_messages (seq (length heap) (length (store_getMessages currentChatId st)))
      (set_messageHeap (heap ++ store_getMessages currentChatId st) s1)
  else s1.

(** What an uninterrupted stream leaves alone: everything but the message
    objects, the visible message list and the content of message rows. *)
Record streamFrame (s s' : State) : Prop := mkStreamFrame {
  frame_chatRows : chatRows (db s') = chatRows (db s);
  frame_chatNext : chatNext (db s') = chatNext (db s);
  frame_messageNext : messageNext (db s') = messageNext (db s);
  frame_chatHeap : chatHeap s' = chatHeap s;
  frame_chats : chats s' = chats s;
  frame_activeChat : activeChat s' = activeChat s;
  frame_systemPrompt : systemPrompt s' = systemPrompt s;
  frame_ongoing : ongoingAiMessages s' = ongoingAiMessages s;
  frame_currentModel : currentModel s' = currentModel s;
  frame_ticks : ticks s' = ticks s;
  frame_console : console s' = console s;
  frame_backend : backend s' = backend s;
  frame_unhandled : unhandled s' = unhandled s
}.

(** Setting the content of all rows that carry a given id. *)
Definition overwriteContent (i : N) (text : string) (rows : list Message)
  : list Message :=
  List.map (fun r => if N.eqb (msg_id r) i then with_msg_content text r else r)
           rows.

(** The concatenation of the texts of a list of parts. *)
Definition textOf (parts : list ChatPart) : string :=
  List.fold_right (fun p acc => part_content p +:+ acc) "" parts.

(** ** Well-formed stores and states *)

(** Keys come from the key generators (they are positive and below the next
    key), and a message refers to a chat key that has been handed out. *)
Record store_ok (st : Store) : Prop := mkStoreOk {
  ok_chatNext : (0 < chatNext st)%N;
  ok_messageNext : (0 < messageNext st)%N;
  ok_chat_ids :
    forall c, In c (chatRows st) -> (0 < chat_id c < chatNext st)%N;
  ok_message_ids :
    forall m, In m (messageRows st) -> (0 < msg_id m < messageNext st)%N;
  ok_message_chat :
    forall m, In m (messageRows st) -> (msg_chatId m < chatNext st)%N
}.

(** The same as a test, for concrete stores. *)
Definition store_okb (st : Store) : bool :=
  (0 <? chatNext st)%N && (0 <? messageNext st)%N &&
  List.forallb (fun c => (0 <? chat_id c)%N && (chat_id c <? chatNext st)%N)
               (chatRows st) &&
  List.forallb (fun m => (0 <? msg_id m)%N && (msg_id m <? messageNext st)%N &&
                         (msg_chatId m <? chatNext st)%N)
               (messageRows st).

(** Every reference held by the engine points to an object. *)
Record allocated (s : State) : Prop := mkAllocated {
  alloc_chats : Forall (fun l => (l < length (chatHeap s))%nat) (chats s);
  alloc_activeChat :
    forall a, activeChat s = Some a -> (a < length (chatHeap s))%nat;
  alloc_messages :
    Forall (fun l => (l < length (messageHeap s))%nat) (messages s);
  alloc_systemPrompt :
    forall p, systemPrompt s = Some p -> (p < length (messageHeap s))%nat;
  alloc_ongoing :
    forall cid l, ongoingAiMessages s !! cid = Some l ->
                  (l < length (messageHeap s))%nat
}.

(** The state in which [requestCompletion] suspends on [ollama.chat]. *)
Definition afterRequest (cid : N) (s : State) : State :=
  let aiMessage :=
    mkMessage (messageNext (db s)) cid assistant "" None (clock s (ticks s)) in
  let l := length (messageHeap s) in
  let s1 :=
    set_messages (messages s ++ [l])
      (set_ongoingAiMessages (<[cid := l]> (ongoingAiMessages s))
         (set_messageHeap (messageHeap s ++ [aiMessage])
            (set_db (mkStore (chatRows (db s)) (chatNext (db s))
                             (messageRows (db s) ++ [aiMessage])
                             (N.succ (messageNext (db s))))
               (set_ticks (S (ticks s)) s)))) in
  set_backend
    (backend s ++
     [OllamaChat (currentModel s) (List.map (messageAt s1) (chatHistory s1))])
    s1.

(** How a streaming operation ends once the loop is over: the in-flight
    entry is cleared at the end of the stream and on an [AbortError]; any
    other failure is logged. *)
Definition settle (cid : N) (text : string) (ending : StreamEnd) (s : State)
  : State :=
  match ending with
  | EndOfStream =>
      set_ongoingAiMessages (delete cid (ongoingAiMessages s)) s
  | StreamThrows e =>
      if isAbortError e
      then set_ongoingAiMessages (delete cid (ongoingAiMessages s)) s
      else set_console (console s ++ [ConsoleError text e]) s
  end.

(** The state after the user message has been stored and shown. *)
Definition afterUserMessage (cid : N) (content : string) (s : State) : State :=
  let message :=
    mkMessage (messageNext (db s)) cid user content None (clock s (ticks s)) in
  set_messages (messages s ++ [length (messageHeap s)])
    (set_messageHeap (messageHeap s ++ [message])
       (set_db (mkStore (chatRows (db s)) (chatNext (db s))
                        (messageRows (db s) ++ [message])
                        (N.succ (messageNext (db s))))
          (set_ticks (S (ticks s)) s))).

(** ** Sample states *)

(** A first visit: an empty store, a model with a system prompt, a history
    window of two messages. *)
Definition sampleBoot : State :=
  boot (mkStore [] 1 [] 1) "llama3" (Some 2)
       (fun model => if decide (model = "llama3")
                     then Some "Be brief." else None)
       (fun n => Z.of_nat n).

(** After [initialize()]: one chat, active, holding its system message. *)
Definition sampleReady : State := exec initialize sampleBoot.

Definition Hel : ChatPart := mkPart "Hel" false.
Definition lo : ChatPart := mkPart "lo" true.

(** [abort()] run as a command. *)
Definition afterAbort (s : State) : State :=
  set_backend (backend s ++ [OllamaAbort]) (set_ongoingAiMessages ∅ s).

(** ** Regeneration and the history window *)

(** The state after the first block of [regenerateResponse]: a trailing
    assistant message is deleted from the store (when it has an id) and
    popped from the visible list; anything else is left as it is. *)
Definition afterTrim (s : State) : State :=
  match last (messages s) with
  | Some l =>
      if decide (msg_role (messageAt s l) = assistant) then
        set_messages (removelast (messages s))
          (if N.eqb (msg_id (messageAt s l)) 0 then s
           else set_db (store_deleteMessage (msg_id (messageAt s l)) (db s)) s)
      else s
  | None => s
  end.

(** The last [n] elements of a list (all of them when there are fewer). *)
Definition lastN {A} (n : nat) (l : list A) : list A :=
  drop (length l - n) l.

(** The values of the history that [requestCompletion] sends, given the
    messages shown when the request is made. *)
Definition promptList (s : State) : list Message :=
  match systemPromptValue s with Some p => [p] | None => [] end.

Definition historyValues (s : State) (shown : list Message) : list Message :=
  promptList s ++ js_slice (- default 0 (historyMessageLength s)) shown.

(** The visible messages once [regenerateResponse] has dropped a trailing
    assistant message. *)
Definition trimmed (shown : list Message) : list Message :=
  match last shown with
  | Some m => if decide (msg_role m = assistant) then removelast shown
              else shown
  | None => shown
  end.

(** The history as the specification words it: the last [N] messages of the
    active chat, none when [N] is zero or unset, behind the active chat's own
    system message when it has one. *)
Definition ownSystemPrompt (s : State) : list Message :=
  match systemPromptValue s, activeChatValue s with
  | Some p, Some chat =>
      if N.eqb (msg_chatId p) (chat_id chat) then [p] else []
  | _, _ => []
  end.

Definition spec_chatHistory (s : State) (shown : list Message)
  : list Message :=
  ownSystemPrompt s ++
  lastN (Z.to_nat (default 0 (historyMessageLength s))) shown.

(** The history of the request made last. *)
Definition sentHistory (s : State) : option (list Message) :=
  match last (backend s) with
  | Some (OllamaChat _ history) => Some history
  | _ => None
  end.

(** A session without system prompts and with a history length of zero. *)
Definition sampleNoHistory : State :=
  exec initialize
    (boot (mkStore [] 1 [] 1) "llama3" (Some 0) (fun _ => None)
          (fun n => Z.of_nat n)).

(** A session whose second chat was started under a model that has no
    system prompt: the prompt captured for the first chat is still held. *)
Definition sampleSecondChat : State :=
  run [Plain (SwitchModel "mistral"); Plain (StartNewChat "second")]
      sampleReady.

(** A chat that ends with a user message: it was imported that way and then
    opened. *)
Definition sampleAsked : State :=
  run [Plain (ImportChats
                [mkChatExport 9 "imported" "llama3" (Some 5)
                   [mkMessage 4 9 user "why?" None 6]]);
       Plain (SwitchChat 2)]
      sampleReady.

(** ** Import and export, on the store *)

(** What [importChats] does to the store, bundle by bundle. *)
Definition importedMessage (chatId : N) (messageData : Message) : Message :=
  mkMessage 0 chatId (msg_role messageData) (msg_content messageData) None
            (msg_createdAt messageData).

Fixpoint storeImported (chatId : N) (msgs : list Message) (st : Store)
  : Store :=
  match msgs with
  | [] => st
  | m :: msgs' =>
      storeImported chatId msgs'
        (snd (store_addMessage (importedMessage chatId m) st))
  end.

Definition storeBundle (createdAt : Date) (chatData : ChatExport) (st : Store)
  : Store :=
  storeImported (chatNext st) (exp_messages chatData)
    (snd (store_addChat
            (mkChat 0 (exp_name chatData) (exp_model chatData) createdAt) st)).

(** The state after the import of one bundle that carries a date (or whose
    first message does). *)
Definition afterImport (createdAt : Date) (chatData : ChatExport) (s : State)
  : State :=
  set_db (storeBundle createdAt chatData (db s))
    (set_chats (chats s ++ [length (chatHeap s)])
       (set_chatHeap
          (chatHeap s ++
           [mkChat (chatNext (db s)) (exp_name chatData) (exp_model chatData)
                   createdAt]) s)).

(** A list of bundles that all carry a date. *)
Definition dated (chatData : ChatExport) : Date :=
  default 0 (exp_createdAt chatData).

(** What the round trip preserves of a message. *)
Definition role_content (m : Message) : Role * string :=
  (msg_role m, msg_content m).

(** With the keys of a well-formed store, [exportChats] skips no chat. *)
Definition bundleOf (st : Store) (chat : Chat) : ChatExport :=
  mkChatExport (chat_id chat) (chat_name chat) (chat_model chat)
               (Some (chat_createdAt chat))
               (store_getMessages (chat_id chat) st).

(** A store with two chats, the second one holding a short exchange. *)
Definition sampleTalked : State :=
  run [AddUserMessage "hi"
         (mkStream [Part Hel; Part lo] EndOfStream);
       Plain (StartNewChat "second");
       AddUserMessage "more"
         (mkStream [Part Hel] (StreamThrows AbortError))]
      sampleReady.

(** ** The commands in closed form *)

Definition afterSwitchModel (model : string) (s : State) : State :=
  match activeChat s with
  | None => set_currentModel model s
  | Some a =>
      set_chatHeap (alter (with_chat_model model) a (chatHeap s))
        (set_db (store_updateChat (chat_id (chatAt s a))
                                  (with_chat_model model) (db s))
           (set_currentModel model s))
  end.

(** The chat has been found in the store: it becomes the active chat, with
    its messages, before its model is made the current one. *)
Definition opened (chat : Chat) (s : State) : State :=
  set_messages
    (seq (length (messageHeap s))
         (length (store_getMessages (chat_id chat) (db s))))
    (set_messageHeap
       (messageHeap s ++ store_getMessages (chat_id chat) (db s))
       (set_activeChat (Some (length (chatHeap s)))
          (set_chatHeap (chatHeap s ++ [chat]) s))).

Definition afterSwitchChat (chatId : N) (s : State) : State :=
  match store_getChat chatId (db s) with
  | Some chat => afterSwitchModel (chat_model chat) (opened chat s)
  | None => s
  end.

Definition afterRename (newName : string) (s : State) : State :=
  match activeChat s with
  | None => s
  | Some a =>
      let heap := alter (with_chat_name newName) a (chatHeap s) in
      let st := store_updateChat (chat_id (chatAt s a))
                                 (with_chat_name newName) (db s) in
      set_chats (seq (length heap) (length (chatRows st)))
        (set_chatHeap (heap ++ chatRows st) (set_db st s))
  end.

Definition afterSystemMessage (content meta : option string) (s : State)
  : State :=
  match activeChat s, content with
  | Some a, Some text =>
      if decide (text = "") then s
      else
        let message :=
          mkMessage (messageNext (db s)) (chat_id (chatAt s a)) system text
                    meta (clock s (ticks s)) in
        set_systemPrompt (Some (length (messageHeap s)))
          (set_messages (messages s ++ [length (messageHeap s)])
             (set_messageHeap (messageHeap s ++ [message])
                (set_db (mkStore (chatRows (db s)) (chatNext (db s))
                                 (messageRows (db s) ++ [message])
                                 (N.succ (messageNext (db s))))
                   (set_ticks (S (ticks s)) s))))
  | _, _ => s
  end.

(** A new chat has been stored and made active, before its system message
    is looked up. *)
Definition started (name : string) (s : State) : State :=
  let chat :=
    mkChat (chatNext (db s)) name (currentModel s) (clock s (ticks s)) in
  set_messages []
    (set_activeChat (Some (length (chatHeap s)))
       (set_chats (chats s ++ [length (chatHeap s)])
          (set_chatHeap (chatHeap s ++ [chat])
             (set_db (mkStore (chatRows (db s) ++ [chat])
                              (N.succ (chatNext (db s)))
                              (messageRows (db s)) (messageNext (db s)))
                (set_ticks (S (ticks s)) s))))).

Definition afterStartNewChat (name : string) (s : State) : State :=
  afterSystemMessage (systemMessages s (currentModel s)) None (started name s).

(** The chat and its messages are gone from the store and from the list. *)
Definition removed (chatId : N) (s : State) : State :=
  set_chats
    (List.filter (fun l => negb (N.eqb (chat_id (chatAt s l)) chatId))
                 (chats s))
    (set_db (store_deleteMessagesOfChat chatId
               (store_deleteChat chatId (db s))) s).

Definition afterDeleteChat (chatId : N) (s : State) : State :=
  let s1 := removed chatId s in
  if activeChatIs chatId s1 then
    match sortedChats s1 with
    | newest :: _ => afterSwitchChat (chat_id (chatAt s1 newest)) s1
    | [] => afterStartNewChat "New chat" s1
    end
  else s1.

Definition wiped (s : State) : State :=
  set_ongoingAiMessages ∅
    (set_messages []
       (set_activeChat None
          (set_chats []
             (set_db (store_clearMessages (store_clearChats (db s))) s)))).

Definition afterWipe (s : State) : State :=
  afterStartNewChat "New chat" (wiped s).

(** The chat list has been loaded from the store. *)
Definition loaded (s : State) : State :=
  set_chats (seq (length (chatHeap s)) (length (chatRows (db s))))
    (set_chatHeap (chatHeap s ++ chatRows (db s)) s).

Definition afterInitialize (s : State) : State :=
  let s1 := loaded s in
  match chats s1 with
  | _ :: _ =>
      match sortedChats s1 with
      | newest :: _ => afterSwitchChat (chat_id (chatAt s1 newest)) s1
      | [] =>
          set_console
            (console s1 ++
             [ConsoleError "Failed to initialize chats:" TypeError]) s1
      end
  | [] => afterStartNewChat "New chat" s1
  end.

(** Import of a list of bundles: a bundle without a date and without
    messages only leaves an unhandled rejection. *)
Definition afterImportOne (chatData : ChatExport) (s : State) : State :=
  match exp_createdAt chatData, exp_messages chatData with
  | Some d, _ => afterImport d chatData s
  | None, first :: _ => afterImport (msg_createdAt first) chatData s
  | None, [] => set_unhandled (unhandled s ++ [TypeError]) s
  end.

Definition afterImports (jsonData : list ChatExport) (s : State) : State :=
  List.fold_left (fun s chatData => afterImportOne chatData s) jsonData s.

Definition afterCommand (c : Command) (s : State) : State :=
  match c with
  | Initialize => afterInitialize s
  | SwitchChat chatId => afterSwitchChat chatId s
  | SwitchModel model => afterSwitchModel model s
  | RenameChat newName => afterRename newName s
  | StartNewChat name => afterStartNewChat name s
  | AddSystemMessage content meta => afterSystemMessage content meta s
  | WipeDatabase => afterWipe s
  | DeleteChat chatId => afterDeleteChat chatId s
  | Abort => afterAbort s
  | ImportChats jsonData => afterImports jsonData s
  end.

Definition afterItem (cid : N) (item : StreamItem) (s : State) : State :=
  match item with
  | Part p =>
      match ongoingAiMessages s !! cid with
      | Some l => afterPart cid l p s
      | None => s
      end
  | Meanwhile c => afterCommand c s
  end.

Definition afterItems (cid : N) (items : list StreamItem) (s : State) : State :=
  List.fold_left (fun s item => afterItem cid item s) items s.

(** Any request, in closed form. *)
Definition afterRequestOf (r : Request) (s : State) : State :=
  match r with
  | Plain c => afterCommand c s
  | AddUserMessage content response =>
      match activeChat s with
      | None =>
          set_console
            (console s ++ [ConsoleWarn "There was no active chat."]) s
      | Some a =>
          let cid := chat_id (chatAt s a) in
          settle cid "Failed to add user message:" (stream_end response)
            (afterItems cid (stream_items response)
               (afterRequest cid (afterUserMessage cid content s)))
      end
  | RegenerateResponse response =>
      match activeChat s with
      | None => s
      | Some a =>
          let cid := chat_id (chatAt s a) in
          settle cid "Failed to regenerate response:" (stream_end response)
            (afterItems cid (stream_items response)
               (afterRequest cid (afterTrim s)))
      end
  end.

(** ** Invariants *)

(** What identifies a chat for good: its id and its creation date. *)
Definition chat_key (c : Chat) : N * Date := (chat_id c, chat_createdAt c).

(** The chat list shows the chats of the store, in the same order. *)
Record chatsListed (s : State) : Prop := mkChatsListed {
  listed_alloc : Forall (fun l => (l < length (chatHeap s))%nat) (chats s);
  listed_keys :
    List.map chat_key (chatList s) = List.map chat_key (chatRows (db s))
}.

(** ... and the active chat, if any, is a chat of the store. *)
Record listed (s : State) : Prop := mkListed {
  listed_chats : chatsListed s;
  listed_active_alloc :
    forall a, activeChat s = Some a -> (a < length (chatHeap s))%nat;
  listed_active :
    forall a, activeChat s = Some a ->
              In (chat_id (chatAt s a)) (List.map chat_id (chatRows (db s)))
}.

(** The property of the claim: the active chat is in the chat list, by id. *)
Definition activeChatListed (s : State) : Prop :=
  forall a, activeChat s = Some a ->
            In (chat_id (chatAt s a)) (List.map chat_id (chatList s)).

(** The head of the sorted list is a newest chat of the list. *)
Definition newestFirst (key : loc -> Date) (l : list loc) : Prop :=
  match l with
  | [] => True
  | x :: rest => forall y, In y rest -> key y <= key x
  end.

(** The states of a session in which [initialize()] has run at some point,
    from whatever state, followed by any requests. *)
Inductive initialized : State -> Prop :=
| initialized_start s : initialized (step (Plain Initialize) s)
| initialized_step r s : initialized s -> initialized (step r s).

(** The three operations of the claim. *)
Definition isNavigation (r : Request) : Prop :=
  match r with
  | Plain (StartNewChat _) | Plain (SwitchChat _) | Plain (DeleteChat _) => True
  | _ => False
  end.

(** A returning visitor: the store holds a chat from an earlier session. *)
Definition sampleReturn : State :=
  boot (mkStore [mkChat 1 "Old" "llama3" 0] 2 [] 1) "llama3" (Some 2)
       (fun _ => None) (fun n => Z.of_nat n).

(** A well-formed store whose chat keys are distinct and whose messages all
    belong to a stored chat. *)
Record storeSound (st : Store) : Prop := mkStoreSound {
  sound_ok : store_ok st;
  sound_distinct : NoDup (List.map chat_id (chatRows st));
  sound_refs :
    forall m, In m (messageRows st) ->
              In (msg_chatId m) (List.map chat_id (chatRows st))
}.

(** The visible messages are objects, and they belong to the active chat. *)
Record shown (s : State) : Prop := mkShown {
  shown_alloc : Forall (fun l => (l < length (messageHeap s))%nat) (messages s);
  shown_active :
    forall l, In l (messages s) ->
              activeChatIs (msg_chatId (messageAt s l)) s = true
}.

(** Every chat of the chat list is an object that carries the key of a
    stored chat.  (The converse, that every stored chat is listed, only
    holds once [initialize()] has loaded the list.) *)
Record chatsKnown (s : State) : Prop := mkChatsKnown {
  known_alloc : Forall (fun l => (l < length (chatHeap s))%nat) (chats s);
  known_keys :
    forall l, In l (chats s) ->
              In (chat_key (chatAt s l)) (List.map chat_key (chatRows (db s)))
}.

(** What holds of the engine from the moment the page is loaded: the chat
    list and the active chat refer to stored chats, the store is sound, and
    the visible messages belong to the active chat. *)
Record coherent (s : State) : Prop := mkCoherent {
  coh_chats : chatsKnown s;
  coh_active_alloc :
    forall a, activeChat s = Some a -> (a < length (chatHeap s))%nat;
  coh_active :
    forall a, activeChat s = Some a ->
              In (chat_id (chatAt s a)) (List.map chat_id (chatRows (db s)));
  coh_store : storeSound (db s);
  coh_shown : shown s
}.

(** A session with two chats; the second one is active. *)
Definition sampleSession : State :=
  run [Plain Initialize;
       AddUserMessage "hi" (mkStream [Part Hel; Part lo] EndOfStream);
       Plain (StartNewChat "second")]
      sampleBoot.

(** ** Further definitions *)

(** The creation date behind a reference of the chat list. *)
Definition createdAtOf (s : State) (l : loc) : Date :=
  chat_createdAt (chatAt s l).

(** The references of a list whose chat was created at [d]. *)
Definition createdOn (s : State) (d : Date) (ls : list loc) : list loc :=
  List.filter (fun l => createdAtOf s l =? d) ls.

(** The system message that [startNewChat] stores for a new chat with key
    [chatId], when the current model has a system prompt. *)
Definition greeting (s : State) (chatId : N) (now : Date) : list Message :=
  match systemMessages s (currentModel s) with
  | Some text =>
      if decide (text = "") then []
      else [mkMessage (messageNext (db s)) chatId system text None now]
  | None => []
  end.

(** The date that [importChats] gives to the chat of a bundle: the bundle's
    own date, else the date of its first message; a bundle that has neither
    is not imported. *)
Definition importDate (chatData : ChatExport) : option Date :=
  match exp_createdAt chatData, exp_messages chatData with
  | Some d, _ => Some d
  | None, first :: _ => Some (msg_createdAt first)
  | None, [] => None
  end.

(** What an imported chat takes from its bundle. *)
Definition chat_fields (c : Chat) : string * string * Date :=
  (chat_name c, chat_model c, chat_createdAt c).

Definition importedFields (chatData : ChatExport)
  : option (string * string * Date) :=
  option_map (fun d => (exp_name chatData, exp_model chatData, d))
             (importDate chatData).

(** The bundles that cannot be imported. *)
Definition bare (chatData : ChatExport) : bool :=
  match importDate chatData with Some _ => false | None => true end.

(** The rows that [importChats] stores for the messages of a bundle whose
    chat has got the key [chatKey], when the next message key is
    [messageKey]: chat key, role, content and date of every message, in the
    order of the bundle, under consecutive keys and without [meta]. *)
Fixpoint importedMessages (chatKey messageKey : N) (msgs : list Message)
  : list Message :=
  match msgs with
  | [] => []
  | m :: rest =>
      mkMessage messageKey chatKey (msg_role m) (msg_content m) None
                (msg_createdAt m)
      :: importedMessages chatKey (N.succ messageKey) rest
  end.

(** The chat rows and the message rows that the import of a list of bundles
    adds to a store whose next keys are [chatKey] and [messageKey]. *)
Fixpoint importedRows (chatKey messageKey : N) (data : list ChatExport)
  : list Chat * list Message :=
  match data with
  | [] => ([], [])
  | b :: rest =>
      match importDate b with
      | Some d =>
          let more :=
            importedRows (N.succ chatKey)
                         (messageKey + N.of_nat (length (exp_messages b)))
                         rest in
          (mkChat chatKey (exp_name b) (exp_model b) d :: fst more,
           importedMessages chatKey messageKey (exp_messages b) ++ snd more)
      | None => importedRows chatKey messageKey rest
      end
  end.

(** The requests that work on the active chat. *)
Definition needsActiveChat (r : Request) : Prop :=
  match r with
  | Plain (RenameChat _) | Plain (AddSystemMessage _ _)
  | Plain (SwitchModel _) | AddUserMessage _ _ | RegenerateResponse _ => True
  | _ => False
  end.

(** The response that [generateChat] builds for a chunk read at [instant]. *)
Definition partResponse (model : string) (instant : Date)
    (text : option string) : useApi.ChatPartResponse :=
  useApi.mkResponse (Some model) (Some instant)
    (Some (useApi.mkChatMessage "assistant" (default "" text))) false.

(** The responses for the chunks [texts], read from the [k]-th instant on. *)
Fixpoint partResponses (model : string) (time : nat -> Z) (k : nat)
    (texts : list (option string)) : list useApi.ChatPartResponse :=
  match texts with
  | [] => []
  | text :: rest =>
      partResponse model (time k) text :: partResponses model time (S k) rest
  end.

(** What the dialog keeps true of its promises. *)
Record tidy (d : useConfirmDialog.Dialog) : Prop := mkTidy {
  tidy_resolved :
    forall p, In p (List.map fst (useConfirmDialog.resolved d)) ->
              (p < useConfirmDialog.promises d)%nat;
  tidy_pending :
    forall p, useConfirmDialog.resolvePromise d = Some p ->
              (p < useConfirmDialog.promises d)%nat /\
              ~ In p (List.map fst (useConfirmDialog.resolved d));
  tidy_once : NoDup (List.map fst (useConfirmDialog.resolved d))
}.

(** A promise that nothing can settle any more. *)
Definition orphan (p : nat) (d : useConfirmDialog.Dialog) : Prop :=
  (p < useConfirmDialog.promises d)%nat /\
  useConfirmDialog.resolvePromise d <> Some p /\
  ~ In p (List.map fst (useConfirmDialog.resolved d)).

(** The provider names that [getProvider] accepts. *)
Definition supported (name : string) : Prop :=
  name = "openai" \/ name = "ollama" \/ name = "anthropic".

(** * Properties *)

(** ** Running tasks *)

Lemma bind_returned {A B} (m : Task A) (k : A -> Task B) s a s' :
  m s = (Returned a, s') -> bind m k s = k a s'.
Proof. intros H. unfold bind. now rewrite H. Qed.

Lemma bind_threw {A B} (m : Task A) (k : A -> Task B) s e s' :
  m s = (Threw e, s') -> bind m k s = (Threw e, s').
Proof. intros H. unfold bind. now rewrite H. Qed.

Lemma try_catch_returned {A} (m : Task A) h s a s' :
  m s = (Returned a, s') -> try_catch m h s = (Returned a, s').
Proof. intros H. unfold try_catch. now rewrite H. Qed.

Lemma try_catch_threw {A} (m : Task A) h s e s' :
  m s = (Threw e, s') -> try_catch m h s = h e s'.
Proof. intros H. unfold try_catch. now rewrite H. Qed.

Lemma detached_returns (m : Task unit) s :
  exists s', detached m s = (Returned tt, s').
Proof.
  unfold detached, try_catch. destruct (m s) as [[[]|e] s']; eauto.
Qed.

Lemma forEach_async_returns {A} (f : A -> Task unit) l s :
  exists s', forEach_async f l s = (Returned tt, s').
Proof.
  revert s. induction l as [|x l IH]; intros s; simpl; [now eexists|].
  destruct (detached_returns (f x) s) as [s1 H1].
  rewrite (bind_returned _ _ _ _ _ H1). apply IH.
Qed.

(** Allocation appends to the heap and returns consecutive references. *)
Lemma newMessageObjects_eq ms s :
  newMessageObjects ms s =
  (Returned (seq (length (messageHeap s)) (length ms)),
   set_messageHeap (messageHeap s ++ ms) s).
Proof.
  revert s. induction ms as [|m ms IH]; intros s; simpl.
  - unfold ret. rewrite app_nil_r. now destruct s.
  - unfold bind at 1. simpl. unfold bind at 1. rewrite IH. simpl.
    rewrite length_app. simpl. rewrite Nat.add_1_r, <- app_assoc. reflexivity.
Qed.

Lemma newChatObjects_eq cs s :
  newChatObjects cs s =
  (Returned (seq (length (chatHeap s)) (length cs)),
   set_chatHeap (chatHeap s ++ cs) s).
Proof.
  revert s. induction cs as [|c cs IH]; intros s; simpl.
  - unfold ret. rewrite app_nil_r. now destruct s.
  - unfold bind at 1. simpl. unfold bind at 1. rewrite IH. simpl.
    rewrite length_app. simpl. rewrite Nat.add_1_r, <- app_assoc. reflexivity.
Qed.

(** Reading back freshly allocated objects. *)
Lemma lookup_total_fresh {A} `{Inhabited A} (h rows : list A) :
  List.map (fun l => (h ++ rows) !!! l) (seq (length h) (length rows)) = rows.
Proof.
  revert h. induction rows as [|r rows IH]; intros h; simpl; [reflexivity|].
  f_equal.
  - rewrite lookup_total_app_r by lia. now rewrite Nat.sub_diag.
  - specialize (IH (h ++ [r])). rewrite length_app in IH. simpl in IH.
    rewrite Nat.add_1_r, <- app_assoc in IH. exact IH.
Qed.

Lemma lookup_total_old {A} `{Inhabited A} (h rows : list A) (ls : list loc) :
  Forall (fun l => (l < length h)%nat) ls ->
  List.map (fun l => (h ++ rows) !!! l) ls = List.map (fun l => h !!! l) ls.
Proof.
  induction 1 as [|l ls Hl _ IH]; simpl; [reflexivity|].
  rewrite IH. f_equal. now apply lookup_total_app_l.
Qed.

(** Unfolding of the task combinators, the primitive effects and the field
    setters; what is left is the state as a record and the tests the code
    makes on it. *)
Declare Reduction task :=
  cbv beta iota zeta delta
    [bind ret throw try_catch get modify exec outcome detached
     new_Date console_warn console_error newChatObject newMessageObject
     setActiveChat setMessages getCurrentSystemMessage
     dbLayer.getAllChats dbLayer.getChat dbLayer.getMessages dbLayer.addChat
     dbLayer.updateChat dbLayer.addMessage dbLayer.updateMessage
     dbLayer.deleteChat dbLayer.deleteMessagesOfChat dbLayer.deleteMessage
     dbLayer.clearChats dbLayer.clearMessages
     store_addChat store_addMessage
     set_db set_chatHeap set_messageHeap set_chats set_activeChat set_messages
     set_systemPrompt set_ongoingAiMessages set_currentModel set_ticks
     set_console set_backend set_unhandled
     db chatHeap messageHeap chats activeChat messages systemPrompt
     ongoingAiMessages currentModel historyMessageLength systemMessages clock
     ticks console backend unhandled fst snd].

Ltac task_cbv :=
  match goal with
  | |- ?G => let G' := eval task in G in change G'
  end.

Ltac task_cbv_in H :=
  let T := type of H in
  let T' := eval task in T in
  change T' in H.

(** Case analysis on the option that the goal examines first. *)
Ltac case_option :=
  match goal with
  | |- context [match ?x with Some _ => _ | None => _ end] => destruct x
  end.

(** ** One part of a stream *)

Lemma receivePart_in_flight cid l part s :
  ongoingAiMessages s !! cid = Some l ->
  receivePart cid part s = (Returned tt, afterPart cid l part s).
Proof.
  intros Hl. unfold receivePart, afterPart, activeChatIs, chatAt, messageAt.
  task_cbv. destruct s; task_cbv_in Hl; rewrite Hl. task_cbv.
  case_option; [|reflexivity].
  destruct (N.eqb _ cid); [|reflexivity].
  rewrite newMessageObjects_eq. reflexivity.
Qed.

Lemma receivePart_idle cid part s :
  ongoingAiMessages s !! cid = None ->
  receivePart cid part s = (Returned tt, s).
Proof.
  intros Hl. unfold receivePart. task_cbv. destruct s; task_cbv_in Hl.
  now rewrite Hl.
Qed.

Lemma streamFrame_refl s : streamFrame s s.
Proof. now constructor. Qed.

Lemma streamFrame_trans s1 s2 s3 :
  streamFrame s1 s2 -> streamFrame s2 s3 -> streamFrame s1 s3.
Proof.
  intros [] []; constructor; etransitivity; eassumption.
Qed.

Lemma afterPart_frame cid l part s : streamFrame s (afterPart cid l part s).
Proof.
  unfold afterPart. destruct (activeChatIs cid s); now constructor.
Qed.

Lemma activeChatIs_frame cid s s' :
  streamFrame s s' -> activeChatIs cid s' = activeChatIs cid s.
Proof.
  intros F. unfold activeChatIs, chatAt.
  now rewrite (frame_activeChat _ _ F), (frame_chatHeap _ _ F).
Qed.

Lemma overwriteContent_twice i t1 t2 rows :
  overwriteContent i t2 (overwriteContent i t1 rows) =
  overwriteContent i t2 rows.
Proof.
  unfold overwriteContent. rewrite List.map_map. apply List.map_ext.
  intros r. destruct (N.eqb (msg_id r) i) eqn:E; simpl; now rewrite ?E.
Qed.

Lemma afterPart_object cid l part s :
  (l < length (messageHeap s))%nat ->
  messageAt (afterPart cid l part s) l = appendPart part (messageAt s l) /\
  (l < length (messageHeap (afterPart cid l part s)))%nat.
Proof.
  intros Hl. unfold afterPart, messageAt.
  destruct (activeChatIs cid s); simpl.
  - rewrite lookup_total_app_l by now rewrite length_alter.
    rewrite list_lookup_total_alter_eq by exact Hl.
    rewrite length_app, length_alter. split; [reflexivity|lia].
  - rewrite list_lookup_total_alter_eq by exact Hl.
    now rewrite length_alter.
Qed.

Lemma afterPart_rows cid l part s :
  (l < length (messageHeap s))%nat ->
  messageRows (db (afterPart cid l part s)) =
  overwriteContent (msg_id (messageAt s l))
    (msg_content (messageAt s l) +:+ part_content part) (messageRows (db s)).
Proof.
  intros Hl. unfold afterPart, messageAt.
  rewrite list_lookup_total_alter_eq by exact Hl.
  destruct (activeChatIs cid s); reflexivity.
Qed.

Lemma afterPart_visible cid l part s :
  activeChatIs cid s = true ->
  messageList (afterPart cid l part s) =
  store_getMessages cid (db (afterPart cid l part s)).
Proof.
  intros Ha. unfold afterPart, messageList, messageAt. rewrite Ha. simpl.
  apply lookup_total_fresh.
Qed.

Lemma afterPart_hidden cid l part s :
  activeChatIs cid s = false ->
  messages (afterPart cid l part s) = messages s.
Proof. intros Ha. unfold afterPart. now rewrite Ha. Qed.

Lemma string_app_assoc (a b c : string) : (a +:+ b) +:+ c = a +:+ (b +:+ c).
Proof.
  induction a as [|x a IH]; [reflexivity|].
  change (String x ((a +:+ b) +:+ c) = String x (a +:+ (b +:+ c))).
  now f_equal.
Qed.

Lemma string_app_nil_r (a : string) : a +:+ "" = a.
Proof.
  induction a as [|x a IH]; [reflexivity|].
  change (String x (a +:+ "") = String x a). now f_equal.
Qed.

Lemma textOf_app p q : textOf (p ++ q) = textOf p +:+ textOf q.
Proof.
  induction p as [|x p IH]; [reflexivity|].
  change (textOf ((x :: p) ++ q)) with (part_content x +:+ textOf (p ++ q)).
  change (textOf (x :: p)) with (part_content x +:+ textOf p).
  rewrite IH. symmetry. apply string_app_assoc.
Qed.

(** An uninterrupted run of the loop over [parts] for a chat with an
    in-flight message object [l]. *)
Lemma consume_parts cid l parts s :
  ongoingAiMessages s !! cid = Some l ->
  (l < length (messageHeap s))%nat ->
  exists s',
    consume cid (List.map Part parts) s = (Returned tt, s') /\
    streamFrame s s' /\
    (l < length (messageHeap s'))%nat /\
    messageAt s' l =
      with_msg_content (msg_content (messageAt s l) +:+ textOf parts)
                       (messageAt s l) /\
    messageRows (db s') =
      match parts with
      | [] => messageRows (db s)
      | _ => overwriteContent (msg_id (messageAt s l))
               (msg_content (messageAt s l) +:+ textOf parts)
               (messageRows (db s))
      end /\
    match parts with
    | [] => messages s' = messages s /\ messageHeap s' = messageHeap s
    | _ => if activeChatIs cid s
           then messageList s' = store_getMessages cid (db s')
           else messages s' = messages s
    end.
Proof.
  revert s. induction parts as [|p parts IH]; intros s Hin Hl.
  - exists s. simpl. rewrite string_app_nil_r.
    repeat split; try apply streamFrame_refl; try assumption.
    now destruct (messageAt s l).
  - simpl. rewrite (bind_returned _ _ _ _ _ (receivePart_in_flight cid l p s Hin)).
    pose proof (afterPart_frame cid l p s) as F1.
    destruct (afterPart_object cid l p s Hl) as [Hobj Hl1].
    assert (Hin1 : ongoingAiMessages (afterPart cid l p s) !! cid = Some l)
      by now rewrite (frame_ongoing _ _ F1).
    destruct (IH _ Hin1 Hl1) as (s' & Hrun & F & Hl' & Hobj' & Hrows & Hvis).
    exists s'. split; [exact Hrun|].
    split; [eapply streamFrame_trans; eassumption|].
    split; [exact Hl'|].
    split.
    { rewrite Hobj', Hobj. unfold appendPart, with_msg_content; simpl.
      now rewrite string_app_assoc. }
    split.
    { rewrite Hrows, Hobj.
      destruct parts as [|q parts'].
      - rewrite (afterPart_rows cid l p s Hl). simpl.
        now rewrite string_app_nil_r.
      - rewrite (afterPart_rows cid l p s Hl).
        unfold appendPart, with_msg_content at 1 2; simpl msg_id; simpl msg_content.
        rewrite overwriteContent_twice. now rewrite string_app_assoc. }
    destruct parts as [|q parts'].
    + destruct Hvis as [Hm Hh]. simpl in Hrun. injection Hrun as <-.
      destruct (activeChatIs cid s) eqn:Ha.
      * now apply afterPart_visible.
      * now apply afterPart_hidden.
    + rewrite (activeChatIs_frame cid _ _ F1) in Hvis.
      destruct (activeChatIs cid s) eqn:Ha; [exact Hvis|].
      rewrite Hvis. now apply afterPart_hidden.
Qed.

Lemma store_okb_ok st : store_okb st = true -> store_ok st.
Proof.
  unfold store_okb. intros H.
  apply andb_prop in H as [H Hm]. apply andb_prop in H as [H Hc].
  apply andb_prop in H as [Hcn Hmn].
  rewrite List.forallb_forall in Hc, Hm.
  constructor.
  - now apply N.ltb_lt.
  - now apply N.ltb_lt.
  - intros c Hin. specialize (Hc c Hin).
    apply andb_prop in Hc as [H1 H2]. apply N.ltb_lt in H1, H2. lia.
  - intros m Hin. specialize (Hm m Hin).
    apply andb_prop in Hm as [Hm _]. apply andb_prop in Hm as [H1 H2].
    apply N.ltb_lt in H1, H2. lia.
  - intros m Hin. specialize (Hm m Hin).
    apply andb_prop in Hm as [_ H3]. now apply N.ltb_lt in H3.
Qed.

Lemma overwriteContent_fresh i text rows :
  (forall m, In m rows -> msg_id m <> i) -> overwriteContent i text rows = rows.
Proof.
  intros H. unfold overwriteContent.
  rewrite <- (List.map_id rows) at 2. apply List.map_ext_in.
  intros m Hm. destruct (N.eqb_spec (msg_id m) i) as [E|E]; [|reflexivity].
  now destruct (H m Hm).
Qed.

Lemma overwriteContent_app i text r1 r2 :
  overwriteContent i text (r1 ++ r2) =
  overwriteContent i text r1 ++ overwriteContent i text r2.
Proof. apply List.map_app. Qed.

(** ** The request sent to the backend *)

Lemma requestCompletion_eq cid s :
  requestCompletion cid s = (Returned tt, afterRequest cid s).
Proof. reflexivity. Qed.

Lemma streamResponse_settles cid text items ending s s' :
  consume cid items s = (Returned tt, s') ->
  try_catch (streamResponse cid (mkStream items ending))
            (onStreamError cid text) s =
  (Returned tt, settle cid text ending s').
Proof.
  intros H. unfold streamResponse, try_catch, bind; simpl. rewrite H.
  destruct ending as [|e]; simpl; [reflexivity|].
  unfold onStreamError. now destruct (isAbortError e).
Qed.

Lemma generate_settles cid text items ending s s' :
  consume cid items (afterRequest cid s) = (Returned tt, s') ->
  try_catch (generate cid (mkStream items ending)) (onStreamError cid text) s =
  (Returned tt, settle cid text ending s').
Proof.
  intros H.
  pose proof (streamResponse_settles cid text items ending _ _ H) as E.
  unfold generate, try_catch, bind in *. rewrite requestCompletion_eq.
  destruct (streamResponse cid (mkStream items ending) (afterRequest cid s))
    as [[[]|e] s2]; exact E.
Qed.

Lemma addUserMessage_eq content items ending s a s' :
  activeChat s = Some a ->
  consume (chat_id (chatAt s a)) items
    (afterRequest (chat_id (chatAt s a))
       (afterUserMessage (chat_id (chatAt s a)) content s)) =
    (Returned tt, s') ->
  addUserMessage content (mkStream items ending) s =
  (Returned tt,
   settle (chat_id (chatAt s a)) "Failed to add user message:" ending s').
Proof.
  intros Ha H.
  pose proof (generate_settles _ "Failed to add user message:" _ ending _ _ H)
    as E.
  unfold addUserMessage. unfold bind at 1, get at 1. rewrite Ha.
  unfold bind at 1. unfold new_Date at 1.
  unfold try_catch in *. unfold bind at 1. unfold bind at 1.
  unfold bind at 1. exact E.
Qed.

Lemma addUserMessage_idle content response s :
  activeChat s = None ->
  addUserMessage content response s =
  (Returned tt,
   set_console (console s ++ [ConsoleWarn "There was no active chat."]) s).
Proof.
  intros Ha. unfold addUserMessage, bind, get. now rewrite Ha.
Qed.

(** [settle] touches the in-flight map and the console only. *)
Lemma settle_db cid text ending s : db (settle cid text ending s) = db s.
Proof. destruct ending as [|e]; simpl; [|destruct (isAbortError e)]; reflexivity. Qed.

Lemma settle_messageList cid text ending s :
  messageList (settle cid text ending s) = messageList s.
Proof. destruct ending as [|e]; simpl; [|destruct (isAbortError e)]; reflexivity. Qed.

Lemma settle_messageAt cid text ending s l :
  messageAt (settle cid text ending s) l = messageAt s l.
Proof. destruct ending as [|e]; simpl; [|destruct (isAbortError e)]; reflexivity. Qed.

Lemma settle_backend cid text ending s :
  backend (settle cid text ending s) = backend s.
Proof. destruct ending as [|e]; simpl; [|destruct (isAbortError e)]; reflexivity. Qed.

Lemma settle_unhandled cid text ending s :
  unhandled (settle cid text ending s) = unhandled s.
Proof. destruct ending as [|e]; simpl; [|destruct (isAbortError e)]; reflexivity. Qed.

(** ** An uninterrupted exchange *)

Lemma last_filter_snoc {A} (f : A -> bool) (l : list A) (x : A) :
  f x = true -> last (List.filter f (l ++ [x])) = Some x.
Proof.
  intros H. rewrite List.filter_app. simpl. rewrite H. apply last_snoc.
Qed.

(** The state in which an uninterrupted stream of [parts] leaves a chat
    whose in-flight assistant message has just been created by
    [requestCompletion], before the operation settles. *)
Lemma generate_parts cid parts s a :
  activeChat s = Some a ->
  chat_id (chatAt s a) = cid ->
  (forall m, In m (messageRows (db s)) -> msg_id m <> messageNext (db s)) ->
  let ai text :=
    mkMessage (messageNext (db s)) cid assistant text None (clock s (ticks s))
  in
  exists s',
    consume cid (List.map Part parts) (afterRequest cid s) = (Returned tt, s') /\
    streamFrame (afterRequest cid s) s' /\
    messageAt s' (length (messageHeap s)) = ai (textOf parts) /\
    messageRows (db s') = messageRows (db s) ++ [ai (textOf parts)] /\
    last (messageList s') = Some (ai (textOf parts)).
Proof.
  intros Ha Hcid Hfresh ai.
  set (s1 := afterRequest cid s).
  assert (Hin : ongoingAiMessages s1 !! cid = Some (length (messageHeap s)))
    by apply lookup_insert_eq.
  assert (Hl : (length (messageHeap s) < length (messageHeap s1))%nat).
  { simpl. rewrite length_app. simpl. lia. }
  assert (Hobj : messageAt s1 (length (messageHeap s)) = ai "").
  { unfold messageAt. simpl. rewrite lookup_total_app_r by lia.
    now rewrite Nat.sub_diag. }
  assert (Hact : activeChatIs cid s1 = true).
  { unfold activeChatIs, chatAt in *. simpl. rewrite Ha, Hcid.
    apply N.eqb_refl. }
  destruct (consume_parts cid _ parts s1 Hin Hl)
    as (s' & Hrun & F & Hl' & Hobj' & Hrows & Hvis).
  rewrite Hobj in Hobj', Hrows. simpl in Hobj', Hrows.
  exists s'. split; [exact Hrun|]. split; [exact F|].
  split; [exact Hobj'|].
  assert (Hrows' : messageRows (db s') = messageRows (db s) ++ [ai (textOf parts)]).
  { rewrite Hrows. destruct parts as [|p parts']; [reflexivity|].
    rewrite overwriteContent_app, overwriteContent_fresh by exact Hfresh.
    simpl. now rewrite N.eqb_refl. }
  split; [exact Hrows'|].
  destruct parts as [|p parts'].
  - destruct Hvis as [Hm Hh]. unfold messageList, messageAt. rewrite Hm, Hh.
    simpl. rewrite List.map_app. simpl. rewrite last_snoc.
    f_equal. fold (messageAt s1 (length (messageHeap s))). exact Hobj.
  - rewrite Hact in Hvis. rewrite Hvis. unfold store_getMessages.
    rewrite Hrows'. apply last_filter_snoc. simpl. apply N.eqb_refl.
Qed.

Lemma store_ok_fresh st :
  store_ok st ->
  forall m, In m (messageRows st) -> msg_id m <> messageNext st.
Proof. intros Hok m Hm. pose proof (ok_message_ids st Hok m Hm). lia. Qed.

(** The loop of an uninterrupted [addUserMessage] on an active chat. *)
Lemma exchange_parts content parts s a :
  activeChat s = Some a ->
  store_ok (db s) ->
  let cid := chat_id (chatAt s a) in
  let userMessage :=
    mkMessage (messageNext (db s)) cid user content None (clock s (ticks s)) in
  let aiMessage :=
    mkMessage (N.succ (messageNext (db s))) cid assistant (textOf parts) None
              (clock s (S (ticks s))) in
  exists s',
    consume cid (List.map Part parts)
      (afterRequest cid (afterUserMessage cid content s)) = (Returned tt, s') /\
    streamFrame (afterRequest cid (afterUserMessage cid content s)) s' /\
    messageAt s' (S (length (messageHeap s))) = aiMessage /\
    messageRows (db s') = messageRows (db s) ++ [userMessage; aiMessage] /\
    last (messageList s') = Some aiMessage.
Proof.
  intros Ha Hok cid userMessage aiMessage.
  set (s1 := afterUserMessage cid content s).
  assert (Ha1 : activeChat s1 = Some a) by exact Ha.
  assert (Hcid : chat_id (chatAt s1 a) = cid) by reflexivity.
  assert (Hfresh : forall m, In m (messageRows (db s1)) ->
                             msg_id m <> messageNext (db s1)).
  { simpl. intros m Hm. apply in_app_or in Hm as [Hm|[<-|[]]].
    - pose proof (ok_message_ids _ Hok m Hm). lia.
    - simpl. lia. }
  destruct (generate_parts cid parts s1 a Ha1 Hcid Hfresh)
    as (s' & Hrun & F & Hobj & Hrows & Hlast).
  exists s'. split; [exact Hrun|]. split; [exact F|].
  simpl in Hobj, Hrows, Hlast.
  rewrite length_app in Hobj. simpl in Hobj. rewrite Nat.add_1_r in Hobj.
  split; [exact Hobj|].
  split; [|exact Hlast].
  rewrite Hrows, <- app_assoc. reflexivity.
Qed.

(** An uninterrupted [addUserMessage] on an active chat, whatever the
    stream and however it ends. *)
Lemma addUserMessage_parts content parts ending s a :
  activeChat s = Some a ->
  store_ok (db s) ->
  let cid := chat_id (chatAt s a) in
  let userMessage :=
    mkMessage (messageNext (db s)) cid user content None (clock s (ticks s)) in
  let aiMessage :=
    mkMessage (N.succ (messageNext (db s))) cid assistant (textOf parts) None
              (clock s (S (ticks s))) in
  exists s',
    addUserMessage content (mkStream (List.map Part parts) ending) s =
      (Returned tt, settle cid "Failed to add user message:" ending s') /\
    streamFrame (afterRequest cid (afterUserMessage cid content s)) s' /\
    messageAt s' (S (length (messageHeap s))) = aiMessage /\
    messageRows (db s') = messageRows (db s) ++ [userMessage; aiMessage] /\
    last (messageList s') = Some aiMessage.
Proof.
  intros Ha Hok cid userMessage aiMessage.
  destruct (exchange_parts content parts s a Ha Hok)
    as (s' & Hrun & Hrest).
  exists s'. split; [|exact Hrest]. now apply addUserMessage_eq.
Qed.

Lemma sampleReady_ok : store_ok (db sampleReady).
Proof. apply store_okb_ok. vm_compute. reflexivity. Qed.

(** ** Sending a message *)

(** C6.  [addUserMessage] on an active chat stores exactly two new messages,
    in this order: the user message with the given content and the assistant
    message, both under the active chat's id (the assistant message is
    created empty; its content is then the text of the parts received, so it
    is empty as long as no part has arrived).  Without an active chat it
    stores nothing, warns and returns.  This holds however the stream
    ends. *)
Theorem addUserMessage_persists_two_messages
    (content : string) (parts : list ChatPart) (ending : StreamEnd)
    (s : State) :
  store_ok (db s) ->
  let response := mkStream (List.map Part parts) ending in
  let s' := exec (addUserMessage content response) s in
  outcome (addUserMessage content response) s = Returned tt /\
  chatRows (db s') = chatRows (db s) /\
  match activeChatValue s with
  | Some chat =>
      messageRows (db s') =
      messageRows (db s) ++
      [mkMessage (messageNext (db s)) (chat_id chat) user content None
                 (clock s (ticks s));
       mkMessage (N.succ (messageNext (db s))) (chat_id chat) assistant
                 (textOf parts) None (clock s (S (ticks s)))]
  | None =>
      db s' = db s /\
      console s' = console s ++ [ConsoleWarn "There was no active chat."]
  end.
Proof.
  intros Hok response s'. subst response s'. unfold exec, outcome.
  unfold activeChatValue. destruct (activeChat s) as [a|] eqn:Ha.
  - destruct (addUserMessage_parts content parts ending s a Ha Hok)
      as (s1 & -> & F & _ & Hrows & _).
    simpl. rewrite settle_db. split; [reflexivity|]. split; [|exact Hrows].
    now rewrite (frame_chatRows _ _ F).
  - rewrite (addUserMessage_idle content _ s Ha). simpl. now repeat split.
Qed.

Lemma addUserMessage_persists_two_messages_witness :
  store_ok (db sampleReady) /\
  messageRows
    (db (exec (addUserMessage "hi" (mkStream (List.map Part [Hel; lo])
                                              EndOfStream)) sampleReady)) =
  messageRows (db sampleReady) ++
  [mkMessage 2 1 user "hi" None 2; mkMessage 3 1 assistant "Hello" None 3].
Proof.
  split; [exact sampleReady_ok|].
  exact (proj2 (proj2 (addUserMessage_persists_two_messages
                         "hi" [Hel; lo] EndOfStream sampleReady
                         sampleReady_ok))).
Defined.

(** C8.  An uninterrupted stream of parts leaves the assistant message, in
    the store and in memory, with the concatenation of the parts' texts in
    arrival order.  The content is stored after each part: a stream that
    breaks after its first [k] parts has stored the text of exactly these,
    and the message is then still in flight.  The in-flight entry is
    cleared once, when the whole stream has been consumed. *)
Theorem addUserMessage_streams_concatenation
    (content : string) (parts : list ChatPart) (s : State) (a : loc) :
  activeChat s = Some a ->
  store_ok (db s) ->
  let cid := chat_id (chatAt s a) in
  let userMessage :=
    mkMessage (messageNext (db s)) cid user content None (clock s (ticks s)) in
  let aiMessage text :=
    mkMessage (N.succ (messageNext (db s))) cid assistant text None
              (clock s (S (ticks s))) in
  let aiObject := S (length (messageHeap s)) in
  let finished :=
    exec (addUserMessage content (mkStream (List.map Part parts) EndOfStream))
         s in
  let broken k e :=
    exec (addUserMessage content
            (mkStream (List.map Part (take k parts)) (StreamThrows e))) s in
  (messageRows (db finished) =
     messageRows (db s) ++ [userMessage; aiMessage (textOf parts)] /\
   messageAt finished aiObject = aiMessage (textOf parts) /\
   last (messageList finished) = Some (aiMessage (textOf parts)) /\
   ongoingAiMessages finished !! cid = None) /\
  (forall k e, isAbortError e = false ->
     messageRows (db (broken k e)) =
       messageRows (db s) ++ [userMessage; aiMessage (textOf (take k parts))] /\
     messageAt (broken k e) aiObject = aiMessage (textOf (take k parts)) /\
     ongoingAiMessages (broken k e) !! cid = Some aiObject).
Proof.
  intros Ha Hok cid userMessage aiMessage aiObject finished broken.
  subst finished broken. unfold exec. split.
  - destruct (addUserMessage_parts content parts EndOfStream s a Ha Hok)
      as (s1 & -> & F & Hobj & Hrows & Hlast).
    simpl. repeat split; try assumption. apply lookup_delete_eq.
  - intros k e He.
    destruct (addUserMessage_parts content (take k parts) (StreamThrows e)
                                   s a Ha Hok)
      as (s1 & -> & F & Hobj & Hrows & Hlast).
    simpl. rewrite He. simpl. repeat split; try assumption.
    rewrite (frame_ongoing _ _ F). simpl.
    rewrite length_app. simpl. rewrite Nat.add_1_r. apply lookup_insert_eq.
Qed.

Lemma addUserMessage_streams_concatenation_witness :
  activeChat sampleReady = Some 0%nat /\
  store_ok (db sampleReady) /\
  last (messageList
          (exec (addUserMessage "hi" (mkStream (List.map Part [Hel; lo])
                                               EndOfStream)) sampleReady)) =
  Some (mkMessage 3 1 assistant "Hello" None 3).
Proof.
  split; [reflexivity|]. split; [exact sampleReady_ok|].
  exact (proj1 (proj2 (proj2 (proj1
    (addUserMessage_streams_concatenation
       "hi" [Hel; lo] sampleReady 0%nat eq_refl sampleReady_ok))))).
Defined.

(** ** Aborting a stream *)

Lemma consume_app cid items1 items2 s s1 :
  consume cid items1 s = (Returned tt, s1) ->
  consume cid (items1 ++ items2) s = consume cid items2 s1.
Proof.
  revert s. induction items1 as [|i items1 IH]; intros s H; simpl in *.
  - unfold ret in H. congruence.
  - destruct i as [p|c].
    + destruct (receivePart cid p s) as [[[]|e] s2] eqn:E.
      * rewrite (bind_returned _ _ _ _ _ E).
        rewrite (bind_returned _ _ _ _ _ E) in H. now apply IH.
      * rewrite (bind_threw _ _ _ _ _ E) in H. discriminate.
    + destruct (detached_returns (run_command c) s) as [s2 H2].
      rewrite (bind_returned _ _ _ _ _ H2).
      rewrite (bind_returned _ _ _ _ _ H2) in H. now apply IH.
Qed.

(** Parts that arrive for a chat without an in-flight message are ignored. *)
Lemma consume_idle cid parts s :
  ongoingAiMessages s !! cid = None ->
  consume cid (List.map Part parts) s = (Returned tt, s).
Proof.
  intros H. induction parts as [|p parts IH]; simpl; [reflexivity|].
  now rewrite (bind_returned _ _ _ _ _ (receivePart_idle cid p s H)).
Qed.

Lemma abort_eq s : detached (run_command Abort) s = (Returned tt, afterAbort s).
Proof. reflexivity. Qed.

(** C5.  A stream started by [addUserMessage] is aborted after the parts
    [pre] have been consumed.  Either the iterator just throws an
    [AbortError], and then the [catch] block of the operation removes the
    chat's in-flight entry (the entries of other chats stay); or [abort()]
    is called first, which clears all entries, and the iterator throws
    afterwards, possibly after handing over parts [late] that it had
    already buffered.  Both times the operation returns normally and logs
    nothing, the chat has no in-flight entry left, and the assistant message
    holds, in the store and in memory, exactly the concatenation of the
    texts of [pre]: nothing is rolled back, duplicated or lost. *)
Theorem abort_keeps_received_content
    (content : string) (pre late : list ChatPart) (s : State) (a : loc) :
  activeChat s = Some a ->
  store_ok (db s) ->
  let cid := chat_id (chatAt s a) in
  let cut := mkStream (List.map Part pre) (StreamThrows AbortError) in
  let aborted :=
    mkStream (List.map Part pre ++ Meanwhile Abort :: List.map Part late)
             (StreamThrows AbortError) in
  let userMessage :=
    mkMessage (messageNext (db s)) cid user content None (clock s (ticks s)) in
  let aiMessage :=
    mkMessage (N.succ (messageNext (db s))) cid assistant (textOf pre) None
              (clock s (S (ticks s))) in
  let kept response :=
    let s' := exec (addUserMessage content response) s in
    outcome (addUserMessage content response) s = Returned tt /\
    console s' = console s /\
    unhandled s' = unhandled s /\
    ongoingAiMessages s' !! cid = None /\
    messageRows (db s') = messageRows (db s) ++ [userMessage; aiMessage] /\
    messageAt s' (S (length (messageHeap s))) = aiMessage /\
    last (messageList s') = Some aiMessage in
  (kept cut /\
   ongoingAiMessages (exec (addUserMessage content cut) s) =
     delete cid (ongoingAiMessages s)) /\
  (kept aborted /\
   ongoingAiMessages (exec (addUserMessage content aborted) s) = ∅).
Proof.
  intros Ha Hok cid cut aborted userMessage aiMessage kept.
  subst kept cut aborted. cbv beta zeta. unfold exec, outcome. split.
  - destruct (addUserMessage_parts content pre (StreamThrows AbortError)
                                   s a Ha Hok)
      as (s1 & -> & F & Hobj & Hrows & Hlast).
    assert (Hgone : delete cid (ongoingAiMessages s1) =
                    delete cid (ongoingAiMessages s)).
    { rewrite (frame_ongoing _ _ F). simpl. apply delete_insert_eq. }
    simpl. rewrite (frame_console _ _ F), (frame_unhandled _ _ F).
    repeat split; try assumption. apply lookup_delete_eq.
  - destruct (exchange_parts content pre s a Ha Hok)
      as (s1 & Hpre & F & Hobj & Hrows & Hlast).
    assert (Hall : consume cid
                     (List.map Part pre ++ Meanwhile Abort :: List.map Part late)
                     (afterRequest cid (afterUserMessage cid content s)) =
                   (Returned tt, afterAbort s1)).
    { rewrite (consume_app cid _ _ _ _ Hpre).
      change (consume cid (Meanwhile Abort :: List.map Part late) s1)
        with (bind (detached (run_command Abort))
                   (fun _ => consume cid (List.map Part late)) s1).
      rewrite (bind_returned _ _ _ _ _ (abort_eq s1)).
      now apply consume_idle. }
    rewrite (addUserMessage_eq content _ (StreamThrows AbortError) s a _ Ha Hall).
    simpl. rewrite (frame_console _ _ F), (frame_unhandled _ _ F).
    repeat split; try assumption.
Qed.

Lemma abort_keeps_received_content_witness :
  activeChat sampleReady = Some 0%nat /\
  store_ok (db sampleReady) /\
  (let s' :=
     exec (addUserMessage "hi"
             (mkStream (List.map Part [Hel]) (StreamThrows AbortError)))
          sampleReady in
   ongoingAiMessages s' =
     delete (chat_id (chatAt sampleReady 0%nat))
            (ongoingAiMessages sampleReady) /\
   ongoingAiMessages s' !! chat_id (chatAt sampleReady 0%nat) = None /\
   messageRows (db s') =
     messageRows (db sampleReady) ++
     [mkMessage 2 1 user "hi" None 2; mkMessage 3 1 assistant "Hel" None 3]) /\
  (let s' :=
     exec (addUserMessage "hi"
             (mkStream (List.map Part [Hel] ++
                        Meanwhile Abort :: List.map Part [lo])
                       (StreamThrows AbortError))) sampleReady in
   ongoingAiMessages s' = ∅ /\
   messageRows (db s') =
     messageRows (db sampleReady) ++
     [mkMessage 2 1 user "hi" None 2; mkMessage 3 1 assistant "Hel" None 3]).
Proof.
  split; [reflexivity|]. split; [exact sampleReady_ok|].
  pose proof (abort_keeps_received_content
                "hi" [Hel] [lo] sampleReady 0%nat eq_refl sampleReady_ok)
    as (((_ & _ & _ & Hnone & Hrows & _) & Hcut)
        & ((_ & _ & _ & _ & Hrows' & _) & Hmap)).
  split.
  - split; [exact Hcut|]. split; [exact Hnone|exact Hrows].
  - split; [exact Hmap|exact Hrows'].
Defined.

(** Without the [catch] block the entry would stay: a stream that breaks
    with any other error leaves the chat in flight. *)
Example stream_error_leaves_entry :
  let s' :=
    exec (addUserMessage "hi"
            (mkStream (List.map Part [Hel]) (StreamThrows TypeError)))
         sampleReady in
  ongoingAiMessages sampleReady !! 1%N = None /\
  ongoingAiMessages s' !! 1%N = Some 2%nat.
Proof. vm_compute. split; reflexivity. Qed.

(** ** Importing a bundle *)

(** The callback of a bundle that has a date or a first message runs to its
    end. *)
Lemma importChatData_returns chatData s :
  exp_createdAt chatData <> None \/ exp_messages chatData <> [] ->
  exists s', importChatData chatData s = (Returned tt, s').
Proof.
  intros H. unfold importChatData.
  set (rest := fun createdAt : Date => _).
  assert (Hrest : forall d s0, exists s', rest d s0 = (Returned tt, s')).
  { intros d s0. subst rest. task_cbv.
    apply forEach_async_returns. }
  destruct (exp_createdAt chatData) as [d|].
  - apply Hrest.
  - destruct (exp_messages chatData) as [|m ms].
    + destruct H as [H|H]; now destruct H.
    + apply Hrest.
Qed.

(** ** Regenerating a response *)

Lemma regenerateResponse_eq items ending s a s' :
  activeChat s = Some a ->
  consume (chat_id (chatAt s a)) items
    (afterRequest (chat_id (chatAt s a)) (afterTrim s)) = (Returned tt, s') ->
  regenerateResponse (mkStream items ending) s =
  (Returned tt,
   settle (chat_id (chatAt s a)) "Failed to regenerate response:" ending s').
Proof.
  intros Ha H.
  pose proof (generate_settles _ "Failed to regenerate response:" _ ending
                               _ _ H) as E.
  unfold regenerateResponse. unfold bind at 1, get at 1. rewrite Ha.
  unfold afterTrim in E.
  destruct (last (messages s)) as [l|].
  - destruct (decide (msg_role (messageAt s l) = assistant)).
    + destruct (N.eqb (msg_id (messageAt s l)) 0); exact E.
    + exact E.
  - exact E.
Qed.

(** The request of an uninterrupted [generate], and what the stream leaves
    of the rest of the state. *)
Lemma generate_request cid parts s :
  exists s',
    consume cid (List.map Part parts) (afterRequest cid s) = (Returned tt, s') /\
    streamFrame (afterRequest cid s) s'.
Proof.
  assert (Hin : ongoingAiMessages (afterRequest cid s) !! cid =
                Some (length (messageHeap s))) by apply lookup_insert_eq.
  assert (Hl : (length (messageHeap s) <
                length (messageHeap (afterRequest cid s)))%nat).
  { simpl. rewrite length_app. simpl. lia. }
  destruct (consume_parts cid _ parts _ Hin Hl) as (s' & Hrun & F & _).
  now exists s'.
Qed.

(** ** The history window *)

Lemma js_slice_map {A B} (f : A -> B) (start : Z) (l : list A) :
  List.map f (js_slice start l) = js_slice start (List.map f l).
Proof.
  unfold js_slice. rewrite List.length_map. symmetry. apply List.skipn_map.
Qed.

Lemma js_slice_window {A} (n : Z) (l : list A) :
  0 < n -> js_slice (- n) l = lastN (Z.to_nat n) l.
Proof.
  intros Hn. unfold js_slice, lastN.
  destruct (Z.ltb_spec (- n) 0) as [_|]; [|lia]. f_equal. lia.
Qed.

(** [slice(-0)] is [slice(0)]: the whole list. *)
Lemma js_slice_zero {A} (l : list A) : js_slice (- 0) l = l.
Proof. unfold js_slice. simpl. now rewrite Z.min_l by lia. Qed.

Lemma afterRequest_backend cid s :
  allocated s ->
  backend (afterRequest cid s) =
  backend s ++
  [OllamaChat (currentModel s)
     (historyValues s
        (messageList s ++
         [mkMessage (messageNext (db s)) cid assistant "" None
                    (clock s (ticks s))]))].
Proof.
  intros Hal. unfold afterRequest. simpl. do 3 f_equal.
  unfold historyValues, promptList, systemPromptValue, chatHistory, messageAt.
  simpl.
  assert (Hw : forall w,
    w = js_slice (- default 0 (historyMessageLength s))
                 (messages s ++ [length (messageHeap s)]) ->
    List.map (fun l => (messageHeap s ++
        [mkMessage (messageNext (db s)) cid assistant "" None
                   (clock s (ticks s))]) !!! l) w =
    js_slice (- default 0 (historyMessageLength s))
      (messageList s ++
       [mkMessage (messageNext (db s)) cid assistant "" None
                  (clock s (ticks s))])).
  { intros w ->. rewrite js_slice_map, List.map_app. simpl.
    rewrite lookup_total_app_r by lia. rewrite Nat.sub_diag. simpl.
    now rewrite (lookup_total_old _ _ _ (alloc_messages s Hal)). }
  destruct (systemPrompt s) as [p|] eqn:Hp; simpl.
  - f_equal; [|now apply Hw].
    apply lookup_total_app_l. now apply (alloc_systemPrompt s Hal).
  - now apply Hw.
Qed.

Lemma afterUserMessage_allocated cid content s :
  allocated s -> allocated (afterUserMessage cid content s).
Proof.
  intros [Hc Ha Hm Hp Ho]. constructor; simpl; try assumption.
  - rewrite length_app. simpl. apply Forall_app. split.
    + apply List.Forall_forall. intros x Hx.
      pose proof (proj1 (List.Forall_forall _ _) Hm x Hx). simpl in *. lia.
    + constructor; [lia|constructor].
  - intros p E. rewrite length_app. specialize (Hp p E). simpl. lia.
  - intros c l E. rewrite length_app. specialize (Ho c l E). simpl. lia.
Qed.

Lemma afterUserMessage_messageList cid content s :
  allocated s ->
  messageList (afterUserMessage cid content s) =
  messageList s ++
  [mkMessage (messageNext (db s)) cid user content None (clock s (ticks s))].
Proof.
  intros Hal. unfold messageList, messageAt. simpl. rewrite List.map_app. simpl.
  rewrite lookup_total_app_r by lia. rewrite Nat.sub_diag. simpl.
  now rewrite (lookup_total_old _ _ _ (alloc_messages s Hal)).
Qed.

Lemma afterUserMessage_prompt cid content s :
  allocated s ->
  promptList (afterUserMessage cid content s) = promptList s.
Proof.
  intros Hal. unfold promptList, systemPromptValue, messageAt. simpl.
  destruct (systemPrompt s) as [p|] eqn:Hp; [|reflexivity].
  f_equal. apply lookup_total_app_l. now apply (alloc_systemPrompt s Hal).
Qed.

Lemma last_map {A B} (f : A -> B) (l : list A) :
  last (List.map f l) = option_map f (last l).
Proof.
  induction l as [|x [|y l] IH]; try reflexivity.
  exact IH.
Qed.

Lemma removelast_map {A B} (f : A -> B) (l : list A) :
  removelast (List.map f l) = List.map f (removelast l).
Proof.
  induction l as [|x [|y l] IH]; try reflexivity.
  change (f x :: removelast (List.map f (y :: l)) =
          f x :: List.map f (removelast (y :: l))).
  now rewrite IH.
Qed.

Lemma afterTrim_messageList s : messageList (afterTrim s) = trimmed (messageList s).
Proof.
  unfold afterTrim, trimmed, messageList. rewrite last_map.
  destruct (last (messages s)) as [l|]; simpl; [|reflexivity].
  destruct (decide (msg_role (messageAt s l) = assistant)); [|reflexivity].
  rewrite removelast_map.
  destruct (N.eqb (msg_id (messageAt s l)) 0); reflexivity.
Qed.

Lemma Forall_removelast {A} (P : A -> Prop) (l : list A) :
  Forall P l -> Forall P (removelast l).
Proof.
  induction 1 as [|x l Hx Hl IH]; [constructor|].
  destruct l as [|y l]; [constructor|].
  change (Forall P (x :: removelast (y :: l))). now constructor.
Qed.

Lemma afterTrim_allocated s : allocated s -> allocated (afterTrim s).
Proof.
  intros Hal. unfold afterTrim.
  destruct (last (messages s)) as [l|]; [|exact Hal].
  destruct (decide (msg_role (messageAt s l) = assistant)); [|exact Hal].
  destruct Hal as [Hc Ha Hm Hp Ho].
  destruct (N.eqb (msg_id (messageAt s l)) 0);
    constructor; simpl; try assumption; now apply Forall_removelast.
Qed.

Lemma afterTrim_frame s :
  promptList (afterTrim s) = promptList s /\
  backend (afterTrim s) = backend s /\
  currentModel (afterTrim s) = currentModel s /\
  historyMessageLength (afterTrim s) = historyMessageLength s /\
  clock (afterTrim s) = clock s /\ ticks (afterTrim s) = ticks s /\
  messageNext (db (afterTrim s)) = messageNext (db s).
Proof.
  unfold afterTrim.
  destruct (last (messages s)) as [l|]; [|now repeat split].
  destruct (decide (msg_role (messageAt s l) = assistant)); [|now repeat split].
  destruct (N.eqb (msg_id (messageAt s l)) 0); now repeat split.
Qed.

(** C1, as amended.  With a history length [n] of at least one,
    [addUserMessage] and [regenerateResponse] send the last [n] messages of
    the visible message list (all of them when there are fewer), which at
    that moment ends with the new, still empty assistant message; in front
    of them goes the system message that the engine captured last, whichever
    chat it was captured for, when there is one. *)
Theorem history_is_bounded_window (s : State) (a : loc) (n : Z) :
  allocated s ->
  activeChat s = Some a ->
  historyMessageLength s = Some n ->
  0 < n ->
  let cid := chat_id (chatAt s a) in
  let window shown := promptList s ++ lastN (Z.to_nat n) shown in
  (forall content parts ending,
     backend (exec (addUserMessage content
                      (mkStream (List.map Part parts) ending)) s) =
     backend s ++
     [OllamaChat (currentModel s)
        (window
           (messageList s ++
            [mkMessage (messageNext (db s)) cid user content None
                       (clock s (ticks s));
             mkMessage (N.succ (messageNext (db s))) cid assistant "" None
                       (clock s (S (ticks s)))]))]) /\
  (forall parts ending,
     backend (exec (regenerateResponse
                      (mkStream (List.map Part parts) ending)) s) =
     backend s ++
     [OllamaChat (currentModel s)
        (window
           (trimmed (messageList s) ++
            [mkMessage (messageNext (db s)) cid assistant "" None
                       (clock s (ticks s))]))]).
Proof.
  intros Hal Ha Hn Hpos cid window. split.
  - intros content parts ending. unfold exec.
    destruct (generate_request cid parts (afterUserMessage cid content s))
      as (s' & Hrun & F).
    rewrite (addUserMessage_eq content _ ending s a s' Ha Hrun). simpl.
    rewrite settle_backend, (frame_backend _ _ F).
    rewrite (afterRequest_backend cid _
               (afterUserMessage_allocated cid content s Hal)).
    unfold historyValues.
    rewrite afterUserMessage_prompt, afterUserMessage_messageList by exact Hal.
    simpl. rewrite Hn. simpl. rewrite js_slice_window by exact Hpos.
    now rewrite <- app_assoc.
  - intros parts ending. unfold exec.
    destruct (generate_request cid parts (afterTrim s)) as (s' & Hrun & F).
    rewrite (regenerateResponse_eq _ ending s a s' Ha Hrun). simpl.
    rewrite settle_backend, (frame_backend _ _ F).
    rewrite (afterRequest_backend cid _ (afterTrim_allocated s Hal)).
    unfold historyValues. rewrite afterTrim_messageList.
    destruct (afterTrim_frame s) as (-> & -> & -> & -> & -> & -> & ->).
    rewrite Hn. simpl. now rewrite js_slice_window by exact Hpos.
Qed.

Lemma sampleReady_allocated : allocated sampleReady.
Proof.
  constructor; simpl.
  - repeat constructor.
  - intros a [= <-]. lia.
  - repeat constructor.
  - intros p [= <-]. lia.
  - intros cid l H. rewrite lookup_empty in H. discriminate.
Qed.

Lemma history_is_bounded_window_witness :
  allocated sampleReady /\
  activeChat sampleReady = Some 0%nat /\
  historyMessageLength sampleReady = Some 2 /\
  0 < 2 /\
  backend (exec (addUserMessage "hi" (mkStream (List.map Part [Hel; lo])
                                               EndOfStream)) sampleReady) =
  [OllamaChat "llama3"
     [mkMessage 1 1 system "Be brief." None 1;
      mkMessage 2 1 user "hi" None 2;
      mkMessage 3 1 assistant "" None 3]].
Proof.
  split; [exact sampleReady_allocated|].
  split; [reflexivity|]. split; [reflexivity|]. split; [lia|].
  exact (proj1 (history_is_bounded_window sampleReady 0%nat 2
                  sampleReady_allocated eq_refl eq_refl eq_refl)
           "hi" [Hel; lo] EndOfStream).
Defined.

(** C1 fails as stated.  With a history length of zero the whole message
    list is sent, not an empty window; and in a chat that has no system
    message of its own the request still starts with the system message of
    another chat. *)
Lemma history_window_counterexample :
  (let s := sampleNoHistory in
   let s' := exec (addUserMessage "hi" (mkStream [] EndOfStream)) s in
   let shown := [mkMessage 1 1 user "hi" None 1;
                 mkMessage 2 1 assistant "" None 2] in
   historyMessageLength s = Some 0 /\
   sentHistory s' = Some shown /\
   spec_chatHistory s shown = [] /\
   sentHistory s' <> Some (spec_chatHistory s shown)) /\
  (let s := sampleSecondChat in
   let s' := exec (addUserMessage "hi" (mkStream [] EndOfStream)) s in
   let shown := [mkMessage 2 2 user "hi" None 3;
                 mkMessage 3 2 assistant "" None 4] in
   option_map chat_id (activeChatValue s) = Some 2%N /\
   messageRows (db s) = [mkMessage 1 1 system "Be brief." None 1] /\
   sentHistory s' = Some (mkMessage 1 1 system "Be brief." None 1 :: shown) /\
   spec_chatHistory s shown = shown /\
   sentHistory s' <> Some (spec_chatHistory s shown)).
Proof. vm_compute. repeat split; discriminate. Qed.

(** ** Regenerating after a user message *)

Lemma afterTrim_user s l :
  last (messages s) = Some l ->
  msg_role (messageAt s l) = user ->
  afterTrim s = s.
Proof.
  intros Hl Hr. unfold afterTrim. rewrite Hl.
  destruct (decide (msg_role (messageAt s l) = assistant)) as [E|_];
    [|reflexivity].
  rewrite Hr in E. discriminate.
Qed.

(** C2, as amended.  When the last visible message of the active chat is a
    user message, [regenerateResponse] deletes nothing, and then goes on
    like the second half of [addUserMessage]: it stores a new assistant
    message for the chat (created empty, then filled by the stream), shows
    it, and sends one request to the backend. *)
Theorem regenerateResponse_after_user_message
    (parts : list ChatPart) (ending : StreamEnd) (s : State) (a l : loc) :
  activeChat s = Some a ->
  last (messages s) = Some l ->
  msg_role (messageAt s l) = user ->
  store_ok (db s) ->
  let cid := chat_id (chatAt s a) in
  let aiMessage :=
    mkMessage (messageNext (db s)) cid assistant (textOf parts) None
              (clock s (ticks s)) in
  let s' :=
    exec (regenerateResponse (mkStream (List.map Part parts) ending)) s in
  chatRows (db s') = chatRows (db s) /\
  messageRows (db s') = messageRows (db s) ++ [aiMessage] /\
  last (messageList s') = Some aiMessage /\
  exists history,
    backend s' = backend s ++ [OllamaChat (currentModel s) history].
Proof.
  intros Ha Hl Hr Hok cid aiMessage s'. subst s'. unfold exec.
  pose proof (afterTrim_user s l Hl Hr) as Htrim.
  destruct (generate_parts cid parts s a Ha eq_refl (store_ok_fresh _ Hok))
    as (s1 & Hrun & F & Hobj & Hrows & Hlast).
  rewrite <- Htrim in Hrun at 1.
  rewrite (regenerateResponse_eq _ ending s a s1 Ha Hrun). simpl.
  rewrite settle_db, settle_messageList, settle_backend.
  rewrite (frame_chatRows _ _ F), (frame_backend _ _ F).
  repeat split; try assumption. eexists. reflexivity.
Qed.

Lemma sampleAsked_ok : store_ok (db sampleAsked).
Proof. apply store_okb_ok. vm_compute. reflexivity. Qed.

Lemma regenerateResponse_after_user_message_witness :
  activeChat sampleAsked = Some 2%nat /\
  last (messages sampleAsked) = Some 1%nat /\
  msg_role (messageAt sampleAsked 1%nat) = user /\
  store_ok (db sampleAsked) /\
  messageRows
    (db (exec (regenerateResponse (mkStream (List.map Part [Hel; lo])
                                            EndOfStream)) sampleAsked)) =
  messageRows (db sampleAsked) ++ [mkMessage 3 2 assistant "Hello" None 2].
Proof.
  split; [reflexivity|]. split; [reflexivity|]. split; [reflexivity|].
  split; [exact sampleAsked_ok|].
  exact (proj1 (proj2 (regenerateResponse_after_user_message
                         [Hel; lo] EndOfStream sampleAsked 2%nat 1%nat
                         eq_refl eq_refl eq_refl sampleAsked_ok))).
Defined.

(** C2 fails as stated: on a chat whose last message is a user message,
    [regenerateResponse] is not a no-op.  Nothing is deleted, but a new
    assistant message is stored and a request is sent to the backend. *)
Lemma regenerateResponse_noop_counterexample :
  let s := sampleAsked in
  let s' := exec (regenerateResponse (mkStream [] EndOfStream)) s in
  option_map msg_role (last (messageList s)) = Some user /\
  messageRows (db s) =
    [mkMessage 1 1 system "Be brief." None 1;
     mkMessage 2 2 user "why?" None 6] /\
  messageRows (db s') =
    [mkMessage 1 1 system "Be brief." None 1;
     mkMessage 2 2 user "why?" None 6;
     mkMessage 3 2 assistant "" None 2] /\
  backend s = [] /\
  backend s' =
    [OllamaChat "llama3"
       [mkMessage 1 1 system "Be brief." None 1;
        mkMessage 2 2 user "why?" None 6;
        mkMessage 3 2 assistant "" None 2]] /\
  messageRows (db s') <> messageRows (db s) /\
  messageList s' <> messageList s /\
  backend s' <> backend s.
Proof. vm_compute. repeat split; discriminate. Qed.

(** ** Renaming the active chat *)

(** C9.  [renameChat] on an active chat sets the [name] of the active chat
    object and of the store row with the chat's id, and nothing else of
    them: [id], [model] and [createdAt] are as before ([with_chat_name]
    keeps them).  No other chat row, no message row, no message object and
    no entry of the visible message list changes.  The chat list is then
    reloaded from the store. *)
Theorem renameChat_changes_name_only (newName : string) (s : State) (a : loc) :
  activeChat s = Some a ->
  (a < length (chatHeap s))%nat ->
  let chat := chatAt s a in
  let s' := exec (renameChat newName) s in
  outcome (renameChat newName) s = Returned tt /\
  activeChatValue s' = Some (with_chat_name newName chat) /\
  chatRows (db s') =
    List.map (fun row => if N.eqb (chat_id row) (chat_id chat)
                         then with_chat_name newName row else row)
             (chatRows (db s)) /\
  chatNext (db s') = chatNext (db s) /\
  messageRows (db s') = messageRows (db s) /\
  messageNext (db s') = messageNext (db s) /\
  messageHeap s' = messageHeap s /\
  messages s' = messages s /\
  chatList s' = chatRows (db s').
Proof.
  intros Ha Hl chat s'. subst s' chat.
  unfold renameChat, activeChatValue, chatList, chatAt.
  destruct s; task_cbv_in Ha; task_cbv_in Hl; subst. task_cbv.
  rewrite newChatObjects_eq. task_cbv.
  repeat split.
  - f_equal. rewrite lookup_total_app_l by now rewrite length_alter.
    now apply list_lookup_total_alter_eq.
  - apply lookup_total_fresh.
Qed.

Lemma renameChat_changes_name_only_witness :
  activeChat sampleReady = Some 0%nat /\
  (0 < length (chatHeap sampleReady))%nat /\
  activeChatValue (exec (renameChat "Plans") sampleReady) =
    Some (mkChat 1 "Plans" "llama3" 0) /\
  chatRows (db (exec (renameChat "Plans") sampleReady)) =
    [mkChat 1 "Plans" "llama3" 0].
Proof.
  split; [reflexivity|]. split; [simpl; lia|].
  pose proof (renameChat_changes_name_only "Plans" sampleReady 0%nat eq_refl
                ltac:(simpl; lia)) as (_ & Hactive & Hrows & _).
  split; [exact Hactive|exact Hrows].
Defined.

(** Without an active chat [renameChat] does nothing. *)
Lemma renameChat_idle newName s :
  activeChat s = None -> renameChat newName s = (Returned tt, s).
Proof. intros Ha. unfold renameChat, bind, get. now rewrite Ha. Qed.

(** ** Export and import *)

Lemma import_messages_eq chatId msgs s :
  forEach_async (importMessage chatId) msgs s =
  (Returned tt, set_db (storeImported chatId msgs (db s)) s).
Proof.
  revert s. induction msgs as [|m msgs IH]; intros s.
  - simpl. now destruct s.
  - simpl forEach_async.
    match goal with
    | |- bind (detached ?t) _ s = _ =>
        assert (E : detached t s =
                    (Returned tt,
                     set_db (snd (store_addMessage (importedMessage chatId m)
                                                   (db s))) s))
          by reflexivity
    end.
    rewrite (bind_returned _ _ _ _ _ E), IH. reflexivity.
Qed.

Lemma importChatData_eq chatData d s :
  exp_createdAt chatData = Some d ->
  importChatData chatData s = (Returned tt, afterImport d chatData s).
Proof.
  intros Hd. unfold importChatData, afterImport. rewrite Hd.
  destruct s. task_cbv. rewrite import_messages_eq. reflexivity.
Qed.

Lemma importChats_db data s :
  Forall (fun b => exp_createdAt b <> None) data ->
  exists s',
    importChats data s = (Returned tt, s') /\
    db s' = List.fold_left (fun st b => storeBundle (dated b) b st) data (db s) /\
    unhandled s' = unhandled s.
Proof.
  intros Hall. revert s.
  induction Hall as [|b data Hb _ IH]; intros s.
  - exists s. now repeat split.
  - unfold importChats in *. simpl forEach_async.
    destruct (exp_createdAt b) as [d|] eqn:Hd; [|now destruct Hb].
    assert (E : detached (importChatData b) s =
                (Returned tt, afterImport d b s)).
    { unfold detached.
      now rewrite (try_catch_returned _ _ _ _ _ (importChatData_eq b d s Hd)). }
    destruct (IH (afterImport d b s)) as (s' & Hrun & Hdb & Hun).
    exists s'. rewrite (bind_returned _ _ _ _ _ E).
    split; [exact Hrun|]. split.
    + assert (Hdt : dated b = d) by (unfold dated; now rewrite Hd).
      rewrite Hdb. cbn [List.fold_left]. rewrite Hdt. reflexivity.
    + now rewrite Hun.
Qed.

Lemma storeImported_frame chatId msgs st :
  chatRows (storeImported chatId msgs st) = chatRows st /\
  chatNext (storeImported chatId msgs st) = chatNext st.
Proof.
  revert st. induction msgs as [|m msgs IH]; intros st; [now split|].
  cbn [storeImported]. destruct (IH (snd (store_addMessage (importedMessage chatId m) st)))
    as [-> ->]. now split.
Qed.

Lemma storeImported_rows chatId msgs st :
  exists rows,
    messageRows (storeImported chatId msgs st) = messageRows st ++ rows /\
    Forall (fun m => msg_chatId m = chatId) rows /\
    List.map role_content rows = List.map role_content msgs.
Proof.
  revert st. induction msgs as [|m msgs IH]; intros st.
  - exists []. simpl. rewrite app_nil_r. now repeat split.
  - cbn [storeImported].
    destruct (IH (snd (store_addMessage (importedMessage chatId m) st)))
      as (rows & Hrows & Hall & Hmap).
    exists (with_msg_id (messageNext st) (importedMessage chatId m) :: rows).
    split; [|split].
    + rewrite Hrows. simpl. now rewrite <- app_assoc.
    + now constructor.
    + simpl. now rewrite Hmap.
Qed.

Lemma filter_none {A} (f : A -> bool) (l : list A) :
  Forall (fun x => f x = false) l -> List.filter f l = [].
Proof.
  induction 1 as [|x l Hx _ IH]; simpl; [reflexivity|]. now rewrite Hx.
Qed.

Lemma filter_all {A} (f : A -> bool) (l : list A) :
  Forall (fun x => f x = true) l -> List.filter f l = l.
Proof.
  induction 1 as [|x l Hx _ IH]; simpl; [reflexivity|]. now rewrite Hx, IH.
Qed.

(** Importing one bundle into a store whose messages refer to chat keys
    already handed out: the new chat gets exactly the bundle's messages, and
    the messages of older chats are as before. *)
Lemma storeBundle_spec d b st :
  (forall m, In m (messageRows st) -> (msg_chatId m < chatNext st)%N) ->
  chatRows (storeBundle d b st) =
    chatRows st ++ [mkChat (chatNext st) (exp_name b) (exp_model b) d] /\
  chatNext (storeBundle d b st) = N.succ (chatNext st) /\
  (forall m, In m (messageRows (storeBundle d b st)) ->
             (msg_chatId m < N.succ (chatNext st))%N) /\
  List.map role_content (store_getMessages (chatNext st) (storeBundle d b st)) =
    List.map role_content (exp_messages b) /\
  (forall cid, (cid < chatNext st)%N ->
     store_getMessages cid (storeBundle d b st) = store_getMessages cid st).
Proof.
  intros Hold. unfold storeBundle.
  set (st1 := snd (store_addChat
                     (mkChat 0 (exp_name b) (exp_model b) d) st)).
  destruct (storeImported_frame (chatNext st) (exp_messages b) st1) as [Hc Hn].
  destruct (storeImported_rows (chatNext st) (exp_messages b) st1)
    as (rows & Hrows & Hall & Hmap).
  split; [now rewrite Hc|]. split; [now rewrite Hn|].
  split; [|split].
  - intros m Hm. rewrite Hrows in Hm. apply in_app_or in Hm as [Hm|Hm].
    + specialize (Hold m Hm). simpl in Hm. lia.
    + rewrite (proj1 (List.Forall_forall _ _) Hall m Hm). lia.
  - unfold store_getMessages. rewrite Hrows, List.filter_app.
    rewrite filter_none, filter_all; [exact Hmap| |].
    + apply List.Forall_forall. intros m Hm.
      rewrite (proj1 (List.Forall_forall _ _) Hall m Hm). apply N.eqb_refl.
    + apply List.Forall_forall. intros m Hm. apply N.eqb_neq.
      specialize (Hold m Hm). lia.
  - intros cid Hcid. unfold store_getMessages.
    rewrite Hrows, List.filter_app, (filter_none _ rows).
    + now rewrite app_nil_r.
    + apply List.Forall_forall. intros m Hm. apply N.eqb_neq.
      rewrite (proj1 (List.Forall_forall _ _) Hall m Hm). lia.
Qed.

(** The same for a list of bundles. *)
Lemma import_fold_spec data :
  forall st,
  (forall m, In m (messageRows st) -> (msg_chatId m < chatNext st)%N) ->
  let st' := List.fold_left (fun st b => storeBundle (dated b) b st) data st in
  exists newChats,
    chatRows st' = chatRows st ++ newChats /\
    Forall2
      (fun b c =>
         chat_name c = exp_name b /\ chat_model c = exp_model b /\
         chat_createdAt c = dated b /\ (chatNext st <= chat_id c)%N /\
         List.map role_content (store_getMessages (chat_id c) st') =
         List.map role_content (exp_messages b))
      data newChats /\
    (forall cid, (cid < chatNext st)%N ->
       store_getMessages cid st' = store_getMessages cid st).
Proof.
  induction data as [|b data IH]; intros st Hold st'.
  - exists []. subst st'. simpl. rewrite app_nil_r. repeat split. constructor.
  - subst st'. simpl.
    destruct (storeBundle_spec (dated b) b st Hold)
      as (Hrows & Hnext & Hold1 & Hmsgs & Hkeep).
    rewrite <- Hnext in Hold1.
    destruct (IH (storeBundle (dated b) b st) Hold1)
      as (newChats & Hrows' & Hall & Hkeep').
    exists (mkChat (chatNext st) (exp_name b) (exp_model b) (dated b)
            :: newChats).
    split; [|split].
    + rewrite Hrows', Hrows, <- app_assoc. reflexivity.
    + constructor.
      * simpl. repeat split; try lia.
        rewrite Hkeep' by (rewrite Hnext; lia). exact Hmsgs.
      * eapply Forall2_impl; [exact Hall|]. simpl.
        intros b' c (? & ? & ? & Hle & ?). rewrite Hnext in Hle.
        repeat split; try assumption. lia.
    + intros cid Hcid. rewrite Hkeep' by (rewrite Hnext; lia).
      now apply Hkeep.
Qed.

Lemma exportChats_eq s :
  store_ok (db s) ->
  exportChats s = (Returned (List.map (bundleOf (db s)) (chatRows (db s))), s).
Proof.
  intros Hok. unfold exportChats, bind, get, ret. do 2 f_equal.
  pose proof (ok_chat_ids _ Hok) as Hids.
  induction (chatRows (db s)) as [|c rows IH]; [reflexivity|].
  simpl. unfold exportOne at 1.
  destruct (N.eqb_spec (chat_id c) 0) as [E|_].
  - specialize (Hids c (or_introl eq_refl)). lia.
  - simpl. f_equal. apply IH. intros c' Hc'. apply Hids. now right.
Qed.

Lemma Forall2_map_l {A B C} (R : B -> C -> Prop) (f : A -> B) l k :
  Forall2 R (List.map f l) k -> Forall2 (fun a c => R (f a) c) l k.
Proof.
  revert k. induction l as [|a l IH]; intros k H; inversion H; subst;
    constructor; auto.
Qed.

(** C3.  On a well-formed store, importing what [exportChats] returns adds
    one chat per exported chat, that is per stored chat, after the existing
    ones.  Each new chat has a new id, the name, model and date of its
    original, and as many messages as the original with the same roles and
    contents in the same order; the messages of the original chats stay as
    they are, and no import callback fails. *)
Theorem export_then_import_round_trip
    (s : State) (data : list ChatExport) (s1 : State) :
  store_ok (db s) ->
  exportChats s = (Returned data, s1) ->
  let s' := exec (importChats data) s1 in
  outcome (importChats data) s1 = Returned tt /\
  unhandled s' = unhandled s /\
  length data = length (chatRows (db s)) /\
  exists newChats,
    chatRows (db s') = chatRows (db s) ++ newChats /\
    length newChats = length data /\
    Forall2
      (fun original copy =>
         ~ In (chat_id copy) (List.map chat_id (chatRows (db s))) /\
         chat_name copy = chat_name original /\
         chat_model copy = chat_model original /\
         chat_createdAt copy = chat_createdAt original /\
         List.map role_content (store_getMessages (chat_id copy) (db s')) =
         List.map role_content (store_getMessages (chat_id original) (db s)))
      (chatRows (db s)) newChats /\
    forall original, In original (chatRows (db s)) ->
      store_getMessages (chat_id original) (db s') =
      store_getMessages (chat_id original) (db s).
Proof.
  intros Hok Hexp s'. subst s'. unfold exec, outcome.
  rewrite (exportChats_eq s Hok) in Hexp. injection Hexp as <- <-.
  assert (Hdated : Forall (fun b => exp_createdAt b <> None)
                          (List.map (bundleOf (db s)) (chatRows (db s)))).
  { apply List.Forall_forall. intros b Hb.
    apply List.in_map_iff in Hb as (c & <- & _). discriminate. }
  destruct (importChats_db _ s Hdated) as (s' & -> & Hdb & Hun).
  destruct (import_fold_spec (List.map (bundleOf (db s)) (chatRows (db s)))
              (db s) (ok_message_chat _ Hok))
    as (newChats & Hrows & Hall & Hkeep).
  simpl. rewrite Hdb, List.length_map.
  split; [reflexivity|]. split; [exact Hun|]. split; [reflexivity|].
  exists newChats. split; [exact Hrows|]. split; [|split].
  - apply Forall2_length in Hall. now rewrite List.length_map in Hall.
  - apply Forall2_map_l in Hall.
    eapply Forall2_impl; [exact Hall|]. simpl.
    intros c c' (Hn & Hm & Hd & Hle & Hmsgs).
    repeat split; try assumption.
    intros Hin. apply List.in_map_iff in Hin as (c0 & Hid & Hc0).
    pose proof (ok_chat_ids _ Hok c0 Hc0). lia.
  - intros c Hc. apply Hkeep. pose proof (ok_chat_ids _ Hok c Hc). lia.
Qed.

Lemma sampleTalked_ok : store_ok (db sampleTalked).
Proof. apply store_okb_ok. vm_compute. reflexivity. Qed.

Lemma export_then_import_round_trip_witness :
  store_ok (db sampleReady) /\
  exportChats sampleReady =
    (Returned [mkChatExport 1 "New chat" "llama3" (Some 0)
                 [mkMessage 1 1 system "Be brief." None 1]], sampleReady) /\
  unhandled
    (exec (importChats
             [mkChatExport 1 "New chat" "llama3" (Some 0)
                [mkMessage 1 1 system "Be brief." None 1]]) sampleReady) =
  unhandled sampleReady.
Proof.
  split; [exact sampleReady_ok|]. split; [reflexivity|].
  exact (proj1 (proj2
    (export_then_import_round_trip sampleReady
       [mkChatExport 1 "New chat" "llama3" (Some 0)
          [mkMessage 1 1 system "Be brief." None 1]]
       sampleReady sampleReady_ok eq_refl))).
Defined.

Example export_then_import_sample :
  let s := sampleTalked in
  let s' := exec (data <- exportChats ;; importChats data) s in
  List.map chat_id (chatRows (db s)) = [1; 2]%N /\
  List.map chat_id (chatRows (db s')) = [1; 2; 3; 4]%N /\
  List.map role_content (store_getMessages 3 (db s')) =
    [(system, "Be brief."); (user, "hi"); (assistant, "Hello")] /\
  List.map role_content (store_getMessages 1 (db s)) =
    [(system, "Be brief."); (user, "hi"); (assistant, "Hello")] /\
  List.map role_content (store_getMessages 4 (db s')) =
    [(system, "Be brief."); (user, "more"); (assistant, "Hel")].
Proof. vm_compute. repeat split. Qed.

(** ** The commands as state transformers *)

(** Every command returns; the state it leaves is given in closed form. *)

Lemma switchModel_eq model s :
  switchModel model s = (Returned tt, afterSwitchModel model s).
Proof.
  unfold switchModel, afterSwitchModel, chatAt. destruct s. task_cbv.
  now case_option.
Qed.

Lemma store_getChat_id chatId st chat :
  store_getChat chatId st = Some chat -> chat_id chat = chatId.
Proof.
  unfold store_getChat. intros H. apply List.find_some in H as [_ H].
  now apply N.eqb_eq.
Qed.

Lemma store_getChat_In chatId st chat :
  store_getChat chatId st = Some chat -> In chat (chatRows st).
Proof.
  unfold store_getChat. intros H. now apply List.find_some in H as [H _].
Qed.

Lemma switchChat_eq chatId s :
  switchChat chatId s = (Returned tt, afterSwitchChat chatId s).
Proof.
  unfold switchChat, afterSwitchChat.
  destruct (store_getChat chatId (db s)) as [chat|] eqn:Hc.
  - assert (E : dbLayer.getChat chatId s =
                (Returned (Some (length (chatHeap s))),
                 set_chatHeap (chatHeap s ++ [chat]) s)).
    { unfold dbLayer.getChat, bind, get. now rewrite Hc. }
    unfold try_catch. rewrite (bind_returned _ _ _ _ _ E).
    unfold bind at 1. unfold setActiveChat, modify at 1.
    unfold bind at 1. unfold dbLayer.getMessages, bind at 1, get at 1.
    rewrite newMessageObjects_eq.
    unfold bind at 1. unfold setMessages, modify at 1.
    unfold bind at 1. unfold get at 1.
    rewrite <- (store_getChat_id _ _ _ Hc).
    change (set_messages _ _) with (opened chat s).
    assert (Ha : activeChat (opened chat s) = Some (length (chatHeap s)))
      by reflexivity.
    rewrite Ha.
    assert (Hm : chat_model (chatAt (opened chat s) (length (chatHeap s))) =
                 chat_model chat).
    { unfold chatAt. simpl. rewrite lookup_total_app_r by lia.
      now rewrite Nat.sub_diag. }
    rewrite Hm, switchModel_eq. reflexivity.
  - assert (E : dbLayer.getChat chatId s = (Returned None, s)).
    { unfold dbLayer.getChat, bind, get. now rewrite Hc. }
    unfold try_catch. now rewrite (bind_returned _ _ _ _ _ E).
Qed.

Lemma renameChat_eq newName s :
  renameChat newName s = (Returned tt, afterRename newName s).
Proof.
  unfold renameChat, afterRename, chatAt. destruct s. task_cbv.
  case_option; [|reflexivity].
  rewrite newChatObjects_eq. reflexivity.
Qed.

Lemma addSystemMessage_eq content meta s :
  addSystemMessage content meta s =
  (Returned tt, afterSystemMessage content meta s).
Proof.
  unfold addSystemMessage, afterSystemMessage, chatAt. destruct s. task_cbv.
  case_option; [|reflexivity].
  destruct content as [text|]; [|reflexivity].
  now destruct (decide (text = "")).
Qed.

Lemma startNewChat_eq name s :
  startNewChat name s = (Returned tt, afterStartNewChat name s).
Proof.
  unfold startNewChat, afterStartNewChat.
  unfold bind at 1, get at 1. unfold bind at 1, new_Date at 1.
  unfold try_catch.
  unfold bind at 1. unfold dbLayer.addChat at 1. cbv beta iota zeta.
  unfold store_addChat at 1. cbv beta iota zeta.
  unfold bind at 1. unfold newChatObject at 1.
  unfold bind at 1. unfold modify at 1.
  unfold bind at 1. unfold setActiveChat, modify at 1.
  unfold bind at 1. unfold setMessages, modify at 1.
  unfold bind at 1. unfold getCurrentSystemMessage, bind at 1, get at 1, ret at 1.
  rewrite addSystemMessage_eq. reflexivity.
Qed.

Lemma deleteChat_eq chatId s :
  deleteChat chatId s = (Returned tt, afterDeleteChat chatId s).
Proof.
  unfold deleteChat, afterDeleteChat, try_catch.
  unfold bind at 1. unfold dbLayer.deleteChat, modify at 1.
  unfold bind at 1. unfold dbLayer.deleteMessagesOfChat, modify at 1.
  unfold bind at 1. unfold modify at 1.
  unfold bind at 1. unfold get at 1.
  change (set_chats _ _) with (removed chatId s).
  destruct (activeChatIs chatId (removed chatId s)); [|reflexivity].
  destruct (sortedChats (removed chatId s)) as [|newest rest].
  - now rewrite startNewChat_eq.
  - now rewrite switchChat_eq.
Qed.

Lemma wipeDatabase_eq s : wipeDatabase s = (Returned tt, afterWipe s).
Proof.
  unfold wipeDatabase, afterWipe, try_catch.
  unfold bind at 1. unfold dbLayer.clearChats, modify at 1.
  unfold bind at 1. unfold dbLayer.clearMessages, modify at 1.
  unfold bind at 1. unfold modify at 1.
  unfold bind at 1. unfold modify at 1.
  unfold bind at 1. unfold modify at 1.
  unfold bind at 1. unfold modify at 1.
  change (set_ongoingAiMessages _ _) with (wiped s).
  now rewrite startNewChat_eq.
Qed.

Lemma initialize_eq s : initialize s = (Returned tt, afterInitialize s).
Proof.
  unfold initialize, afterInitialize, try_catch.
  unfold bind at 1. unfold dbLayer.getAllChats, bind at 1, get at 1.
  rewrite newChatObjects_eq.
  unfold bind at 1. unfold modify at 1.
  unfold bind at 1. unfold get at 1.
  change (set_chats _ _) with (loaded s).
  destruct (chats (loaded s)) as [|l ls].
  - now rewrite startNewChat_eq.
  - destruct (sortedChats (loaded s)) as [|newest rest].
    + reflexivity.
    + now rewrite switchChat_eq.
Qed.

Lemma detached_importChatData_eq chatData s :
  detached (importChatData chatData) s =
  (Returned tt, afterImportOne chatData s).
Proof.
  unfold detached, afterImportOne, try_catch.
  destruct (exp_createdAt chatData) as [d|] eqn:Hd.
  - now rewrite (importChatData_eq chatData d s Hd).
  - destruct (exp_messages chatData) as [|first rest] eqn:Hm.
    + unfold importChatData. now rewrite Hd, Hm.
    + unfold importChatData, afterImport, storeBundle. rewrite Hd, Hm.
      destruct s. task_cbv. rewrite import_messages_eq. reflexivity.
Qed.

Lemma importChats_eq jsonData s :
  importChats jsonData s = (Returned tt, afterImports jsonData s).
Proof.
  unfold importChats, afterImports. revert s.
  induction jsonData as [|b data IH]; intros s; [reflexivity|].
  simpl forEach_async.
  rewrite (bind_returned _ _ _ _ _ (detached_importChatData_eq b s)).
  apply IH.
Qed.

Lemma run_command_eq c s : run_command c s = (Returned tt, afterCommand c s).
Proof.
  destruct c; simpl.
  - apply initialize_eq.
  - apply switchChat_eq.
  - apply switchModel_eq.
  - apply renameChat_eq.
  - apply startNewChat_eq.
  - apply addSystemMessage_eq.
  - apply wipeDatabase_eq.
  - apply deleteChat_eq.
  - reflexivity.
  - apply importChats_eq.
Qed.

(** ** Streams with commands in between *)

Lemma consume_eq cid items s :
  consume cid items s = (Returned tt, afterItems cid items s).
Proof.
  unfold afterItems. revert s.
  induction items as [|item items IH]; intros s; [reflexivity|].
  destruct item as [p|c]; simpl consume.
  - assert (E : receivePart cid p s = (Returned tt, afterItem cid (Part p) s)).
    { simpl. destruct (ongoingAiMessages s !! cid) as [l|] eqn:Hl.
      - now apply receivePart_in_flight.
      - now apply receivePart_idle. }
    rewrite (bind_returned _ _ _ _ _ E). apply IH.
  - assert (E : detached (run_command c) s =
                (Returned tt, afterItem cid (Meanwhile c) s)).
    { unfold detached, try_catch. now rewrite run_command_eq. }
    rewrite (bind_returned _ _ _ _ _ E). apply IH.
Qed.

Lemma step_eq r s : step r s = afterRequestOf r s.
Proof.
  unfold step, exec, detached, try_catch.
  destruct r as [c|content [items ending]|[items ending]]; simpl.
  - now rewrite run_command_eq.
  - destruct (activeChat s) as [a|] eqn:Ha.
    + now rewrite (addUserMessage_eq content items ending s a _ Ha
                     (consume_eq _ _ _)).
    + now rewrite (addUserMessage_idle content _ s Ha).
  - destruct (activeChat s) as [a|] eqn:Ha.
    + now rewrite (regenerateResponse_eq items ending s a _ Ha
                     (consume_eq _ _ _)).
    + unfold regenerateResponse, bind, get. now rewrite Ha.
Qed.

(** ** The chat list and the store agree *)

Lemma map_key_id (l : list Chat) (k : list Chat) :
  List.map chat_key l = List.map chat_key k ->
  List.map chat_id l = List.map chat_id k.
Proof.
  intros H.
  assert (E : forall x : list Chat,
             List.map chat_id x = List.map fst (List.map chat_key x)).
  { intros x. rewrite List.map_map. reflexivity. }
  now rewrite !E, H.
Qed.

Lemma listed_activeChatListed s : listed s -> activeChatListed s.
Proof.
  intros [[_ Hk] _ Ha] a E. rewrite (map_key_id _ _ Hk). now apply Ha.
Qed.

(** Operations that leave chats alone. *)
Lemma listed_frame s s' :
  chatHeap s' = chatHeap s -> chats s' = chats s ->
  activeChat s' = activeChat s -> chatRows (db s') = chatRows (db s) ->
  listed s -> listed s'.
Proof.
  intros Hh Hc Ha Hr [[H1 H2] H3 H4].
  constructor; [constructor|..]; unfold chatList, chatAt in *;
    rewrite ?Hh, ?Hc, ?Ha, ?Hr; assumption.
Qed.

(** Mutating one chat object without touching its key. *)
Lemma map_alter_key (f : Chat -> Chat) (a : loc) (heap : list Chat)
    (ls : list loc) :
  (forall c, chat_key (f c) = chat_key c) ->
  List.map (fun l => chat_key (alter f a heap !!! l)) ls =
  List.map (fun l => chat_key (heap !!! l)) ls.
Proof.
  intros Hf. apply List.map_ext. intros l.
  destruct (decide (a = l)) as [->|Hne].
  - destruct (decide (l < length heap)%nat) as [Hl|Hl].
    + rewrite list_lookup_total_alter_eq by exact Hl. apply Hf.
    + rewrite !list_lookup_total_alt.
      rewrite list_lookup_alter_eq.
      now rewrite (lookup_ge_None_2 heap l) by lia.
  - now rewrite list_lookup_total_alter_ne.
Qed.

Lemma map_update_key (f : Chat -> Chat) i (rows : list Chat) :
  (forall c, chat_key (f c) = chat_key c) ->
  List.map chat_key
    (List.map (fun c => if N.eqb (chat_id c) i then f c else c) rows) =
  List.map chat_key rows.
Proof.
  intros Hf. rewrite List.map_map. apply List.map_ext. intros c.
  now destruct (N.eqb (chat_id c) i).
Qed.

Lemma with_chat_model_key m c : chat_key (with_chat_model m c) = chat_key c.
Proof. reflexivity. Qed.
Lemma with_chat_name_key n c : chat_key (with_chat_name n c) = chat_key c.
Proof. reflexivity. Qed.

Lemma chatList_keys s :
  List.map chat_key (chatList s) =
  List.map (fun l => chat_key (chatHeap s !!! l)) (chats s).
Proof. unfold chatList, chatAt. now rewrite List.map_map. Qed.

Lemma alter_id_at (f : Chat -> Chat) (a : loc) (heap : list Chat) (l : loc) :
  (forall c, chat_key (f c) = chat_key c) ->
  chat_id (alter f a heap !!! l) = chat_id (heap !!! l).
Proof.
  intros Hf.
  pose proof (map_alter_key f a heap [l] Hf) as H. simpl in H.
  unfold chat_key in H. congruence.
Qed.

Lemma afterSwitchModel_listed model s : listed s -> listed (afterSwitchModel model s).
Proof.
  intros L. unfold afterSwitchModel.
  destruct (activeChat s) as [a|] eqn:Ha.
  - destruct L as [[H1 H2] H3 H4]. constructor; [constructor|..]; simpl.
    + now rewrite length_alter.
    + rewrite chatList_keys in *. simpl.
      rewrite map_alter_key by apply with_chat_model_key.
      rewrite map_update_key by apply with_chat_model_key. exact H2.
    + intros a' Ha'. rewrite length_alter. apply H3. congruence.
    + intros a' Ha'. unfold chatAt. simpl.
      rewrite alter_id_at by apply with_chat_model_key.
      rewrite (map_key_id _ (chatRows (db s))).
      * apply H4. congruence.
      * apply map_update_key, with_chat_model_key.
  - apply (listed_frame s); try reflexivity. exact L.
Qed.

Lemma chatsListed_grow s heap' :
  chatsListed s ->
  List.map (fun l => chat_key ((chatHeap s ++ heap') !!! l)) (chats s) =
  List.map chat_key (chatRows (db s)).
Proof.
  intros [H1 H2]. rewrite chatList_keys in H2. rewrite <- H2.
  apply List.map_ext_in. intros l Hl. f_equal.
  apply lookup_total_app_l.
  exact (proj1 (List.Forall_forall _ _) H1 l Hl).
Qed.

Lemma Forall_lt_grow (ls : list loc) n m :
  (n <= m)%nat -> Forall (fun l => (l < n)%nat) ls ->
  Forall (fun l => (l < m)%nat) ls.
Proof.
  intros Hle H. apply List.Forall_forall. intros l Hl.
  pose proof (proj1 (List.Forall_forall _ _) H l Hl). simpl in *. lia.
Qed.

(** Opening a chat of the store makes the state listed, whatever the
    active chat was before. *)
Lemma opened_listed chat s :
  chatsListed s -> In chat (chatRows (db s)) -> listed (opened chat s).
Proof.
  intros C Hin. pose proof C as [H1 H2].
  constructor; [constructor|..]; simpl.
  - rewrite length_app. eapply Forall_lt_grow; [|exact H1]. lia.
  - rewrite chatList_keys. simpl. now apply chatsListed_grow.
  - intros a [= <-]. rewrite length_app. simpl. lia.
  - intros a [= <-]. unfold chatAt. simpl.
    rewrite lookup_total_app_r by lia. rewrite Nat.sub_diag. simpl.
    now apply List.in_map.
Qed.

Lemma afterSwitchChat_found chatId s :
  chatsListed s ->
  In chatId (List.map chat_id (chatRows (db s))) ->
  exists chat,
    store_getChat chatId (db s) = Some chat /\
    afterSwitchChat chatId s = afterSwitchModel (chat_model chat) (opened chat s) /\
    listed (afterSwitchChat chatId s).
Proof.
  intros C Hin. unfold afterSwitchChat.
  destruct (store_getChat chatId (db s)) as [chat|] eqn:Hc.
  - exists chat. split; [reflexivity|]. split; [reflexivity|].
    apply afterSwitchModel_listed, opened_listed; [exact C|].
    now apply (store_getChat_In chatId).
  - exfalso. apply List.in_map_iff in Hin as (c & Hid & Hc').
    unfold store_getChat in Hc.
    apply (List.find_none _ _ Hc) in Hc'. simpl in Hc'.
    rewrite Hid, N.eqb_refl in Hc'. discriminate.
Qed.

Lemma afterSwitchChat_listed chatId s : listed s -> listed (afterSwitchChat chatId s).
Proof.
  intros L. unfold afterSwitchChat.
  destruct (store_getChat chatId (db s)) as [chat|] eqn:Hc; [|exact L].
  apply afterSwitchModel_listed, opened_listed; [apply L|].
  now apply (store_getChat_In chatId).
Qed.

Lemma afterSystemMessage_listed content meta s :
  listed s -> listed (afterSystemMessage content meta s).
Proof.
  intros L. unfold afterSystemMessage.
  destruct (activeChat s) as [a|]; [|exact L].
  destruct content as [text|]; [|exact L].
  destruct (decide (text = "")); [exact L|].
  apply (listed_frame s); try reflexivity. exact L.
Qed.

(** Starting a chat makes the state listed, whatever the active chat was. *)
Lemma started_listed name s : chatsListed s -> listed (started name s).
Proof.
  intros C. pose proof C as [H1 H2].
  constructor; [constructor|..]; simpl.
  - rewrite length_app. apply Forall_app. split.
    + eapply Forall_lt_grow; [|exact H1]. lia.
    + constructor; [simpl; lia|constructor].
  - rewrite chatList_keys. simpl. rewrite !List.map_app. simpl.
    rewrite lookup_total_app_r by lia. rewrite Nat.sub_diag. simpl.
    f_equal. now apply chatsListed_grow.
  - intros a [= <-]. rewrite length_app. simpl. lia.
  - intros a [= <-]. unfold chatAt. simpl.
    rewrite lookup_total_app_r by lia. rewrite Nat.sub_diag. simpl.
    rewrite List.map_app. apply in_or_app. right. now left.
Qed.

Lemma afterStartNewChat_listed name s :
  chatsListed s -> listed (afterStartNewChat name s).
Proof.
  intros C. unfold afterStartNewChat.
  now apply afterSystemMessage_listed, started_listed.
Qed.

(** *** The newest chat *)

Lemma insert_newest_first_In key x y l :
  In x (insert_newest_first key y l) <-> x = y \/ In x l.
Proof.
  induction l as [|z l IH]; simpl.
  - intuition.
  - destruct (key y <? key z); simpl; rewrite ?IH; intuition.
Qed.

Lemma sortedChats_In s x : In x (sortedChats s) <-> In x (chats s).
Proof.
  unfold sortedChats. induction (chats s) as [|y l IH]; simpl; [tauto|].
  rewrite insert_newest_first_In, IH. intuition.
Qed.

Lemma sortedChats_nonempty s l ls :
  chats s = l :: ls -> exists newest rest, sortedChats s = newest :: rest.
Proof.
  intros H. destruct (sortedChats s) as [|newest rest] eqn:E.
  - assert (Hin : In l (sortedChats s)) by (apply sortedChats_In; rewrite H; now left).
    rewrite E in Hin. destruct Hin.
  - now exists newest, rest.
Qed.

Lemma insert_newest_first_head key y l :
  newestFirst key l -> newestFirst key (insert_newest_first key y l).
Proof.
  destruct l as [|z l]; simpl.
  - intros _ w [].
  - intros Hz. destruct (Z.ltb_spec (key y) (key z)) as [Hlt|Hge]; simpl.
    + intros w Hw. apply insert_newest_first_In in Hw as [->|Hw]; [lia|].
      now apply Hz.
    + intros w [<-|Hw]; [lia|]. specialize (Hz w Hw). lia.
Qed.

Lemma sortedChats_newest s newest rest :
  sortedChats s = newest :: rest ->
  In newest (chats s) /\
  forall l, In l (chats s) ->
    chat_createdAt (chatAt s l) <= chat_createdAt (chatAt s newest).
Proof.
  intros E. split.
  - apply sortedChats_In. rewrite E. now left.
  - intros l Hl. apply sortedChats_In in Hl.
    assert (Hs : newestFirst (fun l => chat_createdAt (chatAt s l))
                             (sortedChats s)).
    { unfold sortedChats. induction (chats s) as [|y k IH]; simpl; [exact I|].
      now apply insert_newest_first_head. }
    rewrite E in Hs, Hl. destruct Hl as [<-|Hl]; [lia|]. now apply Hs.
Qed.

(** *** Deleting, wiping, loading *)

Lemma filter_map_key {A B K} (ka : A -> K) (kb : B -> K)
    (p : A -> bool) (p' : B -> bool) (q : K -> bool)
    (l : list A) (l' : list B) :
  (forall x, p x = q (ka x)) -> (forall y, p' y = q (kb y)) ->
  List.map ka l = List.map kb l' ->
  List.map ka (List.filter p l) = List.map kb (List.filter p' l').
Proof.
  intros Hp Hp'. revert l'.
  induction l as [|x l IH]; intros [|x' l'] H; try discriminate; [reflexivity|].
  simpl in H. injection H as Hx Hl. simpl.
  rewrite Hp, Hp', Hx. destruct (q (kb x')); simpl;
    [rewrite Hx; f_equal|]; now apply IH.
Qed.

Lemma removed_chatsListed chatId s : chatsListed s -> chatsListed (removed chatId s).
Proof.
  intros [H1 H2]. constructor; simpl.
  - apply List.Forall_forall. intros l Hl. apply List.filter_In in Hl as [Hl _].
    exact (proj1 (List.Forall_forall _ _) H1 l Hl).
  - rewrite chatList_keys in *. simpl.
    apply (filter_map_key _ _ _ _ (fun k => negb (N.eqb (fst k) chatId)));
      [reflexivity|reflexivity|exact H2].
Qed.

Lemma afterDeleteChat_listed chatId s : listed s -> listed (afterDeleteChat chatId s).
Proof.
  intros L. pose proof (removed_chatsListed chatId s (listed_chats s L)) as C.
  unfold afterDeleteChat.
  destruct (activeChatIs chatId (removed chatId s)) eqn:Hact.
  - destruct (sortedChats (removed chatId s)) as [|newest rest] eqn:Hs.
    + now apply afterStartNewChat_listed.
    + destruct (sortedChats_newest _ _ _ Hs) as [Hin _].
      destruct (afterSwitchChat_found
                  (chat_id (chatAt (removed chatId s) newest))
                  (removed chatId s) C) as (chat & _ & _ & Hl); [|exact Hl].
      rewrite <- (map_key_id _ _ (listed_keys _ C)).
      unfold chatList. rewrite List.map_map.
      apply (List.in_map (fun l => chat_id (chatAt (removed chatId s) l))).
      exact Hin.
  - constructor; [exact C|..].
    + intros a Ha. now apply (listed_active_alloc s L).
    + intros a Ha. simpl in Ha. simpl.
      unfold activeChatIs in Hact. simpl in Hact. rewrite Ha in Hact.
      pose proof (listed_active s L a Ha) as Hin.
      apply List.in_map_iff in Hin as (c & Hid & Hc).
      apply List.in_map_iff. exists c. split; [exact Hid|].
      apply List.filter_In. split; [exact Hc|].
      unfold chatAt in *. simpl in Hact. now rewrite Hid, Hact.
Qed.

Lemma wiped_chatsListed s : chatsListed (wiped s).
Proof. constructor; simpl; [constructor|reflexivity]. Qed.

Lemma afterWipe_listed s : listed (afterWipe s).
Proof. apply afterStartNewChat_listed, wiped_chatsListed. Qed.

Lemma loaded_chatsListed s : chatsListed (loaded s).
Proof.
  constructor; simpl.
  - apply List.Forall_forall. intros l Hl. apply in_seq in Hl.
    rewrite length_app. lia.
  - unfold chatList, chatAt. simpl. f_equal. apply lookup_total_fresh.
Qed.

(** [initialize] establishes the agreement from any state at all. *)
Lemma afterInitialize_listed s : listed (afterInitialize s).
Proof.
  pose proof (loaded_chatsListed s) as C. unfold afterInitialize.
  destruct (chats (loaded s)) as [|l ls] eqn:Hc.
  - now apply afterStartNewChat_listed.
  - destruct (sortedChats_nonempty _ _ _ Hc) as (newest & rest & Hs).
    rewrite Hs.
    destruct (sortedChats_newest _ _ _ Hs) as [Hin _].
    destruct (afterSwitchChat_found
                (chat_id (chatAt (loaded s) newest)) (loaded s) C)
      as (chat & _ & _ & Hl); [|exact Hl].
    rewrite <- (map_key_id _ _ (listed_keys _ C)).
    unfold chatList. rewrite List.map_map.
    apply (List.in_map (fun l => chat_id (chatAt (loaded s) l))).
    exact Hin.
Qed.

Lemma afterRename_listed newName s : listed s -> listed (afterRename newName s).
Proof.
  intros L. unfold afterRename.
  destruct (activeChat s) as [a|] eqn:Ha; [|exact L].
  destruct L as [[H1 H2] H3 H4]. specialize (H3 a Ha). specialize (H4 a Ha).
  constructor; [constructor|..]; simpl.
  - apply List.Forall_forall. intros l Hl. apply in_seq in Hl.
    rewrite length_app, length_alter, List.length_map in *. lia.
  - unfold chatList, chatAt. simpl. f_equal. apply lookup_total_fresh.
  - intros a' Ha'. rewrite Ha in Ha'. injection Ha' as <-.
    rewrite length_app, length_alter. lia.
  - intros a' Ha'. rewrite Ha in Ha'. injection Ha' as <-.
    unfold chatAt in *. simpl.
    rewrite lookup_total_app_l by now rewrite length_alter.
    rewrite alter_id_at by apply with_chat_name_key.
    rewrite (map_key_id _ (chatRows (db s))); [exact H4|].
    apply map_update_key, with_chat_name_key.
Qed.

Lemma storeBundle_chatRows d b st :
  chatRows (storeBundle d b st) =
  chatRows st ++ [mkChat (chatNext st) (exp_name b) (exp_model b) d].
Proof.
  unfold storeBundle.
  now rewrite (proj1 (storeImported_frame _ _ _)).
Qed.

Lemma afterImport_listed d b s : listed s -> listed (afterImport d b s).
Proof.
  intros [[H1 H2] H3 H4].
  constructor; [constructor|..]; simpl.
  - rewrite length_app. apply Forall_app. split.
    + eapply Forall_lt_grow; [|exact H1]. lia.
    + constructor; [simpl; lia|constructor].
  - rewrite chatList_keys. simpl. rewrite storeBundle_chatRows, !List.map_app.
    simpl. rewrite lookup_total_app_r by lia. rewrite Nat.sub_diag. simpl.
    f_equal. apply (chatsListed_grow s). now constructor.
  - intros a Ha. rewrite length_app. specialize (H3 a Ha). lia.
  - intros a Ha. unfold chatAt in *. simpl.
    rewrite lookup_total_app_l by now apply H3.
    rewrite storeBundle_chatRows, List.map_app. apply in_or_app. left.
    now apply H4.
Qed.

Lemma afterImportOne_listed b s : listed s -> listed (afterImportOne b s).
Proof.
  intros L. unfold afterImportOne.
  destruct (exp_createdAt b) as [d|]; [now apply afterImport_listed|].
  destruct (exp_messages b) as [|first rest].
  - apply (listed_frame s); try reflexivity. exact L.
  - now apply afterImport_listed.
Qed.

Lemma afterImports_listed data s : listed s -> listed (afterImports data s).
Proof.
  unfold afterImports. revert s.
  induction data as [|b data IH]; intros s L; [exact L|].
  simpl. now apply IH, afterImportOne_listed.
Qed.

Lemma afterCommand_listed c s : listed s -> listed (afterCommand c s).
Proof.
  intros L. destruct c; simpl.
  - apply afterInitialize_listed.
  - now apply afterSwitchChat_listed.
  - now apply afterSwitchModel_listed.
  - now apply afterRename_listed.
  - apply afterStartNewChat_listed, L.
  - now apply afterSystemMessage_listed.
  - apply afterWipe_listed.
  - now apply afterDeleteChat_listed.
  - apply (listed_frame s); try reflexivity. exact L.
  - now apply afterImports_listed.
Qed.

Lemma afterItems_listed cid items s : listed s -> listed (afterItems cid items s).
Proof.
  unfold afterItems. revert s.
  induction items as [|item items IH]; intros s L; [exact L|].
  simpl. apply IH. destruct item as [p|c]; simpl.
  - destruct (ongoingAiMessages s !! cid) as [l|]; [|exact L].
    pose proof (afterPart_frame cid l p s) as F.
    apply (listed_frame s); try apply F. exact L.
  - now apply afterCommand_listed.
Qed.

Lemma settle_listed cid text ending s : listed s -> listed (settle cid text ending s).
Proof.
  intros L. apply (listed_frame s); try exact L;
    destruct ending as [|e]; simpl; try destruct (isAbortError e); reflexivity.
Qed.

Lemma afterTrim_listed s : listed s -> listed (afterTrim s).
Proof.
  intros L. unfold afterTrim.
  destruct (last (messages s)) as [l|]; [|exact L].
  destruct (decide (msg_role (messageAt s l) = assistant)); [|exact L].
  destruct (N.eqb (msg_id (messageAt s l)) 0);
    apply (listed_frame s); try reflexivity; exact L.
Qed.

(** Every request keeps the agreement. *)
Lemma step_listed r s : listed s -> listed (step r s).
Proof.
  intros L. rewrite step_eq.
  destruct r as [c|content [items ending]|[items ending]]; simpl.
  - now apply afterCommand_listed.
  - destruct (activeChat s) as [a|] eqn:Ha.
    + apply settle_listed, afterItems_listed.
      apply (listed_frame s); try reflexivity. exact L.
    + apply (listed_frame s); try reflexivity. exact L.
  - destruct (activeChat s) as [a|] eqn:Ha; [|exact L].
    apply settle_listed, afterItems_listed.
    apply (listed_frame (afterTrim s)); try reflexivity.
    now apply afterTrim_listed.
Qed.

Lemma run_listed rs s : listed s -> listed (run rs s).
Proof.
  unfold run. revert s. induction rs as [|r rs IH]; intros s L; [exact L|].
  simpl. now apply IH, step_listed.
Qed.

(** ** The active chat belongs to the chat list *)

Lemma initialized_listed s : initialized s -> listed s.
Proof.
  induction 1 as [s|r s _ IH].
  - rewrite step_eq. apply afterInitialize_listed.
  - now apply step_listed.
Qed.

(** C4, as amended.  Once [initialize()] has run, the chat list holds a
    chat with the id of the active chat whenever there is an active chat,
    and this stays so after every sequence of [startNewChat], [switchChat]
    and [deleteChat] calls. *)
Theorem active_chat_stays_listed (s : State) (rs : list Request) :
  initialized s ->
  Forall isNavigation rs ->
  activeChatListed (run rs s).
Proof.
  intros Hs _. now apply listed_activeChatListed, run_listed, initialized_listed.
Qed.

Lemma active_chat_stays_listed_witness :
  initialized (step (Plain Initialize) sampleReturn) /\
  Forall isNavigation
    [Plain (StartNewChat "b"); Plain (DeleteChat 1); Plain (SwitchChat 2)] /\
  activeChatListed
    (run [Plain (StartNewChat "b"); Plain (DeleteChat 1); Plain (SwitchChat 2)]
         (step (Plain Initialize) sampleReturn)).
Proof.
  split; [constructor|].
  split; [repeat constructor|].
  apply active_chat_stays_listed; [constructor|repeat constructor].
Defined.

(** It holds for all other requests as well. *)
Lemma active_chat_listed_always s rs :
  initialized s -> activeChatListed (run rs s).
Proof.
  intros Hs. now apply listed_activeChatListed, run_listed, initialized_listed.
Qed.

(** C4 fails as stated.  Before [initialize()] the chat list is empty
    although the store may hold chats, and [switchChat] then makes active a
    chat that the list does not hold.  And after [initialize()] the active
    chat is a copy read from the store, which need not equal any entry of
    the list: only its id is found there. *)
Lemma active_chat_listed_counterexample :
  (let s := run [Plain (SwitchChat 1)] sampleReturn in
   activeChatValue s = Some (mkChat 1 "Old" "llama3" 0) /\
   chatList s = [] /\
   ~ activeChatListed s) /\
  (let s := run [Plain Initialize; Plain (SwitchModel "mistral");
                 Plain (SwitchChat 1)] sampleReturn in
   activeChatValue s = Some (mkChat 1 "Old" "mistral" 0) /\
   chatList s = [mkChat 1 "Old" "llama3" 0] /\
   ~ In (mkChat 1 "Old" "mistral" 0) (chatList s)).
Proof.
  split; cbv zeta.
  - split; [vm_compute; reflexivity|]. split; [vm_compute; reflexivity|].
    intros H. specialize (H 0%nat). vm_compute in H. exact (H eq_refl).
  - split; [vm_compute; reflexivity|]. split; [vm_compute; reflexivity|].
    vm_compute. intros [H|[]]. discriminate H.
Qed.

(** ** Sound stores *)

Lemma chat_ids_below st :
  store_ok st ->
  forall i, In i (List.map chat_id (chatRows st)) -> (0 < i < chatNext st)%N.
Proof.
  intros Hok i Hi. apply List.in_map_iff in Hi as (c & <- & Hc).
  now apply (ok_chat_ids st Hok).
Qed.

Lemma map_update_id (f : Chat -> Chat) i (rows : list Chat) :
  (forall c, chat_key (f c) = chat_key c) ->
  List.map chat_id
    (List.map (fun c => if N.eqb (chat_id c) i then f c else c) rows) =
  List.map chat_id rows.
Proof. intros Hf. apply map_key_id. now apply map_update_key. Qed.

Lemma sound_updateChat i f st :
  (forall c, chat_key (f c) = chat_key c) ->
  storeSound st -> storeSound (store_updateChat i f st).
Proof.
  intros Hf [[H1 H2 H3 H4 H5] Hd Hr].
  assert (Hid : forall c, chat_id (f c) = chat_id c).
  { intros c. specialize (Hf c). unfold chat_key in Hf. congruence. }
  constructor; [constructor|..]; simpl; try assumption.
  - intros c Hc. apply List.in_map_iff in Hc as (c0 & <- & Hc0).
    specialize (H3 c0 Hc0).
    destruct (N.eqb (chat_id c0) i); [rewrite Hid|]; exact H3.
  - now rewrite map_update_id.
  - intros m Hm. rewrite map_update_id by exact Hf. now apply Hr.
Qed.

Lemma sound_addChat c st :
  chat_id c = chatNext st ->
  storeSound st ->
  storeSound (mkStore (chatRows st ++ [c]) (N.succ (chatNext st))
                      (messageRows st) (messageNext st)).
Proof.
  intros Hc [[H1 H2 H3 H4 H5] Hd Hr].
  constructor; [constructor|..]; simpl; try assumption.
  - lia.
  - intros c' Hc'. apply in_app_or in Hc' as [Hc'|[<-|[]]].
    + specialize (H3 c' Hc'). lia.
    + lia.
  - intros m Hm. specialize (H5 m Hm). lia.
  - rewrite List.map_app. simpl. apply NoDup_app. repeat split.
    + exact Hd.
    + intros i Hi Hk. apply list_elem_of_In in Hi, Hk.
      destruct Hk as [<-|[]]. rewrite Hc in Hi.
      apply List.in_map_iff in Hi as (c0 & Hid & Hc0).
      specialize (H3 c0 Hc0). lia.
    + apply NoDup_singleton.
  - intros m Hm. rewrite List.map_app. apply in_or_app. left. now apply Hr.
Qed.

Lemma sound_addMessage m st :
  msg_id m = messageNext st ->
  In (msg_chatId m) (List.map chat_id (chatRows st)) ->
  storeSound st ->
  storeSound (mkStore (chatRows st) (chatNext st) (messageRows st ++ [m])
                      (N.succ (messageNext st))).
Proof.
  intros Hm Hin [Hok Hd Hr]. pose proof Hok as [H1 H2 H3 H4 H5].
  constructor; [constructor|..]; simpl; try assumption.
  - lia.
  - intros m' Hm'. apply in_app_or in Hm' as [Hm'|[<-|[]]].
    + specialize (H4 m' Hm'). lia.
    + lia.
  - intros m' Hm'. apply in_app_or in Hm' as [Hm'|[<-|[]]].
    + now apply H5.
    + now apply (chat_ids_below st Hok).
  - intros m' Hm'. apply in_app_or in Hm' as [Hm'|[<-|[]]].
    + now apply Hr.
    + exact Hin.
Qed.

Lemma sound_updateMessage i f st :
  (forall m, msg_id (f m) = msg_id m /\ msg_chatId (f m) = msg_chatId m) ->
  storeSound st -> storeSound (store_updateMessage i f st).
Proof.
  intros Hf [[H1 H2 H3 H4 H5] Hd Hr].
  assert (Hstep : forall P : Message -> Prop,
            (forall m, P m -> P (f m)) ->
            (forall m, In m (messageRows st) -> P m) ->
            forall m, In m (List.map (fun m => if N.eqb (msg_id m) i
                                               then f m else m)
                                     (messageRows st)) -> P m).
  { intros P HP Hall m Hm. apply List.in_map_iff in Hm as (m0 & <- & Hm0).
    destruct (N.eqb (msg_id m0) i); [apply HP|]; now apply Hall. }
  constructor; [constructor|..]; simpl; try assumption.
  - apply Hstep; [|exact H4]. intros m. now rewrite (proj1 (Hf m)).
  - apply Hstep; [|exact H5]. intros m. now rewrite (proj2 (Hf m)).
  - apply Hstep; [|exact Hr]. intros m. now rewrite (proj2 (Hf m)).
Qed.

Lemma NoDup_map_filter {A B} (f : A -> B) (p : A -> bool) (l : list A) :
  NoDup (List.map f l) -> NoDup (List.map f (List.filter p l)).
Proof.
  induction l as [|x l IH]; simpl; [constructor|].
  intros H. apply NoDup_cons in H as [Hx Hl].
  destruct (p x); simpl; [|now apply IH].
  apply NoDup_cons. split; [|now apply IH].
  intros Hin. apply Hx. apply list_elem_of_In in Hin. apply list_elem_of_In.
  apply List.in_map_iff in Hin as (y & Hy & Hiny).
  apply List.in_map_iff. exists y. split; [exact Hy|].
  now apply List.filter_In in Hiny as [Hiny _].
Qed.

Lemma sound_deleteChat cid st :
  storeSound st ->
  storeSound (store_deleteMessagesOfChat cid (store_deleteChat cid st)).
Proof.
  intros [[H1 H2 H3 H4 H5] Hd Hr].
  constructor; [constructor|..]; simpl; try assumption.
  - intros c Hc. apply List.filter_In in Hc as [Hc _]. now apply H3.
  - intros m Hm. apply List.filter_In in Hm as [Hm _]. now apply H4.
  - intros m Hm. apply List.filter_In in Hm as [Hm _]. now apply H5.
  - now apply NoDup_map_filter.
  - intros m Hm. apply List.filter_In in Hm as [Hm Hne].
    specialize (Hr m Hm). apply List.in_map_iff in Hr as (c & Hid & Hc).
    apply List.in_map_iff. exists c. split; [exact Hid|].
    apply List.filter_In. split; [exact Hc|]. now rewrite Hid.
Qed.

Lemma sound_deleteMessage i st :
  storeSound st -> storeSound (store_deleteMessage i st).
Proof.
  intros [[H1 H2 H3 H4 H5] Hd Hr].
  constructor; [constructor|..]; simpl; try assumption;
    intros m Hm; apply List.filter_In in Hm as [Hm _]; auto.
Qed.

Lemma sound_clear st :
  storeSound st -> storeSound (store_clearMessages (store_clearChats st)).
Proof.
  intros [[H1 H2 H3 H4 H5] Hd Hr].
  constructor; [constructor|..]; simpl; try assumption;
    try (intros ? []). constructor.
Qed.

Lemma sound_storeImported chatId msgs st :
  In chatId (List.map chat_id (chatRows st)) ->
  storeSound st -> storeSound (storeImported chatId msgs st).
Proof.
  revert st. induction msgs as [|m msgs IH]; intros st Hin Hs; [exact Hs|].
  cbn [storeImported]. apply IH; [exact Hin|].
  now apply sound_addMessage.
Qed.

Lemma sound_storeBundle d b st : storeSound st -> storeSound (storeBundle d b st).
Proof.
  intros Hs. unfold storeBundle. apply sound_storeImported.
  - simpl. rewrite List.map_app. apply in_or_app. right. now left.
  - now apply sound_addChat.
Qed.

(** ** Coherent states *)

Lemma shown_frame s s' :
  messageHeap s' = messageHeap s -> messages s' = messages s ->
  activeChat s' = activeChat s -> chatHeap s' = chatHeap s ->
  shown s -> shown s'.
Proof.
  intros Hh Hm Ha Hc [H1 H2].
  constructor; unfold activeChatIs, messageAt, chatAt in *;
    rewrite ?Hh, ?Hm, ?Ha, ?Hc; assumption.
Qed.

Lemma shown_nil s : messages s = [] -> shown s.
Proof.
  intros H. constructor; rewrite H; [constructor|intros l []].
Qed.

Lemma activeChatIs_active s a :
  activeChat s = Some a -> activeChatIs (chat_id (chatAt s a)) s = true.
Proof. intros H. unfold activeChatIs. rewrite H. apply N.eqb_refl. Qed.

(** A change of the chat objects that keeps the id of the active chat. *)
Lemma shown_chats s s' :
  messageHeap s' = messageHeap s -> messages s' = messages s ->
  activeChat s' = activeChat s ->
  (forall a, activeChat s = Some a ->
             chat_id (chatAt s' a) = chat_id (chatAt s a)) ->
  shown s -> shown s'.
Proof.
  intros Hh Hm Ha Hid [H1 H2].
  constructor; unfold messageAt in *; rewrite ?Hh, ?Hm; [assumption|].
  intros l Hl. specialize (H2 l Hl). unfold activeChatIs in *. rewrite Ha.
  destruct (activeChat s) as [a|]; [|discriminate].
  now rewrite (Hid a eq_refl).
Qed.

Lemma afterSwitchModel_shown model s : shown s -> shown (afterSwitchModel model s).
Proof.
  intros S. unfold afterSwitchModel.
  destruct (activeChat s) as [a|] eqn:Ha.
  - apply (shown_chats s); try reflexivity; [|exact S].
    intros a' _. unfold chatAt. simpl.
    apply alter_id_at, with_chat_model_key.
  - now apply (shown_frame s).
Qed.

Lemma opened_shown chat s : shown (opened chat s).
Proof.
  constructor; simpl.
  - apply List.Forall_forall. intros l Hl. apply in_seq in Hl.
    rewrite length_app. lia.
  - intros l Hl.
    assert (Hm : In (messageAt (opened chat s) l)
                    (store_getMessages (chat_id chat) (db s))).
    { rewrite <- (lookup_total_fresh (messageHeap s)
                    (store_getMessages (chat_id chat) (db s))).
      apply (List.in_map (fun l => (messageHeap s ++ _) !!! l)). exact Hl. }
    unfold store_getMessages in Hm. apply List.filter_In in Hm as [_ Hm].
    apply N.eqb_eq in Hm. rewrite Hm.
    unfold activeChatIs, chatAt. simpl.
    rewrite lookup_total_app_r by lia. rewrite Nat.sub_diag. simpl.
    apply N.eqb_refl.
Qed.

Lemma key_In_id (k : N * Date) (rows : list Chat) :
  In k (List.map chat_key rows) -> In (fst k) (List.map chat_id rows).
Proof.
  intros H. apply List.in_map_iff in H as (c & <- & Hc).
  now apply (List.in_map chat_id).
Qed.

Lemma keys_listed_known s :
  List.map chat_key (chatList s) = List.map chat_key (chatRows (db s)) ->
  forall l, In l (chats s) ->
            In (chat_key (chatAt s l)) (List.map chat_key (chatRows (db s))).
Proof.
  intros E l Hl. rewrite <- E. unfold chatList. rewrite List.map_map.
  now apply (List.in_map (fun l => chat_key (chatAt s l))).
Qed.

Lemma chatsKnown_frame s s' :
  chatHeap s' = chatHeap s -> chats s' = chats s ->
  chatRows (db s') = chatRows (db s) -> chatsKnown s -> chatsKnown s'.
Proof.
  intros Hh Hc Hr [H1 H2].
  constructor; unfold chatAt in *; rewrite ?Hh, ?Hc, ?Hr; assumption.
Qed.

(** Chat objects may be added, and objects may change apart from their
    keys. *)
Lemma chatsKnown_heap s s' :
  chats s' = chats s -> chatRows (db s') = chatRows (db s) ->
  (length (chatHeap s) <= length (chatHeap s'))%nat ->
  (forall l, (l < length (chatHeap s))%nat ->
             chat_key (chatAt s' l) = chat_key (chatAt s l)) ->
  chatsKnown s -> chatsKnown s'.
Proof.
  intros Hc Hr Hlen Hkey [H1 H2]. constructor; rewrite Hc.
  - eapply Forall_lt_grow; [exact Hlen|exact H1].
  - intros l Hl. rewrite Hr, Hkey; [now apply H2|].
    exact (proj1 (List.Forall_forall _ _) H1 l Hl).
Qed.

Lemma alter_key_at (f : Chat -> Chat) (a : loc) (heap : list Chat) (l : loc) :
  (forall c, chat_key (f c) = chat_key c) ->
  chat_key (alter f a heap !!! l) = chat_key (heap !!! l).
Proof.
  intros Hf.
  pose proof (map_alter_key f a heap [l] Hf) as H. simpl in H. congruence.
Qed.

(** A change that concerns neither chats nor messages. *)
Lemma coherent_frame s s' :
  db s' = db s -> chatHeap s' = chatHeap s -> chats s' = chats s ->
  activeChat s' = activeChat s -> messageHeap s' = messageHeap s ->
  messages s' = messages s -> coherent s -> coherent s'.
Proof.
  intros Hd Hh Hc Ha Hmh Hm [K H3 H4 St Sh]. constructor.
  - apply (chatsKnown_frame s); try assumption. now rewrite Hd.
  - intros a E. rewrite Hh. apply H3. congruence.
  - intros a E. unfold chatAt. rewrite Hh, Hd. apply H4. congruence.
  - now rewrite Hd.
  - now apply (shown_frame s).
Qed.

Lemma afterSwitchModel_coherent model s :
  coherent s -> coherent (afterSwitchModel model s).
Proof.
  intros C. pose proof C as [[H1 H2] H3 H4 St Sh].
  unfold afterSwitchModel. destruct (activeChat s) as [a|] eqn:Ha.
  - constructor; [constructor|..]; simpl.
    + now rewrite length_alter.
    + intros l Hl. unfold chatAt. simpl.
      rewrite alter_key_at by apply with_chat_model_key.
      rewrite map_update_key by apply with_chat_model_key. now apply H2.
    + intros a' Ha'. rewrite length_alter. apply H3. congruence.
    + intros a' Ha'. unfold chatAt. simpl.
      rewrite alter_id_at by apply with_chat_model_key.
      rewrite map_update_id by apply with_chat_model_key.
      apply H4. congruence.
    + now apply sound_updateChat; [apply with_chat_model_key|].
    + pose proof (afterSwitchModel_shown model s Sh) as S'.
      unfold afterSwitchModel in S'. now rewrite Ha in S'.
  - now apply (coherent_frame s).
Qed.

(** Opening a stored chat needs no more than a known list and a sound
    store. *)
Lemma opened_coherent chat s :
  chatsKnown s -> storeSound (db s) -> In chat (chatRows (db s)) ->
  coherent (opened chat s).
Proof.
  intros K St Hin. constructor.
  - apply (chatsKnown_heap s); try reflexivity; [| |exact K].
    + simpl. rewrite length_app. lia.
    + intros l Hl. unfold chatAt. simpl. f_equal.
      now apply lookup_total_app_l.
  - intros a [= <-]. simpl. rewrite length_app. simpl. lia.
  - intros a [= <-]. unfold chatAt. simpl.
    rewrite lookup_total_app_r by lia. rewrite Nat.sub_diag. simpl.
    now apply List.in_map.
  - exact St.
  - apply opened_shown.
Qed.

Lemma afterSwitchChat_opens chatId s :
  chatsKnown s -> storeSound (db s) ->
  In chatId (List.map chat_id (chatRows (db s))) ->
  exists chat,
    store_getChat chatId (db s) = Some chat /\
    coherent (afterSwitchChat chatId s).
Proof.
  intros K St Hin. unfold afterSwitchChat.
  destruct (store_getChat chatId (db s)) as [chat|] eqn:Hc.
  - exists chat. split; [reflexivity|].
    apply afterSwitchModel_coherent, opened_coherent; try assumption.
    now apply (store_getChat_In chatId).
  - exfalso. apply List.in_map_iff in Hin as (c & Hid & Hc').
    unfold store_getChat in Hc.
    apply (List.find_none _ _ Hc) in Hc'. simpl in Hc'.
    rewrite Hid, N.eqb_refl in Hc'. discriminate.
Qed.

Lemma afterSwitchChat_coherent chatId s :
  coherent s -> coherent (afterSwitchChat chatId s).
Proof.
  intros C. unfold afterSwitchChat.
  destruct (store_getChat chatId (db s)) as [chat|] eqn:Hc; [|exact C].
  apply afterSwitchModel_coherent, opened_coherent; try apply C.
  now apply (store_getChat_In chatId).
Qed.

Lemma afterRename_coherent newName s :
  coherent s -> coherent (afterRename newName s).
Proof.
  intros C. pose proof C as [[H1 H2] H3 H4 St Sh].
  unfold afterRename. destruct (activeChat s) as [a|] eqn:Ha; [|exact C].
  specialize (H3 a eq_refl). specialize (H4 a eq_refl).
  match goal with
  | |- coherent ?S =>
      assert (E : List.map chat_key (chatList S) =
                  List.map chat_key (chatRows (db S)))
        by (unfold chatList, chatAt; simpl; f_equal; apply lookup_total_fresh)
  end.
  constructor; [constructor|..]; [| exact (keys_listed_known _ E) |..]; simpl.
  - apply List.Forall_forall. intros l Hl. apply in_seq in Hl.
    rewrite length_app. lia.
  - intros a' Ha'. rewrite Ha in Ha'. injection Ha' as <-.
    rewrite length_app, length_alter. lia.
  - intros a' Ha'. rewrite Ha in Ha'. injection Ha' as <-.
    unfold chatAt in *. simpl.
    rewrite lookup_total_app_l by now rewrite length_alter.
    rewrite alter_id_at by apply with_chat_name_key.
    rewrite map_update_id by apply with_chat_name_key. exact H4.
  - now apply sound_updateChat; [apply with_chat_name_key|].
  - pose proof Sh as Sh'.
    apply (shown_chats s); try reflexivity; [|exact Sh].
    intros a' Ha'. rewrite Ha in Ha'. injection Ha' as <-.
    unfold chatAt. simpl.
    rewrite lookup_total_app_l by now rewrite length_alter.
    apply alter_id_at, with_chat_name_key.
Qed.

(** Showing one more message of the active chat. *)
Lemma shown_push (m : Message) s s' :
  activeChatIs (msg_chatId m) s = true ->
  messageHeap s' = messageHeap s ++ [m] ->
  messages s' = messages s ++ [length (messageHeap s)] ->
  activeChat s' = activeChat s -> chatHeap s' = chatHeap s ->
  shown s -> shown s'.
Proof.
  intros Hact Hh Hm Ha Hc [H1 H2].
  assert (E : forall c, activeChatIs c s' = activeChatIs c s).
  { intros c. unfold activeChatIs, chatAt. now rewrite Ha, Hc. }
  constructor; unfold messageAt; rewrite Hh, Hm.
  - rewrite length_app. apply Forall_app. split.
    + eapply Forall_lt_grow; [|exact H1]. lia.
    + constructor; [simpl; lia|constructor].
  - intros l Hl. rewrite E. apply in_app_or in Hl as [Hl|[<-|[]]].
    + rewrite lookup_total_app_l
        by exact (proj1 (List.Forall_forall _ _) H1 l Hl).
      now apply H2.
    + rewrite lookup_total_app_r by lia. now rewrite Nat.sub_diag.
Qed.

(** One more message of the active chat is stored and shown; nothing about
    chats changes. *)
Lemma coherent_push (m : Message) s s' a :
  activeChat s = Some a ->
  msg_chatId m = chat_id (chatAt s a) ->
  msg_id m = messageNext (db s) ->
  db s' = mkStore (chatRows (db s)) (chatNext (db s))
                  (messageRows (db s) ++ [m]) (N.succ (messageNext (db s))) ->
  messageHeap s' = messageHeap s ++ [m] ->
  messages s' = messages s ++ [length (messageHeap s)] ->
  activeChat s' = activeChat s -> chatHeap s' = chatHeap s ->
  chats s' = chats s ->
  coherent s -> coherent s'.
Proof.
  intros Ha Hcid Hid Hdb Hh Hm Hact Hch Hcs [K H3 H4 St Sh].
  assert (Hrows : chatRows (db s') = chatRows (db s)) by now rewrite Hdb.
  constructor.
  - now apply (chatsKnown_frame s).
  - intros a' Ha'. rewrite Hch. apply H3. congruence.
  - intros a' Ha'. unfold chatAt. rewrite Hch, Hrows. apply H4. congruence.
  - rewrite Hdb. apply sound_addMessage; [exact Hid| |exact St].
    rewrite Hcid. now apply H4.
  - apply (shown_push m s); try assumption.
    rewrite Hcid. now apply activeChatIs_active.
Qed.

Lemma afterSystemMessage_coherent content meta s :
  coherent s -> coherent (afterSystemMessage content meta s).
Proof.
  intros C. unfold afterSystemMessage.
  destruct (activeChat s) as [a|] eqn:Ha; [|exact C].
  destruct content as [text|]; [|exact C].
  destruct (decide (text = "")); [exact C|].
  apply (coherent_push
           (mkMessage (messageNext (db s)) (chat_id (chatAt s a)) system text
                      meta (clock s (ticks s))) s _ a Ha);
    try reflexivity.
  exact C.
Qed.

Lemma afterStartNewChat_coherent name s :
  chatsKnown s -> storeSound (db s) -> coherent (afterStartNewChat name s).
Proof.
  intros K St. unfold afterStartNewChat.
  apply afterSystemMessage_coherent. pose proof K as [H1 H2]. constructor.
  - constructor; simpl.
    + rewrite length_app. apply Forall_app. split.
      * eapply Forall_lt_grow; [|exact H1]. lia.
      * constructor; [simpl; lia|constructor].
    + intros l Hl. unfold chatAt. simpl. rewrite List.map_app.
      apply in_or_app. apply in_app_or in Hl as [Hl|[<-|[]]].
      * left. rewrite lookup_total_app_l
          by exact (proj1 (List.Forall_forall _ _) H1 l Hl).
        now apply H2.
      * right. rewrite lookup_total_app_r by lia.
        rewrite Nat.sub_diag. now left.
  - intros a [= <-]. simpl. rewrite length_app. simpl. lia.
  - intros a [= <-]. unfold chatAt. simpl.
    rewrite lookup_total_app_r by lia. rewrite Nat.sub_diag. simpl.
    rewrite List.map_app. apply in_or_app. right. now left.
  - simpl. now apply sound_addChat.
  - now apply shown_nil.
Qed.

Lemma removed_chatsKnown chatId s : chatsKnown s -> chatsKnown (removed chatId s).
Proof.
  intros [H1 H2]. constructor; simpl.
  - apply List.Forall_forall. intros l Hl. apply List.filter_In in Hl as [Hl _].
    exact (proj1 (List.Forall_forall _ _) H1 l Hl).
  - intros l Hl. apply List.filter_In in Hl as [Hl Hne].
    specialize (H2 l Hl). apply List.in_map_iff in H2 as (c & Hk & Hc).
    apply List.in_map_iff. exists c. split; [exact Hk|].
    apply List.filter_In. split; [exact Hc|].
    unfold chat_key, chatAt in *. simpl in *.
    replace (chat_id c) with (chat_id (chatHeap s !!! l)) by congruence.
    exact Hne.
Qed.

Lemma newest_known s newest rest :
  chatsKnown s -> sortedChats s = newest :: rest ->
  In (chat_id (chatAt s newest)) (List.map chat_id (chatRows (db s))).
Proof.
  intros K Hs. destruct (sortedChats_newest _ _ _ Hs) as [Hin _].
  exact (key_In_id _ _ (known_keys s K newest Hin)).
Qed.

Lemma afterDeleteChat_coherent chatId s :
  coherent s -> coherent (afterDeleteChat chatId s).
Proof.
  intros C. pose proof C as [K H3 H4 St Sh].
  pose proof (removed_chatsKnown chatId s K) as K1.
  assert (St1 : storeSound (db (removed chatId s)))
    by now apply sound_deleteChat.
  unfold afterDeleteChat.
  destruct (activeChatIs chatId (removed chatId s)) eqn:Hact.
  - destruct (sortedChats (removed chatId s)) as [|newest rest] eqn:Hs.
    + now apply afterStartNewChat_coherent.
    + now destruct (afterSwitchChat_opens _ _ K1 St1
                      (newest_known _ _ _ K1 Hs)) as (chat & _ & C').
  - constructor; try assumption.
    + intros a Ha. simpl in Ha. simpl.
      unfold activeChatIs in Hact. simpl in Hact. rewrite Ha in Hact.
      pose proof (H4 a Ha) as Hin.
      apply List.in_map_iff in Hin as (c & Hid & Hc).
      apply List.in_map_iff. exists c. split; [exact Hid|].
      apply List.filter_In. split; [exact Hc|].
      unfold chatAt in *. simpl in Hact. now rewrite Hid, Hact.
    + now apply (shown_frame s).
Qed.

Lemma wiped_chatsKnown s : chatsKnown (wiped s).
Proof. constructor; simpl; [constructor|intros l []]. Qed.

Lemma afterWipe_coherent s : storeSound (db s) -> coherent (afterWipe s).
Proof.
  intros St. apply afterStartNewChat_coherent.
  - apply wiped_chatsKnown.
  - simpl. now apply sound_clear.
Qed.

Lemma loaded_chatsKnown s : chatsKnown (loaded s).
Proof.
  destruct (loaded_chatsListed s) as [H1 H2]. constructor; [exact H1|].
  now apply keys_listed_known.
Qed.

(** [initialize] makes any state with a sound store coherent. *)
Lemma afterInitialize_coherent s :
  storeSound (db s) -> coherent (afterInitialize s).
Proof.
  intros St. pose proof (loaded_chatsKnown s) as K. unfold afterInitialize.
  destruct (chats (loaded s)) as [|l ls] eqn:Hc.
  - now apply afterStartNewChat_coherent.
  - destruct (sortedChats_nonempty _ _ _ Hc) as (newest & rest & Hs).
    rewrite Hs.
    now destruct (afterSwitchChat_opens _ (loaded s) K St
                    (newest_known _ _ _ K Hs)) as (chat & _ & C').
Qed.

Lemma afterImport_coherent d b s : coherent s -> coherent (afterImport d b s).
Proof.
  intros [[H1 H2] H3 H4 St Sh]. constructor; [constructor|..]; simpl.
  - rewrite length_app. apply Forall_app. split.
    + eapply Forall_lt_grow; [|exact H1]. lia.
    + constructor; [simpl; lia|constructor].
  - intros l Hl. unfold chatAt. simpl.
    rewrite storeBundle_chatRows, List.map_app. apply in_or_app.
    apply in_app_or in Hl as [Hl|[<-|[]]].
    + left. rewrite lookup_total_app_l
        by exact (proj1 (List.Forall_forall _ _) H1 l Hl).
      now apply H2.
    + right. rewrite lookup_total_app_r by lia.
      rewrite Nat.sub_diag. now left.
  - intros a Ha. rewrite length_app. specialize (H3 a Ha). lia.
  - intros a Ha. unfold chatAt in *. simpl.
    rewrite lookup_total_app_l by now apply H3.
    rewrite storeBundle_chatRows, List.map_app. apply in_or_app. left.
    now apply H4.
  - now apply sound_storeBundle.
  - apply (shown_chats s); try reflexivity; [|exact Sh].
    intros a Ha. unfold chatAt. simpl. f_equal.
    apply lookup_total_app_l. now apply H3.
Qed.

Lemma afterImports_coherent data s : coherent s -> coherent (afterImports data s).
Proof.
  unfold afterImports. revert s.
  induction data as [|b data IH]; intros s C; [exact C|].
  simpl. apply IH. unfold afterImportOne.
  destruct (exp_createdAt b) as [d|]; [now apply afterImport_coherent|].
  destruct (exp_messages b) as [|first rest];
    [|now apply afterImport_coherent].
  now apply (coherent_frame s).
Qed.

Lemma afterCommand_coherent c s : coherent s -> coherent (afterCommand c s).
Proof.
  intros C. destruct c; simpl.
  - apply afterInitialize_coherent, C.
  - now apply afterSwitchChat_coherent.
  - now apply afterSwitchModel_coherent.
  - now apply afterRename_coherent.
  - apply afterStartNewChat_coherent; apply C.
  - now apply afterSystemMessage_coherent.
  - apply afterWipe_coherent, C.
  - now apply afterDeleteChat_coherent.
  - now apply (coherent_frame s).
  - now apply afterImports_coherent.
Qed.

Lemma with_msg_content_keys text m :
  msg_id (with_msg_content text m) = msg_id m /\
  msg_chatId (with_msg_content text m) = msg_chatId m.
Proof. now split. Qed.

Lemma alter_chatId_at (f : Message -> Message) (a : loc) (heap : list Message)
    (l : loc) :
  (forall m, msg_chatId (f m) = msg_chatId m) ->
  msg_chatId (alter f a heap !!! l) = msg_chatId (heap !!! l).
Proof.
  intros Hf. destruct (decide (a = l)) as [->|Hne].
  - destruct (decide (l < length heap)%nat) as [Hl|Hl].
    + rewrite list_lookup_total_alter_eq by exact Hl. apply Hf.
    + rewrite !list_lookup_total_alt, list_lookup_alter_eq.
      now rewrite (lookup_ge_None_2 heap l) by lia.
  - now rewrite list_lookup_total_alter_ne.
Qed.

(** The visible list has just been reloaded with the messages of the
    active chat. *)
Lemma shown_reload (heap rows : list Message) cid s :
  messageHeap s = heap ++ rows ->
  messages s = seq (length heap) (length rows) ->
  Forall (fun m => msg_chatId m = cid) rows ->
  activeChatIs cid s = true ->
  shown s.
Proof.
  intros Hh Hm Hrows Hact. constructor; rewrite Hm.
  - rewrite Hh, length_app. apply List.Forall_forall. intros x Hx.
    apply in_seq in Hx. lia.
  - intros x Hx. unfold messageAt. rewrite Hh.
    assert (Hin : In ((heap ++ rows) !!! x) rows).
    { rewrite <- (lookup_total_fresh heap rows) at 2.
      now apply (List.in_map (fun l => (heap ++ rows) !!! l)). }
    now rewrite (proj1 (List.Forall_forall _ _) Hrows _ Hin).
Qed.

Lemma store_getMessages_chatId cid st :
  Forall (fun m => msg_chatId m = cid) (store_getMessages cid st).
Proof.
  apply List.Forall_forall. intros m Hm. unfold store_getMessages in Hm.
  apply List.filter_In in Hm as [_ Hm]. now apply N.eqb_eq.
Qed.

Lemma afterPart_coherent cid l p s :
  coherent s -> coherent (afterPart cid l p s).
Proof.
  intros [K H3 H4 St Sh]. pose proof (afterPart_frame cid l p s) as F.
  constructor.
  - apply (chatsKnown_frame s); try apply F. exact K.
  - intros a Ha. rewrite (frame_chatHeap _ _ F). apply H3.
    now rewrite <- (frame_activeChat _ _ F).
  - intros a Ha. unfold chatAt.
    rewrite (frame_chatHeap _ _ F), (frame_chatRows _ _ F). apply H4.
    now rewrite <- (frame_activeChat _ _ F).
  - unfold afterPart. destruct (activeChatIs cid s); simpl;
      apply sound_updateMessage; try exact St;
      intros m; apply with_msg_content_keys.
  - pose proof (activeChatIs_frame cid _ _ F) as Hact'.
    unfold afterPart in *. destruct (activeChatIs cid s) eqn:Hact.
    + eapply shown_reload; [reflexivity|reflexivity| |exact Hact'].
      apply store_getMessages_chatId.
    + destruct Sh as [H1 H2]. constructor; simpl.
      * now rewrite length_alter.
      * intros x Hx. specialize (H2 x Hx).
        unfold messageAt in *. simpl.
        rewrite alter_chatId_at by reflexivity. exact H2.
Qed.

Lemma afterItems_coherent cid items s :
  coherent s -> coherent (afterItems cid items s).
Proof.
  unfold afterItems. revert s.
  induction items as [|item items IH]; intros s C; [exact C|].
  simpl. apply IH. destruct item as [p|c]; simpl.
  - destruct (ongoingAiMessages s !! cid) as [l|]; [|exact C].
    now apply afterPart_coherent.
  - now apply afterCommand_coherent.
Qed.

Lemma settle_coherent cid text ending s :
  coherent s -> coherent (settle cid text ending s).
Proof.
  intros C. apply (coherent_frame s); try exact C;
    destruct ending as [|e]; simpl; try destruct (isAbortError e);
      reflexivity.
Qed.

Lemma afterUserMessage_coherent content s a :
  activeChat s = Some a ->
  coherent s ->
  coherent (afterUserMessage (chat_id (chatAt s a)) content s).
Proof.
  intros Ha C.
  apply (coherent_push
           (mkMessage (messageNext (db s)) (chat_id (chatAt s a)) user content
                      None (clock s (ticks s))) s _ a Ha);
    try reflexivity.
  exact C.
Qed.

Lemma afterRequest_coherent s a :
  activeChat s = Some a ->
  coherent s ->
  coherent (afterRequest (chat_id (chatAt s a)) s).
Proof.
  intros Ha C.
  apply (coherent_push
           (mkMessage (messageNext (db s)) (chat_id (chatAt s a)) assistant ""
                      None (clock s (ticks s))) s _ a Ha);
    try reflexivity.
  exact C.
Qed.

Lemma In_removelast {A} (x : A) (l : list A) : In x (removelast l) -> In x l.
Proof.
  induction l as [|y [|z l] IH]; simpl; [tauto|tauto|].
  intros [->|H]; [now left|right]. now apply IH.
Qed.

Lemma afterTrim_chats s :
  chatHeap (afterTrim s) = chatHeap s /\ chats (afterTrim s) = chats s /\
  activeChat (afterTrim s) = activeChat s /\
  chatRows (db (afterTrim s)) = chatRows (db s).
Proof.
  unfold afterTrim.
  destruct (last (messages s)) as [l|]; [|now repeat split].
  destruct (decide (msg_role (messageAt s l) = assistant)); [|now repeat split].
  destruct (N.eqb (msg_id (messageAt s l)) 0); now repeat split.
Qed.

Lemma afterTrim_coherent s : coherent s -> coherent (afterTrim s).
Proof.
  intros C. pose proof C as [K H3 H4 St [H1 H2]].
  destruct (afterTrim_chats s) as (Eh & Ec & Ea & Er).
  constructor.
  - now apply (chatsKnown_frame s).
  - intros a Ha. rewrite Eh. apply H3. congruence.
  - intros a Ha. unfold chatAt. rewrite Eh, Er. apply H4. congruence.
  - unfold afterTrim.
    destruct (last (messages s)) as [l|]; [|exact St].
    destruct (decide (msg_role (messageAt s l) = assistant)); [|exact St].
    destruct (N.eqb (msg_id (messageAt s l)) 0); simpl; [exact St|].
    now apply sound_deleteMessage.
  - unfold afterTrim.
    destruct (last (messages s)) as [l|]; [|now constructor].
    destruct (decide (msg_role (messageAt s l) = assistant));
      [|now constructor].
    destruct (N.eqb (msg_id (messageAt s l)) 0); constructor; simpl;
      try (now apply Forall_removelast);
      intros x Hx; apply In_removelast in Hx; now apply H2.
Qed.

(** Every request keeps a coherent state coherent. *)
Lemma step_coherent r s : coherent s -> coherent (step r s).
Proof.
  intros C. rewrite step_eq.
  destruct r as [c|content [items ending]|[items ending]]; simpl.
  - now apply afterCommand_coherent.
  - destruct (activeChat s) as [a|] eqn:Ha.
    + apply settle_coherent, afterItems_coherent.
      apply (afterRequest_coherent
               (afterUserMessage (chat_id (chatAt s a)) content s) a Ha).
      now apply afterUserMessage_coherent.
    + now apply (coherent_frame s).
  - destruct (activeChat s) as [a|] eqn:Ha; [|exact C].
    apply settle_coherent, afterItems_coherent.
    destruct (afterTrim_chats s) as (Eh & _ & Ea & _).
    assert (Ha' : activeChat (afterTrim s) = Some a) by congruence.
    assert (Hid : chat_id (chatAt (afterTrim s) a) = chat_id (chatAt s a))
      by (unfold chatAt; now rewrite Eh).
    rewrite <- Hid.
    apply (afterRequest_coherent (afterTrim s) a Ha').
    now apply afterTrim_coherent.
Qed.

Lemma run_coherent rs s : coherent s -> coherent (run rs s).
Proof.
  unfold run. revert s. induction rs as [|r rs IH]; intros s C; [exact C|].
  simpl. now apply IH, step_coherent.
Qed.

(** A freshly loaded page with a sound store is coherent, and so is every
    state that follows. *)
Lemma boot_coherent st model historyLength prompts time :
  storeSound st -> coherent (boot st model historyLength prompts time).
Proof.
  intros St. constructor; simpl; try assumption; try discriminate.
  - constructor; simpl; [constructor|intros l []].
  - now apply shown_nil.
Qed.

Lemma session_coherent st model historyLength prompts time rs :
  storeSound st ->
  coherent (run rs (boot st model historyLength prompts time)).
Proof. intros St. now apply run_coherent, boot_coherent. Qed.

(** ** Deleting a chat *)

Lemma afterSystemMessage_chats content meta s :
  chatRows (db (afterSystemMessage content meta s)) = chatRows (db s) /\
  chatHeap (afterSystemMessage content meta s) = chatHeap s /\
  activeChat (afterSystemMessage content meta s) = activeChat s /\
  forall m, In m (messageRows (db (afterSystemMessage content meta s))) ->
    In m (messageRows (db s)) \/
    exists a, activeChat s = Some a /\ msg_chatId m = chat_id (chatAt s a).
Proof.
  unfold afterSystemMessage.
  destruct (activeChat s) as [a|] eqn:Ha; [|now repeat split; auto].
  destruct content as [text|]; [|now repeat split; auto].
  destruct (decide (text = "")); [now repeat split; auto|].
  simpl. repeat split; try assumption.
  intros m Hm. apply in_app_or in Hm as [Hm|[<-|[]]]; [now left|right].
  now exists a.
Qed.

Lemma afterStartNewChat_facts name s :
  let chat :=
    mkChat (chatNext (db s)) name (currentModel s) (clock s (ticks s)) in
  let s' := afterStartNewChat name s in
  chatRows (db s') = chatRows (db s) ++ [chat] /\
  activeChatValue s' = Some chat /\
  forall m, In m (messageRows (db s')) ->
    In m (messageRows (db s)) \/ msg_chatId m = chatNext (db s).
Proof.
  intros chat s'. subst s'. unfold afterStartNewChat.
  destruct (afterSystemMessage_chats (systemMessages s (currentModel s)) None
              (started name s)) as (Hr & Hh & Ha & Hm).
  assert (Hchat : chatAt (started name s) (length (chatHeap s)) = chat).
  { unfold chatAt. simpl. rewrite lookup_total_app_r by lia.
    now rewrite Nat.sub_diag. }
  split; [now rewrite Hr|]. split.
  - unfold activeChatValue, chatAt. rewrite Ha, Hh. simpl.
    f_equal. exact Hchat.
  - intros m Hin. destruct (Hm m Hin) as [H|(a & Ha' & Hid)]; [now left|].
    right. simpl in Ha'. injection Ha' as <-. now rewrite Hid, Hchat.
Qed.

Lemma with_chat_model_same c : with_chat_model (chat_model c) c = c.
Proof. now destruct c. Qed.

Lemma afterSwitchChat_facts chatId s chat :
  store_getChat chatId (db s) = Some chat ->
  let s' := afterSwitchChat chatId s in
  List.map chat_id (chatRows (db s')) = List.map chat_id (chatRows (db s)) /\
  messageRows (db s') = messageRows (db s) /\
  activeChatValue s' = Some chat.
Proof.
  intros Hc s'. subst s'. unfold afterSwitchChat. rewrite Hc.
  unfold afterSwitchModel. simpl. repeat split.
  - apply map_update_id, with_chat_model_key.
  - unfold activeChatValue, chatAt. simpl. f_equal.
    rewrite list_lookup_total_alter_eq
      by (rewrite length_app; simpl; lia).
    rewrite lookup_total_app_r by lia. rewrite Nat.sub_diag. simpl.
    apply with_chat_model_same.
Qed.

Lemma NoDup_map_same {A B} (f : A -> B) (l : list A) x y :
  NoDup (List.map f l) -> In x l -> In y l -> f x = f y -> x = y.
Proof.
  induction l as [|z l IH]; simpl; [tauto|].
  intros H. apply NoDup_cons in H as [Hz Hl].
  assert (Hnot : forall w, In w l -> f z <> f w).
  { intros w Hw E. apply Hz. rewrite E. apply list_elem_of_In.
    now apply List.in_map. }
  intros [<-|Hx] [<-|Hy] E; try reflexivity.
  - now destruct (Hnot y Hy).
  - symmetry in E. now destruct (Hnot x Hx).
  - now apply IH.
Qed.

Lemma keys_In {A B K} (ka : A -> K) (kb : B -> K) (l : list A) (k : list B) x :
  List.map ka l = List.map kb k -> In x l -> exists y, In y k /\ kb y = ka x.
Proof.
  intros E Hx. apply (List.in_map ka) in Hx. rewrite E in Hx.
  apply List.in_map_iff in Hx as (y & Hy & Hin). now exists y.
Qed.

Lemma map_filter_comm {A B} (f : A -> B) (p : B -> bool) (l : list A) :
  List.map f (List.filter (fun x => p (f x)) l) = List.filter p (List.map f l).
Proof.
  induction l as [|x l IH]; simpl; [reflexivity|].
  destruct (p (f x)); simpl; now rewrite IH.
Qed.

Lemma removed_chatList chatId s :
  chatList (removed chatId s) =
  List.filter (fun c => negb (N.eqb (chat_id c) chatId)) (chatList s).
Proof.
  unfold chatList. simpl.
  apply (map_filter_comm (chatAt s)
           (fun c => negb (N.eqb (chat_id c) chatId))).
Qed.

Lemma afterSystemMessage_chatList content meta s :
  chatList (afterSystemMessage content meta s) = chatList s.
Proof.
  unfold afterSystemMessage.
  destruct (activeChat s) as [a|]; [|reflexivity].
  destruct content as [text|]; [|reflexivity].
  now destruct (decide (text = "")).
Qed.

Lemma afterStartNewChat_chatList name s :
  chatsKnown s ->
  chatList (afterStartNewChat name s) =
  chatList s ++
  [mkChat (chatNext (db s)) name (currentModel s) (clock s (ticks s))].
Proof.
  intros [H1 _]. unfold afterStartNewChat.
  rewrite afterSystemMessage_chatList. unfold chatList, chatAt. simpl.
  rewrite List.map_app. simpl.
  rewrite lookup_total_app_r by lia. rewrite Nat.sub_diag. simpl.
  f_equal. now apply lookup_total_old.
Qed.

Lemma afterSwitchChat_chatList chatId s :
  chatsKnown s -> chatList (afterSwitchChat chatId s) = chatList s.
Proof.
  intros [H1 _]. unfold afterSwitchChat.
  destruct (store_getChat chatId (db s)) as [chat|]; [|reflexivity].
  unfold afterSwitchModel, chatList, chatAt. simpl.
  apply List.map_ext_in. intros l Hl.
  pose proof (proj1 (List.Forall_forall _ _) H1 l Hl) as Hlt. simpl in Hlt.
  rewrite list_lookup_total_alter_ne by lia.
  now apply lookup_total_app_l.
Qed.

(** C7.  In a coherent state, and so at any moment of a session on a sound
    store, [deleteChat chatId] leaves no chat with that id and no message of
    that chat, neither in the store nor in the chat list and the visible
    messages, and every message left in the store still belongs to a stored
    chat.  When the deleted chat was the active one, the newest of the
    chats that remain in the chat list becomes active (read again from the
    store), or, when none remains, a chat named "New chat" is created and
    becomes active; otherwise the active chat stays. *)
Theorem deleteChat_removes_chat_and_messages (chatId : N) (s : State) :
  coherent s ->
  let s' := exec (deleteChat chatId) s in
  let remaining :=
    List.filter (fun c => negb (N.eqb (chat_id c) chatId)) (chatList s) in
  (~ In chatId (List.map chat_id (chatRows (db s'))) /\
   forall m, In m (messageRows (db s')) -> msg_chatId m <> chatId) /\
  (~ In chatId (List.map chat_id (chatList s')) /\
   forall m, In m (messageList s') -> msg_chatId m <> chatId) /\
  (forall m, In m (messageRows (db s')) ->
             In (msg_chatId m) (List.map chat_id (chatRows (db s')))) /\
  (if activeChatIs chatId s then
     match remaining with
     | [] =>
         let chat := mkChat (chatNext (db s)) "New chat" (currentModel s)
                            (clock s (ticks s)) in
         activeChatValue s' = Some chat /\
         In chat (chatRows (db s')) /\
         chatList s' = [chat]
     | _ :: _ =>
         exists newest,
           activeChatValue s' = Some newest /\
           In newest (chatRows (db s)) /\
           In (chat_key newest) (List.map chat_key remaining) /\
           forall c, In c remaining ->
                     chat_createdAt c <= chat_createdAt newest
     end
   else activeChatValue s' = activeChatValue s).
Proof.
  intros C s' remaining. subst s'. unfold exec. rewrite deleteChat_eq. simpl.
  pose proof (afterDeleteChat_coherent chatId s C) as C'.
  pose proof C as [K H3 H4 St Sh].
  pose proof (removed_chatsKnown chatId s K) as K1.
  assert (St1 : storeSound (db (removed chatId s)))
    by now apply sound_deleteChat.
  assert (Hact1 : activeChatIs chatId (removed chatId s) = activeChatIs chatId s)
    by reflexivity.
  assert (Hlist1 : chatList (removed chatId s) = remaining)
    by apply removed_chatList.
  assert (Hgone1 : ~ In chatId (List.map chat_id
                                  (chatRows (db (removed chatId s))))).
  { simpl. intros Hin. apply List.in_map_iff in Hin as (c & Hid & Hc).
    apply List.filter_In in Hc as [_ Hc]. rewrite Hid, N.eqb_refl in Hc.
    discriminate. }
  assert (Hgone2 : ~ In chatId (List.map chat_id remaining)).
  { intros Hin. apply List.in_map_iff in Hin as (c & Hid & Hc).
    apply List.filter_In in Hc as [_ Hc]. rewrite Hid, N.eqb_refl in Hc.
    discriminate. }
  assert (Hmsg1 : forall m, In m (messageRows (db (removed chatId s))) ->
                            msg_chatId m <> chatId).
  { simpl. intros m Hm E. apply List.filter_In in Hm as [_ Hm].
    rewrite E, N.eqb_refl in Hm. discriminate. }
  assert (Hbelow : activeChatIs chatId s = true -> (chatId < chatNext (db s))%N).
  { unfold activeChatIs. destruct (activeChat s) as [a|] eqn:Ha;
      [|discriminate].
    intros E. apply N.eqb_eq in E. rewrite <- E.
    now apply (chat_ids_below _ (sound_ok _ St)), H4. }
  (* the store *)
  assert (Hstore :
    ~ In chatId (List.map chat_id (chatRows (db (afterDeleteChat chatId s)))) /\
    forall m, In m (messageRows (db (afterDeleteChat chatId s))) ->
              msg_chatId m <> chatId).
  { unfold afterDeleteChat. rewrite Hact1.
    destruct (activeChatIs chatId s) eqn:Hact; [|split; assumption].
    specialize (Hbelow eq_refl).
    destruct (sortedChats (removed chatId s)) as [|newest rest] eqn:Hs.
    - destruct (afterStartNewChat_facts "New chat" (removed chatId s))
        as (Hr & _ & Hm).
      split.
      + rewrite Hr, List.map_app. intros Hin.
        apply in_app_or in Hin as [Hin|[Hin|[]]]; [now apply Hgone1|].
        simpl in Hin. lia.
      + intros m Hin. destruct (Hm m Hin) as [H|H]; [now apply Hmsg1|].
        simpl in H. lia.
    - destruct (afterSwitchChat_opens _ _ K1 St1 (newest_known _ _ _ K1 Hs))
        as (chat & Hc & _).
      destruct (afterSwitchChat_facts _ _ _ Hc) as (Hr & Hm & _).
      split; [now rewrite Hr|]. now rewrite Hm. }
  split; [exact Hstore|].
  split.
  { split.
    - unfold afterDeleteChat. rewrite Hact1.
      destruct (activeChatIs chatId s) eqn:Hact; [|now rewrite Hlist1].
      specialize (Hbelow eq_refl).
      destruct (sortedChats (removed chatId s)) as [|newest rest] eqn:Hs.
      + rewrite (afterStartNewChat_chatList _ _ K1), Hlist1, List.map_app.
        intros Hin. apply in_app_or in Hin as [Hin|[Hin|[]]];
          [now apply Hgone2|].
        simpl in Hin. lia.
      + now rewrite (afterSwitchChat_chatList _ _ K1), Hlist1.
    - intros m Hm. unfold messageList in Hm.
      apply List.in_map_iff in Hm as (l & <- & Hl).
      pose proof (shown_active _ (coh_shown _ C') l Hl) as Hbel.
      unfold activeChatIs in Hbel.
      destruct (activeChat (afterDeleteChat chatId s)) as [a|] eqn:Ha;
        [|discriminate].
      apply N.eqb_eq in Hbel. rewrite <- Hbel. intros E.
      apply (proj1 Hstore).
      pose proof (coh_active _ C' a Ha) as Hin.
      now rewrite E in Hin. }
  split; [exact (sound_refs _ (coh_store _ C'))|].
  (* the active chat *)
  unfold afterDeleteChat. rewrite Hact1.
  destruct (activeChatIs chatId s) eqn:Hact; [|reflexivity].
  destruct (sortedChats (removed chatId s)) as [|newest rest] eqn:Hs.
  - assert (Hnil : remaining = []).
    { rewrite <- Hlist1. unfold chatList.
      destruct (chats (removed chatId s)) as [|l ls] eqn:Hch; [reflexivity|].
      destruct (sortedChats_nonempty _ _ _ Hch) as (n & r & E).
      rewrite E in Hs. discriminate. }
    rewrite Hnil.
    destruct (afterStartNewChat_facts "New chat" (removed chatId s))
      as (Hr & Ha & _).
    split; [exact Ha|]. split.
    + rewrite Hr. apply in_or_app. right. now left.
    + now rewrite (afterStartNewChat_chatList _ _ K1), Hlist1, Hnil.
  - destruct (sortedChats_newest _ _ _ Hs) as [Hin Hmax].
    destruct (afterSwitchChat_opens _ _ K1 St1 (newest_known _ _ _ K1 Hs))
      as (chat & Hc & _).
    destruct (afterSwitchChat_facts _ _ _ Hc) as (_ & _ & Ha).
    pose proof (store_getChat_In _ _ _ Hc) as Hchat.
    pose proof (store_getChat_id _ _ _ Hc) as Hid.
    assert (Hkey : chat_key chat = chat_key (chatAt (removed chatId s) newest)).
    { pose proof (known_keys _ K1 newest Hin) as Hk.
      apply List.in_map_iff in Hk as (c0 & Hk0 & Hc0).
      assert (c0 = chat); [|congruence].
      apply (NoDup_map_same chat_id (chatRows (db (removed chatId s))));
        try assumption.
      - apply (sound_distinct _ St1).
      - unfold chat_key in Hk0. congruence. }
    assert (Hin' : In (chatAt (removed chatId s) newest) remaining).
    { rewrite <- Hlist1. now apply (List.in_map (chatAt _)). }
    destruct remaining as [|c0 rem] eqn:Hrem; [destruct Hin'|].
    exists chat. split; [exact Ha|]. split.
    { simpl in Hchat. now apply List.filter_In in Hchat as [Hchat _]. }
    split.
    { rewrite Hkey. now apply (List.in_map chat_key). }
    intros c Hcin. rewrite <- Hlist1 in Hcin. unfold chatList in Hcin.
    apply List.in_map_iff in Hcin as (l & <- & Hl).
    unfold chat_key in Hkey. injection Hkey as _ Hdate. rewrite Hdate.
    now apply Hmax.
Qed.

(** Once [initialize()] has loaded the list, the chats that remain in the
    chat list are the chats that remain in the store. *)
Lemma remaining_listed chatId s :
  listed s ->
  List.map chat_key
    (List.filter (fun c => negb (N.eqb (chat_id c) chatId)) (chatList s)) =
  List.map chat_key
    (List.filter (fun c => negb (N.eqb (chat_id c) chatId))
                 (chatRows (db s))).
Proof.
  intros L.
  apply (filter_map_key _ _ _ _ (fun k => negb (N.eqb (fst k) chatId)));
    [reflexivity|reflexivity|apply L].
Qed.

Lemma empty_store_sound : storeSound (mkStore [] 1 [] 1).
Proof.
  constructor; [apply store_okb_ok; reflexivity|constructor|intros m []].
Qed.

Lemma sampleSession_coherent : coherent sampleSession.
Proof. apply session_coherent, empty_store_sound. Qed.

Lemma deleteChat_removes_chat_and_messages_witness :
  coherent sampleSession /\
  ~ In 2%N (List.map chat_id
              (chatRows (db (exec (deleteChat 2) sampleSession)))) /\
  forall m, In m (messageRows (db (exec (deleteChat 2) sampleSession))) ->
            msg_chatId m <> 2%N.
Proof.
  split; [exact sampleSession_coherent|].
  exact (proj1 (deleteChat_removes_chat_and_messages
                  2 sampleSession sampleSession_coherent)).
Defined.

Example deleteChat_sample :
  let s := sampleSession in
  let s' := exec (deleteChat 2) s in
  List.map chat_id (chatRows (db s)) = [1; 2]%N /\
  List.map msg_chatId (messageRows (db s)) = [1; 1; 1; 2]%N /\
  option_map chat_id (activeChatValue s) = Some 2%N /\
  List.map chat_id (chatRows (db s')) = [1]%N /\
  List.map msg_chatId (messageRows (db s')) = [1; 1; 1]%N /\
  List.map chat_id (chatList s') = [1]%N /\
  option_map chat_id (activeChatValue s') = Some 1%N /\
  List.map msg_chatId (messageList s') = [1; 1; 1]%N.
Proof. vm_compute. repeat split. Qed.

(** Before [initialize()] the chat list is empty, so that deleting the
    active chat starts a new chat even when the store holds other chats. *)
Example deleteChat_before_initialize :
  let s :=
    run [Plain (SwitchChat 1)]
        (boot (mkStore [mkChat 1 "a" "llama3" 0; mkChat 2 "b" "llama3" 5] 3
                       [] 1)
              "llama3" (Some 2) (fun _ => None) (fun n => Z.of_nat n)) in
  let s' := exec (deleteChat 1) s in
  chatList s = [] /\
  List.map chat_id (chatRows (db s')) = [2; 3]%N /\
  List.map chat_id (chatList s') = [3]%N /\
  option_map chat_id (activeChatValue s') = Some 3%N.
Proof. vm_compute. repeat split. Qed.

(** ** Bundles that cannot be imported *)

Lemma afterImports_app before after s :
  afterImports (before ++ after) s = afterImports after (afterImports before s).
Proof. unfold afterImports. apply List.fold_left_app. Qed.

(** C10, as amended.  [importChats] itself never faults: it returns
    normally for every list of bundles.  What faults, for a bundle without
    [createdAt] and with an empty message list, is the callback of that
    bundle, which nobody awaits: it throws a [TypeError] while it reads
    [messages[0].createdAt], before anything is stored.  The chat is not
    imported and nothing is logged; all that the bundle leaves, once the
    callbacks have settled, is one unhandled rejection, and the bundles
    before and after it in the list are imported as they would be without
    it. *)
Theorem importChatData_faults_on_bare_bundle
    (chatData : ChatExport) (s : State) :
  exp_createdAt chatData = None ->
  exp_messages chatData = [] ->
  importChatData chatData s = (Threw TypeError, s) /\
  (forall jsonData s0, outcome (importChats jsonData) s0 = Returned tt) /\
  importChats [chatData] s =
    (Returned tt, set_unhandled (unhandled s ++ [TypeError]) s) /\
  (forall before after,
     let mid := exec (importChats before) s in
     exec (importChats (before ++ chatData :: after)) s =
     exec (importChats after)
          (set_unhandled (unhandled mid ++ [TypeError]) mid)).
Proof.
  intros Hd Hm.
  assert (E : importChatData chatData s = (Threw TypeError, s)).
  { unfold importChatData. now rewrite Hd, Hm. }
  split; [exact E|]. split; [|split].
  - intros jsonData s0. unfold outcome. now rewrite importChats_eq.
  - unfold importChats, forEach_async, detached, try_catch, bind.
    now rewrite E.
  - intros before after mid. subst mid. unfold exec.
    rewrite !importChats_eq. simpl snd.
    rewrite afterImports_app.
    change (afterImports (chatData :: after) (afterImports before s))
      with (afterImports after
              (afterImportOne chatData (afterImports before s))).
    unfold afterImportOne at 1. now rewrite Hd, Hm.
Qed.

Lemma importChatData_faults_on_bare_bundle_witness :
  exp_createdAt (mkChatExport 7 "old" "llama3" None []) = None /\
  exp_messages (mkChatExport 7 "old" "llama3" None []) = [] /\
  importChatData (mkChatExport 7 "old" "llama3" None []) sampleReady =
    (Threw TypeError, sampleReady) /\
  importChats [mkChatExport 7 "old" "llama3" None []] sampleReady =
    (Returned tt,
     set_unhandled (unhandled sampleReady ++ [TypeError]) sampleReady).
Proof.
  split; [reflexivity|]. split; [reflexivity|].
  pose proof (importChatData_faults_on_bare_bundle
                (mkChatExport 7 "old" "llama3" None []) sampleReady
                eq_refl eq_refl) as (H1 & _ & H2 & _).
  split; [exact H1|exact H2].
Defined.

(** C10 fails as stated: on a bundle without [createdAt] and without
    messages [importChats] does not fault.  It returns normally, as it does
    on every input; the store, the chat list and the console are as before,
    and the [TypeError] of the callback is left as an unhandled rejection.
    A bundle with a date next to it is imported all the same. *)
Lemma importChats_fault_counterexample :
  let bare := mkChatExport 7 "old" "llama3" None [] in
  let dated := mkChatExport 8 "kept" "llama3" (Some 5) [] in
  (let s' := exec (importChats [bare]) sampleReady in
   outcome (importChats [bare]) sampleReady = Returned tt /\
   outcome (importChats [bare]) sampleReady <> Threw TypeError /\
   db s' = db sampleReady /\
   chatList s' = chatList sampleReady /\
   console s' = console sampleReady /\
   unhandled sampleReady = [] /\
   unhandled s' = [TypeError]) /\
  (let s' := exec (importChats [bare; dated]) sampleReady in
   outcome (importChats [bare; dated]) sampleReady = Returned tt /\
   chatRows (db s') =
     [mkChat 1 "New chat" "llama3" 0; mkChat 2 "kept" "llama3" 5] /\
   unhandled s' = [TypeError]).
Proof. vm_compute. repeat split; discriminate. Qed.

(** * Further properties of the engine *)

(** ** The sorted chat list *)

Lemma insert_newest_first_perm key x l :
  Permutation (insert_newest_first key x l) (x :: l).
Proof.
  induction l as [|y l IH]; simpl; [reflexivity|].
  destruct (key x <? key y); [|reflexivity].
  rewrite IH. apply perm_swap.
Qed.

Lemma insert_newest_first_sorted key x l :
  StronglySorted (fun a b => key b <= key a) l ->
  StronglySorted (fun a b => key b <= key a) (insert_newest_first key x l).
Proof.
  induction 1 as [|y l Hl IH Hy]; simpl.
  - repeat constructor.
  - destruct (Z.ltb_spec (key x) (key y)) as [Hlt|Hge].
    + constructor; [exact IH|].
      apply List.Forall_forall. intros z Hz.
      apply insert_newest_first_In in Hz as [->|Hz]; [lia|].
      exact (proj1 (List.Forall_forall _ _) Hy z Hz).
    + constructor; [now constructor|].
      constructor; [exact Hge|].
      apply List.Forall_forall. intros z Hz.
      pose proof (proj1 (List.Forall_forall _ _) Hy z Hz). simpl in *. lia.
Qed.

Lemma insert_newest_first_stable key d x l :
  List.filter (fun l => key l =? d) (insert_newest_first key x l) =
  List.filter (fun l => key l =? d) (x :: l).
Proof.
  induction l as [|y l IH]; [reflexivity|].
  simpl insert_newest_first.
  destruct (Z.ltb_spec (key x) (key y)) as [Hlt|Hge]; [|reflexivity].
  simpl in *. rewrite IH.
  destruct (Z.eqb_spec (key x) d) as [Ex|Ex];
    destruct (Z.eqb_spec (key y) d) as [Ey|Ey]; try reflexivity.
  lia.
Qed.

(** X1.  [sortedChats] is the chat list in another order: it holds the same
    references, newest first, and chats created at the same instant keep
    the order they have in the chat list. *)
Theorem sortedChats_sorts_newest_first (s : State) :
  Permutation (sortedChats s) (chats s) /\
  StronglySorted (fun a b => createdAtOf s b <= createdAtOf s a)
                 (sortedChats s) /\
  forall d, createdOn s d (sortedChats s) = createdOn s d (chats s).
Proof.
  unfold sortedChats, createdOn, createdAtOf.
  induction (chats s) as [|l ls (IHp & IHs & IHd)]; simpl.
  - repeat split; constructor.
  - split; [|split].
    + rewrite insert_newest_first_perm. now constructor.
    + now apply (insert_newest_first_sorted
                   (fun l => chat_createdAt (chatAt s l))).
    + intros d.
      rewrite (insert_newest_first_stable
                 (fun l => chat_createdAt (chatAt s l))).
      simpl. now rewrite IHd.
Qed.

(** ** Loading the page *)

Lemma loaded_chatList s : chatList (loaded s) = chatRows (db s).
Proof. unfold chatList, chatAt. simpl. apply lookup_total_fresh. Qed.

Lemma store_getChat_found c st :
  In c (chatRows st) -> exists c', store_getChat (chat_id c) st = Some c'.
Proof.
  intros Hc. unfold store_getChat.
  destruct (List.find _ (chatRows st)) as [c'|] eqn:E; [now exists c'|].
  pose proof (List.find_none _ _ E c Hc) as H. simpl in H.
  now rewrite N.eqb_refl in H.
Qed.

Lemma store_getChat_row c st :
  NoDup (List.map chat_id (chatRows st)) ->
  In c (chatRows st) -> store_getChat (chat_id c) st = Some c.
Proof.
  intros Hd Hc. destruct (store_getChat_found c st Hc) as [c' E].
  rewrite E. f_equal.
  apply (NoDup_map_same chat_id (chatRows st)); try assumption.
  - now apply (store_getChat_In _ _ _ E).
  - now apply (store_getChat_id _ _ _ E).
Qed.

Lemma store_updateChat_same c st :
  NoDup (List.map chat_id (chatRows st)) ->
  In c (chatRows st) ->
  store_updateChat (chat_id c) (with_chat_model (chat_model c)) st = st.
Proof.
  intros Hd Hc. unfold store_updateChat. destruct st as [rows n ms k].
  simpl in *. f_equal.
  rewrite <- (List.map_id rows) at 2. apply List.map_ext_in.
  intros c' Hc'. destruct (N.eqb_spec (chat_id c') (chat_id c)) as [E|E];
    [|reflexivity].
  rewrite (NoDup_map_same chat_id rows c' c Hd Hc' Hc E).
  apply with_chat_model_same.
Qed.

(** Opening a stored chat of a store with distinct keys. *)
Lemma afterSwitchChat_row c s :
  NoDup (List.map chat_id (chatRows (db s))) ->
  In c (chatRows (db s)) ->
  Forall (fun l => (l < length (chatHeap s))%nat) (chats s) ->
  let s' := afterSwitchChat (chat_id c) s in
  db s' = db s /\
  activeChatValue s' = Some c /\
  messageList s' = store_getMessages (chat_id c) (db s) /\
  currentModel s' = chat_model c /\
  chatList s' = chatList s /\
  chats s' = chats s /\
  systemPrompt s' = systemPrompt s /\
  ongoingAiMessages s' = ongoingAiMessages s /\
  console s' = console s /\ backend s' = backend s.
Proof.
  intros Hd Hc Hal s'. subst s'. unfold afterSwitchChat.
  rewrite (store_getChat_row c _ Hd Hc).
  assert (Hat : chatAt (opened c s) (length (chatHeap s)) = c).
  { unfold chatAt. simpl. rewrite lookup_total_app_r by lia.
    now rewrite Nat.sub_diag. }
  unfold afterSwitchModel.
  change (activeChat (opened c s)) with (Some (length (chatHeap s))).
  cbv iota beta. rewrite Hat.
  split.
  { change (store_updateChat (chat_id c) (with_chat_model (chat_model c))
              (db s) = db s).
    now apply store_updateChat_same. }
  split.
  { unfold activeChatValue, chatAt. simpl. f_equal.
    rewrite list_lookup_total_alter_eq by (rewrite length_app; simpl; lia).
    rewrite lookup_total_app_r by lia. rewrite Nat.sub_diag. simpl.
    apply with_chat_model_same. }
  split.
  { unfold messageList, messageAt. simpl. apply lookup_total_fresh. }
  split; [reflexivity|].
  split.
  { unfold chatList, chatAt. simpl. apply List.map_ext_in. intros l Hl.
    pose proof (proj1 (List.Forall_forall _ _) Hal l Hl) as Hlt. simpl in Hlt.
    rewrite list_lookup_total_alter_ne by lia.
    now apply lookup_total_app_l. }
  now repeat split.
Qed.

Lemma loaded_alloc s :
  Forall (fun l => (l < length (chatHeap (loaded s)))%nat) (chats (loaded s)).
Proof.
  simpl. apply List.Forall_forall. intros l Hl. apply in_seq in Hl.
  rewrite length_app. lia.
Qed.

Lemma afterStartNewChat_state name s :
  let chat :=
    mkChat (chatNext (db s)) name (currentModel s) (clock s (ticks s)) in
  let hello := greeting s (chatNext (db s)) (clock s (S (ticks s))) in
  let s' := afterStartNewChat name s in
  chatRows (db s') = chatRows (db s) ++ [chat] /\
  messageRows (db s') = messageRows (db s) ++ hello /\
  chatHeap s' = chatHeap s ++ [chat] /\
  chats s' = chats s ++ [length (chatHeap s)] /\
  activeChat s' = Some (length (chatHeap s)) /\
  messageList s' = hello /\
  (hello = [] -> systemPrompt s' = systemPrompt s) /\
  currentModel s' = currentModel s /\
  ongoingAiMessages s' = ongoingAiMessages s /\
  console s' = console s /\ backend s' = backend s /\
  unhandled s' = unhandled s.
Proof.
  intros chat hello s'. subst s' hello.
  unfold afterStartNewChat, afterSystemMessage, greeting.
  change (activeChat (started name s)) with (Some (length (chatHeap s))).
  destruct (systemMessages s (currentModel s)) as [text|].
  2:{ rewrite app_nil_r. now repeat split. }
  destruct (decide (text = "")) as [E|E].
  { rewrite app_nil_r. now repeat split. }
  assert (Hid : chat_id (chatAt (started name s) (length (chatHeap s))) =
                chatNext (db s)).
  { unfold chatAt. simpl. rewrite lookup_total_app_r by lia.
    now rewrite Nat.sub_diag. }
  rewrite Hid. repeat split; try discriminate.
  unfold messageList, messageAt. simpl.
  rewrite lookup_total_app_r by lia. now rewrite Nat.sub_diag.
Qed.

Lemma chatList_push (chat : Chat) s s' :
  Forall (fun l => (l < length (chatHeap s))%nat) (chats s) ->
  chatHeap s' = chatHeap s ++ [chat] ->
  chats s' = chats s ++ [length (chatHeap s)] ->
  chatList s' = chatList s ++ [chat].
Proof.
  intros Hal Hh Hc. unfold chatList, chatAt. rewrite Hh, Hc, List.map_app.
  simpl. rewrite lookup_total_app_r by lia. rewrite Nat.sub_diag. simpl.
  f_equal. now apply lookup_total_old.
Qed.

Lemma activeChatValue_new (chat : Chat) s s' :
  chatHeap s' = chatHeap s ++ [chat] ->
  activeChat s' = Some (length (chatHeap s)) ->
  activeChatValue s' = Some chat.
Proof.
  intros Hh Ha. unfold activeChatValue, chatAt. rewrite Ha, Hh. f_equal.
  rewrite lookup_total_app_r by lia. now rewrite Nat.sub_diag.
Qed.

(** X2.  On a store without chats, [initialize] creates one chat named
    "New chat" for the current model and makes it the active chat and the
    only entry of the chat list; the visible messages are the system message
    of the current model, stored under the new chat's key, or nothing when
    the model has no system prompt.  Nothing is logged. *)
Theorem initialize_first_visit (s : State) :
  chatRows (db s) = [] ->
  let chat :=
    mkChat (chatNext (db s)) "New chat" (currentModel s) (clock s (ticks s)) in
  let hello := greeting s (chatNext (db s)) (clock s (S (ticks s))) in
  let s' := exec initialize s in
  outcome initialize s = Returned tt /\
  chatRows (db s') = [chat] /\
  messageRows (db s') = messageRows (db s) ++ hello /\
  chatList s' = [chat] /\
  activeChatValue s' = Some chat /\
  messageList s' = hello /\
  console s' = console s.
Proof.
  intros Hrows chat hello s'. subst s' hello. unfold exec, outcome.
  rewrite initialize_eq. simpl fst; simpl snd.
  split; [reflexivity|].
  unfold afterInitialize.
  assert (Hch : chats (loaded s) = []) by (simpl; now rewrite Hrows).
  rewrite Hch.
  pose proof (afterStartNewChat_state "New chat" (loaded s)) as Hst.
  cbv zeta in Hst.
  set (s' := afterStartNewChat "New chat" (loaded s)) in *.
  destruct Hst as (Hr & Hm & Hh & Hc & Ha & Hl & _ & _ & _ & Hcon & _).
  split.
  { rewrite Hr. change (db (loaded s)) with (db s). now rewrite Hrows. }
  split; [exact Hm|].
  split.
  { rewrite (chatList_push _ (loaded s) s' (loaded_alloc s) Hh Hc).
    rewrite loaded_chatList. now rewrite Hrows. }
  split; [exact (activeChatValue_new _ (loaded s) s' Hh Ha)|].
  split; [exact Hl|exact Hcon].
Qed.

Lemma initialize_first_visit_witness :
  chatRows (db sampleBoot) = [] /\
  chatRows (db (exec initialize sampleBoot)) =
    [mkChat 1 "New chat" "llama3" 0] /\
  messageList (exec initialize sampleBoot) =
    [mkMessage 1 1 system "Be brief." None 1].
Proof.
  split; [reflexivity|].
  pose proof (initialize_first_visit sampleBoot eq_refl)
    as (_ & Hrows & _ & _ & _ & Hshown & _).
  split; [exact Hrows|exact Hshown].
Defined.

(** X3.  On a store that holds chats under distinct keys, [initialize]
    loads them all into the chat list, in store order, and opens a newest
    one: it becomes the active chat, its stored messages become the visible
    messages and its model the current model.  The store is left as it
    was. *)
Theorem initialize_opens_newest_chat (s : State) :
  NoDup (List.map chat_id (chatRows (db s))) ->
  chatRows (db s) <> [] ->
  let s' := exec initialize s in
  exists newest,
    In newest (chatRows (db s)) /\
    (forall c, In c (chatRows (db s)) ->
               chat_createdAt c <= chat_createdAt newest) /\
    activeChatValue s' = Some newest /\
    messageList s' = store_getMessages (chat_id newest) (db s) /\
    currentModel s' = chat_model newest /\
    db s' = db s /\
    chatList s' = chatRows (db s) /\
    console s' = console s.
Proof.
  intros Hd Hne s'. subst s'. unfold exec. rewrite initialize_eq. simpl snd.
  unfold afterInitialize.
  pose proof (loaded_chatList s) as Hlist.
  destruct (chats (loaded s)) as [|l0 ls] eqn:Hch.
  { unfold chatList in Hlist. rewrite Hch in Hlist. simpl in Hlist.
    now destruct Hne. }
  destruct (sortedChats_nonempty _ _ _ Hch) as (l & rest & Hs).
  rewrite Hs.
  destruct (sortedChats_newest _ _ _ Hs) as [Hin Hmax].
  set (newest := chatAt (loaded s) l).
  assert (Hrow : In newest (chatRows (db s))).
  { rewrite <- Hlist. unfold chatList. now apply List.in_map. }
  exists newest. split; [exact Hrow|]. split.
  { intros c Hc. rewrite <- Hlist in Hc. unfold chatList in Hc.
    apply List.in_map_iff in Hc as (l' & <- & Hl'). now apply Hmax. }
  destruct (afterSwitchChat_row newest (loaded s) Hd Hrow (loaded_alloc s))
    as (Hdb & Ha & Hm & Hmodel & Hcl & _ & _ & _ & Hcon & _).
  split; [exact Ha|]. split; [exact Hm|]. split; [exact Hmodel|].
  split; [exact Hdb|]. split; [now rewrite Hcl|exact Hcon].
Qed.

Lemma initialize_opens_newest_chat_witness :
  NoDup (List.map chat_id (chatRows (db sampleReturn))) /\
  chatRows (db sampleReturn) <> [] /\
  exists newest,
    activeChatValue (exec initialize sampleReturn) = Some newest /\
    db (exec initialize sampleReturn) = db sampleReturn.
Proof.
  assert (Hd : NoDup (List.map chat_id (chatRows (db sampleReturn)))).
  { apply NoDup_cons. split; [|constructor]. intros H. inversion H. }
  assert (Hne : chatRows (db sampleReturn) <> []) by discriminate.
  split; [exact Hd|]. split; [exact Hne|].
  destruct (initialize_opens_newest_chat sampleReturn Hd Hne)
    as (newest & _ & _ & Ha & _ & _ & Hdb & _).
  exists newest. split; [exact Ha|exact Hdb].
Defined.

(** ** Starting, opening and wiping chats *)

(** X4.  [startNewChat] stores one more chat, named as asked, for the
    current model, and leaves the stored chats as they are.  The new chat is
    appended to the chat list and becomes the active chat, one object for
    both; the visible messages are its system message, when the current
    model has a system prompt, and nothing otherwise. *)
Theorem startNewChat_adds_active_chat (name : string) (s : State) :
  Forall (fun l => (l < length (chatHeap s))%nat) (chats s) ->
  let chat :=
    mkChat (chatNext (db s)) name (currentModel s) (clock s (ticks s)) in
  let hello := greeting s (chatNext (db s)) (clock s (S (ticks s))) in
  let s' := exec (startNewChat name) s in
  outcome (startNewChat name) s = Returned tt /\
  chatRows (db s') = chatRows (db s) ++ [chat] /\
  messageRows (db s') = messageRows (db s) ++ hello /\
  chatList s' = chatList s ++ [chat] /\
  activeChatValue s' = Some chat /\
  last (chats s') = activeChat s' /\
  messageList s' = hello /\
  currentModel s' = currentModel s.
Proof.
  intros Hal chat hello s'. subst s'. unfold exec, outcome.
  rewrite startNewChat_eq. simpl fst; simpl snd.
  destruct (afterStartNewChat_state name s)
    as (Hr & Hm & Hh & Hc & Ha & Hl & _ & Hmod & _).
  split; [reflexivity|]. split; [exact Hr|]. split; [exact Hm|].
  split; [now apply (chatList_push chat s)|].
  split; [now apply (activeChatValue_new chat s)|].
  split; [rewrite Hc, Ha; apply last_snoc|].
  split; [exact Hl|exact Hmod].
Qed.

Lemma sampleReady_listed_alloc :
  Forall (fun l => (l < length (chatHeap sampleReady))%nat)
         (chats sampleReady).
Proof. vm_compute. repeat constructor. Qed.

Lemma startNewChat_adds_active_chat_witness :
  Forall (fun l => (l < length (chatHeap sampleReady))%nat)
         (chats sampleReady) /\
  chatRows (db (exec (startNewChat "second") sampleReady)) =
    [mkChat 1 "New chat" "llama3" 0; mkChat 2 "second" "llama3" 2].
Proof.
  split; [exact sampleReady_listed_alloc|].
  exact (proj1 (proj2 (startNewChat_adds_active_chat
                         "second" sampleReady sampleReady_listed_alloc))).
Defined.

(** X5.  The chat that [startNewChat] has made active is the very object
    that it has put into the chat list: a model chosen afterwards with
    [switchModel] shows in the chat list, in the active chat and in the
    store alike. *)
Theorem new_chat_is_shared_with_chat_list
    (name model : string) (s : State) :
  Forall (fun l => (l < length (chatHeap s))%nat) (chats s) ->
  let chat := mkChat (chatNext (db s)) name model (clock s (ticks s)) in
  let s' := run [Plain (StartNewChat name); Plain (SwitchModel model)] s in
  activeChatValue s' = Some chat /\
  last (chatList s') = Some chat /\
  last (chatRows (db s')) = Some chat /\
  currentModel s' = model.
Proof.
  intros Hal chat s'. subst s'. unfold run. simpl List.fold_left.
  rewrite !step_eq. simpl afterRequestOf. simpl afterCommand.
  destruct (afterStartNewChat_state name s)
    as (Hr & _ & Hh & Hc & Ha & _).
  set (s1 := afterStartNewChat name s) in *.
  unfold afterSwitchModel. rewrite Ha.
  assert (Hat : chatAt s1 (length (chatHeap s)) =
                mkChat (chatNext (db s)) name (currentModel s)
                       (clock s (ticks s))).
  { unfold chatAt. rewrite Hh. rewrite lookup_total_app_r by lia.
    now rewrite Nat.sub_diag. }
  assert (Hnew : alter (with_chat_model model) (length (chatHeap s))
                       (chatHeap s1) !!! length (chatHeap s) = chat).
  { rewrite list_lookup_total_alter_eq
      by (rewrite Hh, length_app; simpl; lia).
    rewrite Hh, lookup_total_app_r by lia. now rewrite Nat.sub_diag. }
  split; [|split; [|split]].
  - unfold activeChatValue, chatAt. simpl. rewrite Ha. f_equal. exact Hnew.
  - unfold chatList, chatAt. simpl. rewrite Hc, List.map_app. simpl.
    rewrite last_snoc. f_equal. exact Hnew.
  - simpl. rewrite Hr, Hat, List.map_app. simpl. rewrite N.eqb_refl.
    now rewrite last_snoc.
  - reflexivity.
Qed.

Lemma new_chat_is_shared_with_chat_list_witness :
  Forall (fun l => (l < length (chatHeap sampleReady))%nat)
         (chats sampleReady) /\
  last (chatList (run [Plain (StartNewChat "second");
                       Plain (SwitchModel "mistral")] sampleReady)) =
  Some (mkChat 2 "second" "mistral" 2).
Proof.
  split; [exact sampleReady_listed_alloc|].
  exact (proj1 (proj2 (new_chat_is_shared_with_chat_list
                         "second" "mistral" sampleReady
                         sampleReady_listed_alloc))).
Defined.

(** X6.  [switchChat] with the key of a stored chat makes that chat the
    active chat, its stored messages the visible messages and its model the
    current model; the store, the chat list, the captured system prompt and
    the in-flight messages stay as they are.  With a key that the store
    does not hold it changes nothing at all. *)
Theorem switchChat_opens_stored_chat (chatId : N) (s : State) :
  NoDup (List.map chat_id (chatRows (db s))) ->
  Forall (fun l => (l < length (chatHeap s))%nat) (chats s) ->
  let s' := exec (switchChat chatId) s in
  outcome (switchChat chatId) s = Returned tt /\
  match store_getChat chatId (db s) with
  | Some chat =>
      chat_id chat = chatId /\
      activeChatValue s' = Some chat /\
      messageList s' = store_getMessages chatId (db s) /\
      currentModel s' = chat_model chat /\
      db s' = db s /\
      chatList s' = chatList s /\
      systemPrompt s' = systemPrompt s /\
      ongoingAiMessages s' = ongoingAiMessages s
  | None => s' = s
  end.
Proof.
  intros Hd Hal s'. subst s'. unfold exec, outcome.
  rewrite switchChat_eq. simpl fst; simpl snd. split; [reflexivity|].
  destruct (store_getChat chatId (db s)) as [chat|] eqn:Hc.
  - pose proof (store_getChat_id _ _ _ Hc) as Hid.
    pose proof (store_getChat_In _ _ _ Hc) as Hin.
    destruct (afterSwitchChat_row chat s Hd Hin Hal)
      as (Hdb & Ha & Hm & Hmodel & Hcl & _ & Hp & Ho & _).
    rewrite Hid in *. now repeat split.
  - unfold afterSwitchChat. now rewrite Hc.
Qed.

Lemma sampleTalked_distinct :
  NoDup (List.map chat_id (chatRows (db sampleTalked))).
Proof. refine (bool_decide_eq_true_1 _ _). vm_compute. reflexivity. Qed.

Lemma sampleTalked_alloc :
  Forall (fun l => (l < length (chatHeap sampleTalked))%nat)
         (chats sampleTalked).
Proof. vm_compute. repeat constructor. Qed.

Lemma switchChat_opens_stored_chat_witness :
  NoDup (List.map chat_id (chatRows (db sampleTalked))) /\
  Forall (fun l => (l < length (chatHeap sampleTalked))%nat)
         (chats sampleTalked) /\
  outcome (switchChat 1) sampleTalked = Returned tt.
Proof.
  split; [exact sampleTalked_distinct|]. split; [exact sampleTalked_alloc|].
  exact (proj1 (switchChat_opens_stored_chat
                  1 sampleTalked sampleTalked_distinct sampleTalked_alloc)).
Defined.

(** X7.  [addSystemMessage] does nothing without an active chat and
    nothing for a missing or empty text.  Otherwise it stores one system
    message with that text and [meta] under the active chat's key, shows it
    as the last visible message and captures it as the system prompt of the
    requests to come; chats are not touched. *)
Theorem addSystemMessage_stores_prompt
    (content meta : option string) (s : State) :
  Forall (fun l => (l < length (messageHeap s))%nat) (messages s) ->
  let s' := exec (addSystemMessage content meta) s in
  outcome (addSystemMessage content meta) s = Returned tt /\
  match activeChatValue s, content with
  | Some chat, Some text =>
      if decide (text = "") then s' = s
      else
        let message :=
          mkMessage (messageNext (db s)) (chat_id chat) system text meta
                    (clock s (ticks s)) in
        messageRows (db s') = messageRows (db s) ++ [message] /\
        chatRows (db s') = chatRows (db s) /\
        messageList s' = messageList s ++ [message] /\
        systemPromptValue s' = Some message /\
        activeChat s' = activeChat s
  | _, _ => s' = s
  end.
Proof.
  intros Hal s'. subst s'. unfold exec, outcome.
  rewrite addSystemMessage_eq. simpl fst; simpl snd.
  split; [reflexivity|].
  unfold afterSystemMessage, activeChatValue.
  destruct (activeChat s) as [a|] eqn:Ha; [|reflexivity].
  destruct content as [text|]; [|reflexivity].
  destruct (decide (text = "")); [reflexivity|].
  cbv zeta. repeat split.
  - unfold messageList, messageAt. simpl. rewrite List.map_app. simpl.
    rewrite lookup_total_app_r by lia. rewrite Nat.sub_diag. simpl.
    f_equal. now apply lookup_total_old.
  - unfold systemPromptValue, messageAt. simpl. f_equal.
    rewrite lookup_total_app_r by lia. now rewrite Nat.sub_diag.
  - exact Ha.
Qed.

Lemma sampleReady_shown_alloc :
  Forall (fun l => (l < length (messageHeap sampleReady))%nat)
         (messages sampleReady).
Proof. vm_compute. repeat constructor. Qed.

Lemma addSystemMessage_stores_prompt_witness :
  Forall (fun l => (l < length (messageHeap sampleReady))%nat)
         (messages sampleReady) /\
  outcome (addSystemMessage (Some "Be kind.") None) sampleReady = Returned tt.
Proof.
  split; [exact sampleReady_shown_alloc|].
  exact (proj1 (addSystemMessage_stores_prompt
                  (Some "Be kind.") None sampleReady sampleReady_shown_alloc)).
Defined.

(** X8.  After [wipeDatabase], from whatever state, the store holds exactly
    one chat, a new one named "New chat" for the current model, and no
    message but that chat's system message, if the model has a system
    prompt.  The new chat is the active chat and the only entry of the chat
    list, the visible messages are the stored ones, and no message is in
    flight any more.  A system prompt captured before the wipe is only
    replaced when the current model has one. *)
Theorem wipeDatabase_leaves_one_new_chat (s : State) :
  let chat :=
    mkChat (chatNext (db s)) "New chat" (currentModel s) (clock s (ticks s)) in
  let hello := greeting s (chatNext (db s)) (clock s (S (ticks s))) in
  let s' := exec wipeDatabase s in
  outcome wipeDatabase s = Returned tt /\
  chatRows (db s') = [chat] /\
  messageRows (db s') = hello /\
  chatList s' = [chat] /\
  activeChatValue s' = Some chat /\
  messageList s' = hello /\
  ongoingAiMessages s' = ∅ /\
  (hello = [] -> systemPrompt s' = systemPrompt s).
Proof.
  intros chat hello s'. subst s'. unfold exec, outcome.
  rewrite wipeDatabase_eq. simpl fst; simpl snd. unfold afterWipe.
  destruct (afterStartNewChat_state "New chat" (wiped s))
    as (Hr & Hm & Hh & Hc & Ha & Hl & Hp & _ & Ho & _).
  split; [reflexivity|]. split; [exact Hr|]. split; [exact Hm|].
  split.
  { now apply (chatList_push chat (wiped s)); [constructor|..]. }
  split; [now apply (activeChatValue_new chat (wiped s))|].
  split; [exact Hl|]. split; [exact Ho|exact Hp].
Qed.

Lemma sampleSecondChat_no_greeting :
  greeting sampleSecondChat (chatNext (db sampleSecondChat))
           (clock sampleSecondChat (S (ticks sampleSecondChat))) = [].
Proof. vm_compute. reflexivity. Qed.

Lemma wipeDatabase_leaves_one_new_chat_witness :
  greeting sampleSecondChat (chatNext (db sampleSecondChat))
           (clock sampleSecondChat (S (ticks sampleSecondChat))) = [] /\
  systemPrompt (exec wipeDatabase sampleSecondChat) =
  systemPrompt sampleSecondChat.
Proof.
  split; [exact sampleSecondChat_no_greeting|].
  pose proof (wipeDatabase_leaves_one_new_chat sampleSecondChat)
    as (_ & _ & _ & _ & _ & _ & _ & H).
  exact (H sampleSecondChat_no_greeting).
Defined.

(** X9.  [abort] clears the in-flight message of every chat and asks the
    backend client to abort; the store and the visible messages are not
    touched.  From then on the parts that a stream still delivers are
    ignored, whichever chat the stream was started for. *)
Theorem abort_stops_every_stream (s : State) :
  let s' := exec abort s in
  outcome abort s = Returned tt /\
  ongoingAiMessages s' = ∅ /\
  backend s' = backend s ++ [OllamaAbort] /\
  db s' = db s /\
  messageList s' = messageList s /\
  forall currentChatId parts,
    consume currentChatId (List.map Part parts) s' = (Returned tt, s').
Proof.
  intros s'. subst s'. repeat split.
  intros cid parts. apply consume_idle. apply lookup_empty.
Qed.

(** ** There is always an active chat *)

Lemma afterSwitchModel_active model s :
  activeChat (afterSwitchModel model s) = activeChat s.
Proof.
  unfold afterSwitchModel. destruct (activeChat s) eqn:Ha; simpl; congruence.
Qed.

Lemma afterSwitchChat_active chatId s :
  hasActiveChat s = true -> hasActiveChat (afterSwitchChat chatId s) = true.
Proof.
  intros H. unfold afterSwitchChat.
  destruct (store_getChat chatId (db s)); [|exact H].
  unfold hasActiveChat. now rewrite afterSwitchModel_active.
Qed.

Lemma afterStartNewChat_active name s :
  hasActiveChat (afterStartNewChat name s) = true.
Proof.
  destruct (afterStartNewChat_state name s) as (_ & _ & _ & _ & Ha & _).
  unfold hasActiveChat. now rewrite Ha.
Qed.

Lemma afterInitialize_active s : hasActiveChat (afterInitialize s) = true.
Proof.
  unfold afterInitialize.
  destruct (chats (loaded s)) as [|l0 ls] eqn:Hch;
    [apply afterStartNewChat_active|].
  destruct (sortedChats_nonempty _ _ _ Hch) as (l & rest & Hs). rewrite Hs.
  destruct (sortedChats_newest _ _ _ Hs) as [Hin _].
  assert (Hrow : In (chatAt (loaded s) l) (chatRows (db (loaded s)))).
  { change (db (loaded s)) with (db s). rewrite <- loaded_chatList.
    unfold chatList. now apply List.in_map. }
  destruct (store_getChat_found _ _ Hrow) as [c Hc].
  unfold afterSwitchChat. rewrite Hc.
  unfold hasActiveChat. now rewrite afterSwitchModel_active.
Qed.

Lemma afterDeleteChat_active chatId s :
  hasActiveChat s = true -> hasActiveChat (afterDeleteChat chatId s) = true.
Proof.
  intros H. unfold afterDeleteChat. cbv zeta.
  destruct (activeChatIs chatId (removed chatId s)); [|exact H].
  destruct (sortedChats (removed chatId s)).
  - apply afterStartNewChat_active.
  - now apply afterSwitchChat_active.
Qed.

Lemma afterImports_activeChat data s :
  activeChat (afterImports data s) = activeChat s.
Proof.
  unfold afterImports. revert s.
  induction data as [|b data IH]; intros s; [reflexivity|].
  simpl. rewrite IH. unfold afterImportOne.
  destruct (exp_createdAt b); [reflexivity|].
  now destruct (exp_messages b).
Qed.

Lemma afterCommand_active c s :
  hasActiveChat s = true -> hasActiveChat (afterCommand c s) = true.
Proof.
  intros H. destruct c; simpl.
  - apply afterInitialize_active.
  - now apply afterSwitchChat_active.
  - unfold hasActiveChat. now rewrite afterSwitchModel_active.
  - unfold afterRename, hasActiveChat in *.
    destruct (activeChat s) eqn:Ha; [simpl; now rewrite Ha|discriminate].
  - apply afterStartNewChat_active.
  - destruct (afterSystemMessage_chats content meta s) as (_ & _ & Ha & _).
    unfold hasActiveChat. now rewrite Ha.
  - apply afterStartNewChat_active.
  - now apply afterDeleteChat_active.
  - exact H.
  - unfold hasActiveChat. now rewrite afterImports_activeChat.
Qed.

Lemma afterItems_active cid items s :
  hasActiveChat s = true -> hasActiveChat (afterItems cid items s) = true.
Proof.
  unfold afterItems. revert s.
  induction items as [|i items IH]; intros s H; [exact H|].
  simpl. apply IH. destruct i as [p|c]; simpl.
  - destruct (ongoingAiMessages s !! cid) as [l|]; [|exact H].
    unfold hasActiveChat.
    now rewrite (frame_activeChat _ _ (afterPart_frame cid l p s)).
  - now apply afterCommand_active.
Qed.

Lemma settle_activeChat cid text ending s :
  activeChat (settle cid text ending s) = activeChat s.
Proof.
  destruct ending as [|e]; simpl; [reflexivity|].
  now destruct (isAbortError e).
Qed.

Lemma step_active r s :
  hasActiveChat s = true -> hasActiveChat (step r s) = true.
Proof.
  intros H. rewrite step_eq.
  destruct r as [c|content [items ending]|[items ending]]; simpl.
  - now apply afterCommand_active.
  - destruct (activeChat s) as [a|] eqn:Ha.
    + unfold hasActiveChat at 1. rewrite settle_activeChat.
      apply afterItems_active. unfold hasActiveChat. simpl. now rewrite Ha.
    + unfold hasActiveChat in H. now rewrite Ha in H.
  - destruct (activeChat s) as [a|] eqn:Ha; [|exact H].
    unfold hasActiveChat at 1. rewrite settle_activeChat.
    apply afterItems_active. unfold hasActiveChat. simpl.
    destruct (afterTrim_chats s) as (_ & _ & Hact & _). now rewrite Hact, Ha.
Qed.

Lemma run_active rs s :
  hasActiveChat s = true -> hasActiveChat (run rs s) = true.
Proof.
  unfold run. revert s. induction rs as [|r rs IH]; intros s H; [exact H|].
  simpl. now apply IH, step_active.
Qed.

(** X10.  Once [initialize] has run, in whatever state, there is an active
    chat, and there is one after every later request: no operation of the
    engine leaves the session without an active chat. *)
Theorem active_chat_is_never_lost (s : State) (rs : list Request) :
  hasActiveChat (run (Plain Initialize :: rs) s) = true.
Proof.
  change (run (Plain Initialize :: rs) s)
    with (run rs (step (Plain Initialize) s)).
  apply run_active. rewrite step_eq. apply afterInitialize_active.
Qed.

(** ** Deleting a chat that is not stored *)

Lemma store_delete_missing cid st :
  ~ In cid (List.map chat_id (chatRows st)) ->
  (forall m, In m (messageRows st) ->
             In (msg_chatId m) (List.map chat_id (chatRows st))) ->
  store_deleteMessagesOfChat cid (store_deleteChat cid st) = st.
Proof.
  intros Hno Hrefs. destruct st as [rows n ms k].
  unfold store_deleteMessagesOfChat, store_deleteChat. simpl in *. f_equal.
  - apply filter_all. apply List.Forall_forall. intros c Hc.
    destruct (N.eqb_spec (chat_id c) cid) as [E|E]; [|reflexivity].
    destruct Hno. rewrite <- E. now apply List.in_map.
  - apply filter_all. apply List.Forall_forall. intros m Hm.
    destruct (N.eqb_spec (msg_chatId m) cid) as [E|E]; [|reflexivity].
    destruct Hno. rewrite <- E. now apply Hrefs.
Qed.

(** X11.  In a coherent state, [deleteChat] with a key that the store does
    not hold changes nothing: no chat, no message, neither the chat list
    nor the active chat. *)
Theorem deleteChat_of_missing_chat (chatId : N) (s : State) :
  coherent s ->
  ~ In chatId (List.map chat_id (chatRows (db s))) ->
  deleteChat chatId s = (Returned tt, s).
Proof.
  intros C Hno. rewrite deleteChat_eq. f_equal.
  destruct C as [K _ Hact St _].
  assert (Hrem : removed chatId s = s).
  { unfold removed.
    rewrite (store_delete_missing chatId (db s) Hno (sound_refs _ St)).
    rewrite filter_all; [now destruct s|].
    apply List.Forall_forall. intros l Hl.
    destruct (N.eqb_spec (chat_id (chatAt s l)) chatId) as [E|E];
      [|reflexivity].
    destruct Hno. rewrite <- E.
    apply (key_In_id (chat_key (chatAt s l))). now apply (known_keys _ K). }
  unfold afterDeleteChat. cbv zeta. rewrite Hrem.
  unfold activeChatIs. destruct (activeChat s) as [a|] eqn:Ha; [|reflexivity].
  destruct (N.eqb_spec (chat_id (chatAt s a)) chatId) as [E|E]; [|reflexivity].
  destruct Hno. rewrite <- E. now apply Hact.
Qed.

Lemma sampleSession_without_7 :
  ~ In 7%N (List.map chat_id (chatRows (db sampleSession))).
Proof. vm_compute. intuition discriminate. Qed.

Lemma deleteChat_of_missing_chat_witness :
  coherent sampleSession /\
  ~ In 7%N (List.map chat_id (chatRows (db sampleSession))) /\
  deleteChat 7 sampleSession = (Returned tt, sampleSession).
Proof.
  split; [exact sampleSession_coherent|].
  split; [exact sampleSession_without_7|].
  exact (deleteChat_of_missing_chat 7 sampleSession sampleSession_coherent
                                    sampleSession_without_7).
Defined.

(** ** The model of a chat *)

Lemma store_updateChat_In c i f st :
  In c (chatRows st) -> chat_id c = i ->
  In (f c) (chatRows (store_updateChat i f st)).
Proof.
  intros Hc Hi. simpl. apply List.in_map_iff. exists c.
  split; [|exact Hc]. now rewrite Hi, N.eqb_refl.
Qed.

(** X12.  The model chosen with [switchModel] is kept with the active
    chat: after a visit to any other chat, coming back to the chat makes
    that model the current model again. *)
Theorem model_choice_is_kept_with_chat
    (model : string) (other : N) (s : State) (a : loc) :
  coherent s ->
  activeChat s = Some a ->
  let here := chat_id (chatAt s a) in
  let s' :=
    run [Plain (SwitchModel model); Plain (SwitchChat other);
         Plain (SwitchChat here)] s in
  currentModel s' = model /\
  option_map chat_id (activeChatValue s') = Some here /\
  option_map chat_model (activeChatValue s') = Some model.
Proof.
  intros C Ha here s'. subst s'. unfold run. simpl List.fold_left.
  rewrite !step_eq. simpl afterRequestOf. simpl afterCommand.
  set (s1 := afterSwitchModel model s).
  set (s2 := afterSwitchChat other s1).
  pose proof (afterSwitchModel_coherent model s C) as C1. fold s1 in C1.
  pose proof (afterSwitchChat_coherent other s1 C1) as C2. fold s2 in C2.
  pose proof (coh_active _ C a Ha) as Hin. fold here in Hin.
  apply List.in_map_iff in Hin as (c & Hid & Hc).
  assert (Hc1 : In (with_chat_model model c) (chatRows (db s1))).
  { unfold s1, afterSwitchModel. rewrite Ha. simpl db.
    now apply store_updateChat_In. }
  assert (Hdb : db s2 = db s1).
  { unfold s2, afterSwitchChat.
    destruct (store_getChat other (db s1)) as [chat|] eqn:Hg; [|reflexivity].
    fold (afterSwitchChat other s1).
    pose proof (store_getChat_id _ _ _ Hg) as Hi.
    pose proof (store_getChat_In _ _ _ Hg) as Hrow.
    destruct (afterSwitchChat_row chat s1
                (sound_distinct _ (coh_store _ C1)) Hrow
                (known_alloc _ (coh_chats _ C1))) as [H _].
    rewrite Hi in H. unfold afterSwitchChat in H. now rewrite Hg in H. }
  assert (Hc2 : In (with_chat_model model c) (chatRows (db s2)))
    by now rewrite Hdb.
  destruct (afterSwitchChat_row (with_chat_model model c) s2
              (sound_distinct _ (coh_store _ C2)) Hc2
              (known_alloc _ (coh_chats _ C2)))
    as (_ & Hact & _ & Hmodel & _).
  change (chat_id (with_chat_model model c)) with (chat_id c) in Hact, Hmodel.
  rewrite Hid in Hact, Hmodel.
  split; [exact Hmodel|]. rewrite Hact. simpl. now rewrite Hid.
Qed.

Lemma sampleSession_active : activeChat sampleSession = Some 1%nat.
Proof. vm_compute. reflexivity. Qed.

Lemma model_choice_is_kept_with_chat_witness :
  coherent sampleSession /\
  activeChat sampleSession = Some 1%nat /\
  currentModel
    (run [Plain (SwitchModel "mistral"); Plain (SwitchChat 1);
          Plain (SwitchChat (chat_id (chatAt sampleSession 1%nat)))]
         sampleSession) = "mistral".
Proof.
  split; [exact sampleSession_coherent|]. split; [exact sampleSession_active|].
  exact (proj1 (model_choice_is_kept_with_chat
                  "mistral" 1 sampleSession 1%nat sampleSession_coherent
                  sampleSession_active)).
Defined.

(** ** Export *)

(** X13.  [exportChats] only reads: the state is as before.  It returns one
    bundle for every stored chat whose key is not zero, in store order, each
    with the date of its chat and with exactly the stored messages that
    carry the chat's key, in store order. *)
Theorem exportChats_reads_the_store (s : State) :
  exists data,
    exportChats s = (Returned data, s) /\
    List.map exp_id data =
      List.filter (fun i => negb (N.eqb i 0))
                  (List.map chat_id (chatRows (db s))) /\
    Forall (fun b =>
              exp_createdAt b <> None /\
              exp_messages b =
                List.filter (fun m => N.eqb (msg_chatId m) (exp_id b))
                            (messageRows (db s)))
           data.
Proof.
  exists (List.flat_map (exportOne (db s)) (chatRows (db s))).
  split; [reflexivity|].
  induction (chatRows (db s)) as [|c rows [IH1 IH2]]; [now split|].
  simpl. unfold exportOne at 1 3.
  destruct (N.eqb (chat_id c) 0); simpl; [now split|].
  split; [now rewrite IH1|].
  constructor; [|exact IH2]. now split.
Qed.

(** ** Import *)

Lemma storeBundle_messages d b st :
  length (messageRows (storeBundle d b st)) =
  (length (messageRows st) + length (exp_messages b))%nat.
Proof.
  unfold storeBundle.
  destruct (storeImported_rows (chatNext st) (exp_messages b)
              (snd (store_addChat
                      (mkChat 0 (exp_name b) (exp_model b) d) st)))
    as (rows & Hrows & _ & Hmap).
  rewrite Hrows, length_app. simpl. f_equal.
  now rewrite <- (List.length_map role_content rows), Hmap, List.length_map.
Qed.

Lemma afterImports_state data : forall s,
  exists newChats,
    chatRows (db (afterImports data s)) = chatRows (db s) ++ newChats /\
    List.map chat_fields newChats = omap importedFields data /\
    length (messageRows (db (afterImports data s))) =
      (length (messageRows (db s)) +
       list_sum (List.map (fun b => length (exp_messages b)) data))%nat /\
    unhandled (afterImports data s) =
      unhandled s ++ List.map (fun _ => TypeError) (List.filter bare data) /\
    activeChat (afterImports data s) = activeChat s /\
    messages (afterImports data s) = messages s /\
    messageHeap (afterImports data s) = messageHeap s /\
    systemPrompt (afterImports data s) = systemPrompt s /\
    ongoingAiMessages (afterImports data s) = ongoingAiMessages s.
Proof.
  unfold afterImports.
  induction data as [|b data IH]; intros s.
  - exists []. simpl. rewrite !app_nil_r, Nat.add_0_r. now repeat split.
  - cbn [List.fold_left].
    destruct (IH (afterImportOne b s))
      as (newChats & Hr & Hf & Hm & Hu & Ha & Hv & Hh & Hp & Ho).
    unfold afterImportOne, importedFields, bare, importDate in *.
    cbn [omap list_omap List.filter List.map list_sum].
    unfold importedFields, importDate.
    destruct (exp_createdAt b) as [d|] eqn:Hd.
    + exists (mkChat (chatNext (db s)) (exp_name b) (exp_model b) d
              :: newChats).
      rewrite Hr, Hm, Hu, Ha, Hv, Hh, Hp, Ho.
      cbn [db afterImport set_db]. rewrite storeBundle_chatRows.
      rewrite storeBundle_messages, <- app_assoc. simpl.
      rewrite Hf. repeat split. lia.
    + destruct (exp_messages b) as [|first rest] eqn:Hmsgs.
      * exists newChats. rewrite Hr, Hm, Hu, Ha, Hv, Hh, Hp, Ho. simpl.
        rewrite <- app_assoc. now repeat split.
      * exists (mkChat (chatNext (db s)) (exp_name b) (exp_model b)
                       (msg_createdAt first) :: newChats).
        rewrite Hr, Hm, Hu, Ha, Hv, Hh, Hp, Ho.
        cbn [db afterImport set_db]. rewrite storeBundle_chatRows.
        rewrite storeBundle_messages, <- app_assoc, Hmsgs. simpl.
        rewrite Hf. repeat split. lia.
Qed.

Lemma storeImported_exact chatId msgs : forall st,
  storeImported chatId msgs st =
  mkStore (chatRows st) (chatNext st)
          (messageRows st ++ importedMessages chatId (messageNext st) msgs)
          (messageNext st + N.of_nat (length msgs)).
Proof.
  induction msgs as [|m msgs IH]; intros st.
  - simpl. rewrite app_nil_r, N.add_0_r. now destruct st.
  - cbn [storeImported]. rewrite IH. simpl.
    rewrite <- app_assoc. f_equal. lia.
Qed.

Lemma storeBundle_exact d b st :
  storeBundle d b st =
  mkStore (chatRows st ++ [mkChat (chatNext st) (exp_name b) (exp_model b) d])
          (N.succ (chatNext st))
          (messageRows st ++
           importedMessages (chatNext st) (messageNext st) (exp_messages b))
          (messageNext st + N.of_nat (length (exp_messages b))).
Proof. unfold storeBundle. now rewrite storeImported_exact. Qed.

Lemma afterImports_rows data : forall s,
  chatRows (db (afterImports data s)) =
    chatRows (db s) ++
    fst (importedRows (chatNext (db s)) (messageNext (db s)) data) /\
  messageRows (db (afterImports data s)) =
    messageRows (db s) ++
    snd (importedRows (chatNext (db s)) (messageNext (db s)) data).
Proof.
  unfold afterImports.
  induction data as [|b data IH]; intros s.
  - simpl. now rewrite !app_nil_r.
  - cbn [List.fold_left importedRows].
    destruct (IH (afterImportOne b s)) as [Hc Hm]. rewrite Hc, Hm.
    unfold afterImportOne, importDate.
    destruct (exp_createdAt b) as [d|] eqn:Hd.
    + cbn [db afterImport set_db]. rewrite storeBundle_exact. simpl.
      now rewrite <- !app_assoc.
    + destruct (exp_messages b) as [|first rest] eqn:Hmsgs; [now split|].
      cbn [db afterImport set_db]. rewrite storeBundle_exact, Hmsgs. simpl.
      now rewrite <- !app_assoc.
Qed.

(** X14.  [importChats] returns for every list of bundles.  Once its
    callbacks, which nobody awaits, have settled, the store holds one new
    chat, after the stored ones, for every bundle that has a date or a
    first message to take the date from, under the next chat key, with the
    bundle's name and model; and it holds, after the stored messages, the
    messages of these bundles in order, each under the next message key and
    under the key of its new chat, with the role, content and date it has
    in the bundle and without [meta].  Every other bundle leaves one
    unhandled [TypeError] and nothing else.  The active chat, the visible
    messages, the captured system prompt and the in-flight messages are not
    touched. *)
Theorem importChats_adds_dated_bundles
    (jsonData : list ChatExport) (s : State) :
  let s' := exec (importChats jsonData) s in
  let rows :=
    importedRows (chatNext (db s)) (messageNext (db s)) jsonData in
  outcome (importChats jsonData) s = Returned tt /\
  chatRows (db s') = chatRows (db s) ++ fst rows /\
  messageRows (db s') = messageRows (db s) ++ snd rows /\
  (exists newChats,
     chatRows (db s') = chatRows (db s) ++ newChats /\
     List.map chat_fields newChats = omap importedFields jsonData) /\
  length (messageRows (db s')) =
    (length (messageRows (db s)) +
     list_sum (List.map (fun b => length (exp_messages b)) jsonData))%nat /\
  unhandled s' =
    unhandled s ++ List.map (fun _ => TypeError) (List.filter bare jsonData) /\
  activeChat s' = activeChat s /\
  messageList s' = messageList s /\
  systemPrompt s' = systemPrompt s /\
  ongoingAiMessages s' = ongoingAiMessages s.
Proof.
  intros s' rows. subst s' rows. unfold exec, outcome. rewrite importChats_eq.
  simpl fst; simpl snd.
  destruct (afterImports_state jsonData s)
    as (newChats & Hr & Hf & Hm & Hu & Ha & Hv & Hh & Hp & Ho).
  destruct (afterImports_rows jsonData s) as [Hc Hrows].
  split; [reflexivity|]. split; [exact Hc|]. split; [exact Hrows|].
  split; [now exists newChats|].
  split; [exact Hm|]. split; [exact Hu|]. split; [exact Ha|].
  split; [|now split].
  unfold messageList, messageAt. now rewrite Hv, Hh.
Qed.

(** Two bundles, the first without a date. *)
Example importChats_sample_bundles :
  let data :=
    [mkChatExport 9 "first" "llama3" None
       [mkMessage 4 9 user "why?" (Some "m") 6;
        mkMessage 5 9 assistant "because" None 7];
     mkChatExport 9 "bare" "llama3" None [];
     mkChatExport 3 "second" "mistral" (Some 8)
       [mkMessage 1 3 system "Be brief." None 9]] in
  let s' := exec (importChats data) sampleReady in
  chatRows (db s') =
    [mkChat 1 "New chat" "llama3" 0; mkChat 2 "first" "llama3" 6;
     mkChat 3 "second" "mistral" 8] /\
  messageRows (db s') =
    [mkMessage 1 1 system "Be brief." None 1;
     mkMessage 2 2 user "why?" None 6;
     mkMessage 3 2 assistant "because" None 7;
     mkMessage 4 3 system "Be brief." None 9] /\
  unhandled s' = [TypeError].
Proof. vm_compute. repeat split. Qed.

(** ** Regenerating an answer *)

Lemma afterTrim_rows s l :
  store_ok (db s) ->
  last (messages s) = Some l ->
  msg_role (messageAt s l) = assistant ->
  messageRows (db (afterTrim s)) =
    List.filter (fun m => negb (N.eqb (msg_id m) (msg_id (messageAt s l))))
                (messageRows (db s)) /\
  messages (afterTrim s) = removelast (messages s).
Proof.
  intros Hok Hl Hr. unfold afterTrim. rewrite Hl.
  destruct (decide (msg_role (messageAt s l) = assistant)) as [_|E];
    [|now destruct E].
  destruct (N.eqb_spec (msg_id (messageAt s l)) 0) as [E|E].
  - split; [|reflexivity]. simpl. rewrite E. symmetry. apply filter_all.
    apply List.Forall_forall. intros m Hm.
    pose proof (ok_message_ids _ Hok m Hm).
    destruct (N.eqb_spec (msg_id m) 0); [lia|reflexivity].
  - now split.
Qed.

(** X15.  When the last visible message of the active chat is an assistant
    message, [regenerateResponse] deletes that message from the store and
    from the visible list and stores a new assistant message in its place,
    under a new key, filled with the text of the parts received.  All other
    messages and all chats stay as they are. *)
Theorem regenerateResponse_replaces_last_answer
    (parts : list ChatPart) (ending : StreamEnd) (s : State) (a l : loc) :
  activeChat s = Some a ->
  last (messages s) = Some l ->
  msg_role (messageAt s l) = assistant ->
  store_ok (db s) ->
  let old := messageAt s l in
  let aiMessage :=
    mkMessage (messageNext (db s)) (chat_id (chatAt s a)) assistant
              (textOf parts) None (clock s (ticks s)) in
  let response := mkStream (List.map Part parts) ending in
  let s' := exec (regenerateResponse response) s in
  outcome (regenerateResponse response) s = Returned tt /\
  chatRows (db s') = chatRows (db s) /\
  messageRows (db s') =
    List.filter (fun m => negb (N.eqb (msg_id m) (msg_id old)))
                (messageRows (db s)) ++ [aiMessage] /\
  last (messageList s') = Some aiMessage.
Proof.
  intros Ha Hl Hr Hok old aiMessage response s'. subst s' response.
  unfold exec, outcome.
  destruct (afterTrim_rows s l Hok Hl Hr) as [Hrows Hvis].
  destruct (afterTrim_chats s) as (Hheap & _ & Hact & Hchats).
  destruct (afterTrim_frame s) as (_ & _ & _ & _ & Hclock & Hticks & Hnext).
  assert (Ha1 : activeChat (afterTrim s) = Some a) by now rewrite Hact.
  assert (Hcid : chat_id (chatAt (afterTrim s) a) = chat_id (chatAt s a)).
  { unfold chatAt. now rewrite Hheap. }
  assert (Hfresh : forall m, In m (messageRows (db (afterTrim s))) ->
                             msg_id m <> messageNext (db (afterTrim s))).
  { intros m Hm. rewrite Hrows in Hm. apply List.filter_In in Hm as [Hm _].
    rewrite Hnext. now apply store_ok_fresh. }
  destruct (generate_parts (chat_id (chatAt s a)) parts (afterTrim s) a
              Ha1 Hcid Hfresh)
    as (s1 & Hrun & F & _ & Hrows1 & Hlast).
  rewrite (regenerateResponse_eq _ ending s a s1 Ha Hrun).
  simpl fst; simpl snd.
  rewrite settle_db, settle_messageList.
  rewrite Hnext, Hclock, Hticks, Hrows in Hrows1.
  rewrite Hnext, Hclock, Hticks in Hlast.
  split; [reflexivity|]. split.
  { rewrite (frame_chatRows _ _ F). exact Hchats. }
  split; [exact Hrows1|exact Hlast].
Qed.

Lemma sampleSession_ok : store_ok (db sampleSession).
Proof. apply store_okb_ok. vm_compute. reflexivity. Qed.

Lemma sampleTalked_active : activeChat sampleTalked = Some 1%nat.
Proof. vm_compute. reflexivity. Qed.

Lemma sampleTalked_last : last (messages sampleTalked) = Some 14%nat.
Proof. vm_compute. reflexivity. Qed.

Lemma sampleTalked_last_role :
  msg_role (messageAt sampleTalked 14%nat) = assistant.
Proof. vm_compute. reflexivity. Qed.

Lemma regenerateResponse_replaces_last_answer_witness :
  activeChat sampleTalked = Some 1%nat /\
  last (messages sampleTalked) = Some 14%nat /\
  msg_role (messageAt sampleTalked 14%nat) = assistant /\
  store_ok (db sampleTalked) /\
  outcome (regenerateResponse (mkStream (List.map Part [Hel; lo]) EndOfStream))
          sampleTalked = Returned tt.
Proof.
  split; [exact sampleTalked_active|]. split; [exact sampleTalked_last|].
  split; [exact sampleTalked_last_role|]. split; [exact sampleTalked_ok|].
  exact (proj1 (regenerateResponse_replaces_last_answer
                  [Hel; lo] EndOfStream sampleTalked 1%nat 14%nat
                  sampleTalked_active sampleTalked_last sampleTalked_last_role
                  sampleTalked_ok)).
Defined.

(** ** Streams with a command in between *)

Lemma consume_meanwhile cid c rest s :
  consume cid (Meanwhile c :: rest) s = consume cid rest (afterCommand c s).
Proof.
  change (consume cid (Meanwhile c :: rest) s)
    with (bind (detached (run_command c)) (fun _ => consume cid rest) s).
  refine (bind_returned (detached (run_command c))
                        (fun _ => consume cid rest) s tt (afterCommand c s) _).
  unfold detached. apply try_catch_returned, run_command_eq.
Qed.

(** A stream that delivers [pre], is interrupted by a command, and then
    delivers [post]. *)
Lemma addUserMessage_interrupted content pre c post ending s a s1 s3 :
  activeChat s = Some a ->
  let cid := chat_id (chatAt s a) in
  consume cid (List.map Part pre)
    (afterRequest cid (afterUserMessage cid content s)) = (Returned tt, s1) ->
  consume cid (List.map Part post) (afterCommand c s1) = (Returned tt, s3) ->
  addUserMessage content
    (mkStream (List.map Part pre ++ Meanwhile c :: List.map Part post) ending)
    s =
  (Returned tt, settle cid "Failed to add user message:" ending s3).
Proof.
  intros Ha cid H1 H3. apply addUserMessage_eq; [exact Ha|].
  fold cid. rewrite (consume_app cid _ _ _ _ H1), consume_meanwhile.
  exact H3.
Qed.

Lemma afterPart_config cid l p s :
  clock (afterPart cid l p s) = clock s /\
  systemMessages (afterPart cid l p s) = systemMessages s /\
  chatRows (db (afterPart cid l p s)) = chatRows (db s) /\
  List.map msg_chatId (messageRows (db (afterPart cid l p s))) =
    List.map msg_chatId (messageRows (db s)).
Proof.
  assert (H : forall i f,
            (forall m, msg_chatId (f m) = msg_chatId m) ->
            List.map msg_chatId
              (List.map (fun m : Message => if N.eqb (msg_id m) i then f m else m)
                        (messageRows (db s))) =
            List.map msg_chatId (messageRows (db s))).
  { intros i f Hf. rewrite List.map_map. apply List.map_ext. intros m.
    destruct (N.eqb (msg_id m) i); [apply Hf|reflexivity]. }
  unfold afterPart. cbv zeta.
  destruct (activeChatIs cid s); simpl; repeat split; now apply H.
Qed.

Lemma consume_parts_config cid parts : forall s s',
  consume cid (List.map Part parts) s = (Returned tt, s') ->
  clock s' = clock s /\
  systemMessages s' = systemMessages s /\
  chatRows (db s') = chatRows (db s) /\
  List.map msg_chatId (messageRows (db s')) =
    List.map msg_chatId (messageRows (db s)).
Proof.
  induction parts as [|p parts IH]; intros s s' H.
  - simpl in H. unfold ret in H. injection H as <-. now repeat split.
  - simpl List.map in H.
    change (consume cid (Part p :: List.map Part parts) s)
      with (bind (receivePart cid p) (fun _ => consume cid (List.map Part parts))
                 s) in H.
    destruct (ongoingAiMessages s !! cid) as [l|] eqn:Hl.
    + rewrite (bind_returned _ _ _ _ _ (receivePart_in_flight cid l p s Hl)) in H.
      destruct (IH _ _ H) as (H1 & H2 & H3 & H4).
      destruct (afterPart_config cid l p s) as (G1 & G2 & G3 & G4).
      repeat split; congruence.
    + rewrite (bind_returned _ _ _ _ _ (receivePart_idle cid p s Hl)) in H.
      now apply IH.
Qed.

Lemma consume_parts_returns cid parts s :
  exists s', consume cid (List.map Part parts) s = (Returned tt, s').
Proof. rewrite consume_eq. now eexists. Qed.

Lemma settle_activeChatValue cid text ending s :
  activeChatValue (settle cid text ending s) = activeChatValue s.
Proof.
  destruct ending as [|e]; simpl; [reflexivity|].
  now destruct (isAbortError e).
Qed.

(** *** Wiping the database while an answer is streamed *)

(** X16.  When [wipeDatabase] runs while [addUserMessage] is streaming an
    answer, nothing of the exchange survives, however many parts arrive
    afterwards and however the stream ends: the store holds the one chat
    that the wipe has created and at most its system message, and no
    message is in flight. *)
Theorem wipeDatabase_during_stream
    (content : string) (pre post : list ChatPart) (ending : StreamEnd)
    (s : State) (a : loc) :
  activeChat s = Some a ->
  store_ok (db s) ->
  let response :=
    mkStream (List.map Part pre ++ Meanwhile WipeDatabase :: List.map Part post)
             ending in
  let chat :=
    mkChat (chatNext (db s)) "New chat" (currentModel s)
           (clock s (S (S (ticks s)))) in
  let s' := exec (addUserMessage content response) s in
  outcome (addUserMessage content response) s = Returned tt /\
  chatRows (db s') = [chat] /\
  activeChatValue s' = Some chat /\
  (length (messageRows (db s')) <= 1)%nat /\
  Forall (fun m => msg_role m = system /\ msg_chatId m = chat_id chat)
         (messageRows (db s')) /\
  messageList s' = messageRows (db s') /\
  ongoingAiMessages s' = ∅.
Proof.
  intros Ha Hok response chat s'. subst s' response. unfold exec, outcome.
  set (cid := chat_id (chatAt s a)).
  destruct (exchange_parts content pre s a Ha Hok)
    as (s1 & Hpre & F & _).
  fold cid in Hpre, F.
  destruct (consume_parts_config _ _ _ _ Hpre) as (Hclock & Hsys & _).
  pose proof (afterStartNewChat_state "New chat" (wiped s1)) as Hst.
  cbv zeta in Hst.
  set (s2 := afterStartNewChat "New chat" (wiped s1)) in *.
  destruct Hst as (Hr & Hm & Hh & Hc & Hact & Hl & _ & _ & Ho & _).
  assert (Hidle : consume cid (List.map Part post) s2 = (Returned tt, s2)).
  { apply consume_idle. rewrite Ho. apply lookup_empty. }
  rewrite (addUserMessage_interrupted content pre WipeDatabase post ending
             s a s1 s2 Ha Hpre Hidle).
  simpl fst; simpl snd.
  rewrite settle_db, settle_messageList.
  assert (Hchat : mkChat (chatNext (db (wiped s1))) "New chat"
                         (currentModel (wiped s1))
                         (clock (wiped s1) (ticks (wiped s1))) = chat).
  { unfold chat. simpl.
    rewrite (frame_chatNext _ _ F), (frame_currentModel _ _ F),
            (frame_ticks _ _ F), Hclock.
    reflexivity. }
  rewrite Hchat in Hr, Hh.
  split; [reflexivity|].
  split; [exact Hr|].
  split.
  { rewrite settle_activeChatValue.
    exact (activeChatValue_new chat (wiped s1) s2 Hh Hact). }
  assert (Hhello :
    (length (greeting (wiped s1) (chatNext (db (wiped s1)))
                      (clock (wiped s1) (S (ticks (wiped s1))))) <= 1)%nat /\
    Forall (fun m => msg_role m = system /\ msg_chatId m = chat_id chat)
           (greeting (wiped s1) (chatNext (db (wiped s1)))
                     (clock (wiped s1) (S (ticks (wiped s1)))))).
  { unfold greeting.
    destruct (systemMessages (wiped s1) (currentModel (wiped s1))) as [text|];
      [|split; [simpl; lia|constructor]].
    destruct (decide (text = "")); [split; [simpl; lia|constructor]|].
    split; [simpl; lia|]. constructor; [|constructor].
    split; [reflexivity|]. simpl. apply (frame_chatNext _ _ F). }
  simpl in Hm. rewrite Hm.
  split; [exact (proj1 Hhello)|]. split; [exact (proj2 Hhello)|].
  split; [exact Hl|].
  destruct ending as [|e]; simpl.
  - rewrite Ho. apply delete_empty.
  - destruct (isAbortError e); simpl; rewrite Ho;
      [apply delete_empty|reflexivity].
Qed.

Lemma wipeDatabase_during_stream_witness :
  activeChat sampleReady = Some 0%nat /\
  store_ok (db sampleReady) /\
  outcome (addUserMessage "hi"
             (mkStream (List.map Part [Hel] ++
                        Meanwhile WipeDatabase :: List.map Part [lo])
                       EndOfStream)) sampleReady = Returned tt.
Proof.
  split; [reflexivity|]. split; [exact sampleReady_ok|].
  exact (proj1 (wipeDatabase_during_stream
                  "hi" [Hel] [lo] EndOfStream sampleReady 0%nat eq_refl
                  sampleReady_ok)).
Defined.

(** *** Deleting the chat whose answer is streamed *)

Lemma afterDeleteChat_gone chatId s :
  coherent s ->
  ~ In chatId (List.map chat_id (chatRows (db (afterDeleteChat chatId s)))) /\
  forall m, In m (messageRows (db (afterDeleteChat chatId s))) ->
            msg_chatId m <> chatId.
Proof.
  intros C. pose proof C as [K H3 H4 St Sh].
  pose proof (removed_chatsKnown chatId s K) as K1.
  assert (St1 : storeSound (db (removed chatId s)))
    by now apply sound_deleteChat.
  assert (Hgone : ~ In chatId (List.map chat_id
                                 (chatRows (db (removed chatId s))))).
  { simpl. intros Hin. apply List.in_map_iff in Hin as (c & Hid & Hc).
    apply List.filter_In in Hc as [_ Hc]. rewrite Hid, N.eqb_refl in Hc.
    discriminate. }
  assert (Hmsg : forall m, In m (messageRows (db (removed chatId s))) ->
                           msg_chatId m <> chatId).
  { simpl. intros m Hm E. apply List.filter_In in Hm as [_ Hm].
    rewrite E, N.eqb_refl in Hm. discriminate. }
  unfold afterDeleteChat. cbv zeta.
  change (activeChatIs chatId (removed chatId s)) with (activeChatIs chatId s).
  destruct (activeChatIs chatId s) eqn:Hact; [|now split].
  assert (Hbelow : (chatId < chatNext (db s))%N).
  { unfold activeChatIs in Hact. destruct (activeChat s) as [a|] eqn:Ha;
      [|discriminate].
    apply N.eqb_eq in Hact. rewrite <- Hact.
    now apply (chat_ids_below _ (sound_ok _ St)), H4. }
  destruct (sortedChats (removed chatId s)) as [|newest rest] eqn:Hs.
  - destruct (afterStartNewChat_facts "New chat" (removed chatId s))
      as (Hr & _ & Hm).
    split.
    + rewrite Hr, List.map_app. intros Hin.
      apply in_app_or in Hin as [Hin|[Hin|[]]]; [now apply Hgone|].
      simpl in Hin. lia.
    + intros m Hin. destruct (Hm m Hin) as [H|H]; [now apply Hmsg|].
      simpl in H. lia.
  - destruct (afterSwitchChat_opens _ _ K1 St1 (newest_known _ _ _ K1 Hs))
      as (chat & Hc & _).
    destruct (afterSwitchChat_facts _ _ _ Hc) as (Hr & Hm & _).
    split; [now rewrite Hr|]. now rewrite Hm.
Qed.

(** X17.  When the active chat is deleted while [addUserMessage] is
    streaming its answer, the chat stays deleted: whatever parts arrive
    afterwards and however the stream ends, the store holds neither the chat
    nor any message of it, and the operation returns normally. *)
Theorem deleteChat_during_own_stream
    (content : string) (pre post : list ChatPart) (ending : StreamEnd)
    (s : State) (a : loc) :
  coherent s ->
  activeChat s = Some a ->
  let cid := chat_id (chatAt s a) in
  let response :=
    mkStream (List.map Part pre ++ Meanwhile (DeleteChat cid)
                :: List.map Part post) ending in
  let s' := exec (addUserMessage content response) s in
  outcome (addUserMessage content response) s = Returned tt /\
  ~ In cid (List.map chat_id (chatRows (db s'))) /\
  (forall m, In m (messageRows (db s')) -> msg_chatId m <> cid) /\
  hasActiveChat s' = true.
Proof.
  intros C Ha cid response s'. subst s' response. unfold exec, outcome.
  set (s0 := afterRequest cid (afterUserMessage cid content s)).
  assert (C0 : coherent s0).
  { apply (afterRequest_coherent (afterUserMessage cid content s) a Ha).
    now apply afterUserMessage_coherent. }
  pose proof (consume_eq cid (List.map Part pre) s0) as Hpre.
  set (s1 := afterItems cid (List.map Part pre) s0) in *.
  assert (C1 : coherent s1) by now apply afterItems_coherent.
  destruct (afterDeleteChat_gone cid s1 C1) as [Hgone Hmsg].
  destruct (consume_parts_returns cid post (afterCommand (DeleteChat cid) s1))
    as [s3 Hpost].
  destruct (consume_parts_config _ _ _ _ Hpost) as (_ & _ & Hrows & Hids).
  rewrite (addUserMessage_interrupted content pre (DeleteChat cid) post ending
             s a s1 s3 Ha Hpre Hpost).
  simpl fst; simpl snd. rewrite settle_db.
  split; [reflexivity|]. split; [now rewrite Hrows|]. split.
  - intros m Hm. apply (List.in_map msg_chatId) in Hm. rewrite Hids in Hm.
    apply List.in_map_iff in Hm as (m2 & <- & Hm2). now apply Hmsg.
  - unfold hasActiveChat. rewrite settle_activeChat.
    assert (H1 : hasActiveChat s1 = true).
    { apply afterItems_active. unfold hasActiveChat. simpl. now rewrite Ha. }
    pose proof (afterDeleteChat_active cid s1 H1) as H2.
    rewrite consume_eq in Hpost. injection Hpost as <-.
    exact (afterItems_active cid (List.map Part post) _ H2).
Qed.

Lemma deleteChat_during_own_stream_witness :
  coherent sampleSession /\
  activeChat sampleSession = Some 1%nat /\
  outcome (addUserMessage "hi"
             (mkStream (List.map Part [Hel] ++
                        Meanwhile (DeleteChat
                                     (chat_id (chatAt sampleSession 1%nat)))
                        :: List.map Part [lo]) EndOfStream))
          sampleSession = Returned tt.
Proof.
  split; [exact sampleSession_coherent|]. split; [exact sampleSession_active|].
  exact (proj1 (deleteChat_during_own_stream
                  "hi" [Hel] [lo] EndOfStream sampleSession 1%nat
                  sampleSession_coherent sampleSession_active)).
Defined.

(** *** Opening another chat while an answer is streamed *)

Lemma afterSwitchChat_row_shown c s :
  NoDup (List.map chat_id (chatRows (db s))) ->
  In c (chatRows (db s)) ->
  let s' := afterSwitchChat (chat_id c) s in
  messages s' =
    seq (length (messageHeap s))
        (length (store_getMessages (chat_id c) (db s))) /\
  messageHeap s' = messageHeap s ++ store_getMessages (chat_id c) (db s).
Proof.
  intros Hd Hc s'. subst s'. unfold afterSwitchChat.
  rewrite (store_getChat_row c _ Hd Hc). unfold afterSwitchModel.
  change (activeChat (opened c s)) with (Some (length (chatHeap s))).
  now split.
Qed.

Lemma activeChatValue_frame s s' :
  activeChat s' = activeChat s -> chatHeap s' = chatHeap s ->
  activeChatValue s' = activeChatValue s.
Proof. unfold activeChatValue, chatAt. now intros -> ->. Qed.

Lemma afterPart_hidden_heap cid l p s k :
  activeChatIs cid s = false -> k <> l ->
  messageHeap (afterPart cid l p s) !!! k = messageHeap s !!! k /\
  length (messageHeap (afterPart cid l p s)) = length (messageHeap s).
Proof.
  intros Hact Hk. unfold afterPart. cbv zeta. rewrite Hact. simpl.
  split; [now apply list_lookup_total_alter_ne|apply length_alter].
Qed.

Lemma consume_hidden_heap cid l parts : forall s s',
  ongoingAiMessages s !! cid = Some l ->
  activeChatIs cid s = false ->
  consume cid (List.map Part parts) s = (Returned tt, s') ->
  forall k, k <> l -> messageHeap s' !!! k = messageHeap s !!! k.
Proof.
  induction parts as [|p parts IH]; intros s s' Hl Hact H k Hk.
  - simpl in H. unfold ret in H. now injection H as <-.
  - simpl List.map in H.
    change (consume cid (Part p :: List.map Part parts) s)
      with (bind (receivePart cid p) (fun _ => consume cid (List.map Part parts))
                 s) in H.
    rewrite (bind_returned _ _ _ _ _ (receivePart_in_flight cid l p s Hl)) in H.
    pose proof (afterPart_frame cid l p s) as F.
    rewrite (IH _ _ (eq_trans (f_equal (fun m => m !! cid) (frame_ongoing _ _ F))
                              Hl)
                (eq_trans (activeChatIs_frame cid _ _ F) Hact) H k Hk).
    now apply afterPart_hidden_heap.
Qed.

(** X18.  An answer keeps streaming while the user looks at another chat.
    When [switchChat] opens another stored chat in the middle of a stream,
    the parts that arrive afterwards are still appended to the assistant
    message in the store, which ends up with the text of all parts; the
    visible messages are those of the other chat and none of them changes;
    and the in-flight entry is cleared when the stream ends. *)
Theorem stream_goes_on_in_background
    (content : string) (pre post : list ChatPart) (other : N)
    (s : State) (a : loc) :
  coherent s ->
  activeChat s = Some a ->
  let cid := chat_id (chatAt s a) in
  other <> cid ->
  In other (List.map chat_id (chatRows (db s))) ->
  let response :=
    mkStream (List.map Part pre ++ Meanwhile (SwitchChat other)
                :: List.map Part post) EndOfStream in
  let userMessage :=
    mkMessage (messageNext (db s)) cid user content None (clock s (ticks s)) in
  let aiMessage :=
    mkMessage (N.succ (messageNext (db s))) cid assistant
              (textOf (pre ++ post)) None (clock s (S (ticks s))) in
  let s' := exec (addUserMessage content response) s in
  outcome (addUserMessage content response) s = Returned tt /\
  messageRows (db s') = messageRows (db s) ++ [userMessage; aiMessage] /\
  option_map chat_id (activeChatValue s') = Some other /\
  messageList s' = store_getMessages other (db s) /\
  ongoingAiMessages s' !! cid = None.
Proof.
  intros C Ha cid Hother Hin response userMessage aiMessage s'.
  subst s' response. unfold exec, outcome.
  pose proof (sound_ok _ (coh_store _ C)) as Hok.
  destruct (exchange_parts content pre s a Ha Hok)
    as (s1 & Hpre & F & Hobj & Hrows & _).
  fold cid in Hpre, F, Hobj, Hrows.
  set (s0 := afterRequest cid (afterUserMessage cid content s)) in *.
  set (l := S (length (messageHeap s))) in *.
  (* the state in which the other chat is opened *)
  assert (Hd1 : NoDup (List.map chat_id (chatRows (db s1)))).
  { rewrite (frame_chatRows _ _ F). apply (sound_distinct _ (coh_store _ C)). }
  assert (Hal1 : Forall (fun l => (l < length (chatHeap s1))%nat) (chats s1)).
  { rewrite (frame_chatHeap _ _ F), (frame_chats _ _ F).
    apply (known_alloc _ (coh_chats _ C)). }
  assert (Hin1 : In other (List.map chat_id (chatRows (db s1))))
    by now rewrite (frame_chatRows _ _ F).
  apply List.in_map_iff in Hin1 as (c & Hcid & Hc).
  destruct (afterSwitchChat_row c s1 Hd1 Hc Hal1)
    as (Hdb & Hact & Hshown & _ & _ & _ & _ & Hong & _).
  destruct (afterSwitchChat_row_shown c s1 Hd1 Hc) as [Hmsgs Hheap].
  rewrite Hcid in *.
  set (s2 := afterSwitchChat other s1) in *.
  assert (Hl1 : (l < length (messageHeap s1))%nat).
  { destruct (consume_parts cid l pre s0) as (s1' & Hrun & _ & Hlen & _).
    - unfold l. simpl. rewrite length_app. simpl. rewrite Nat.add_1_r.
      apply lookup_insert_eq.
    - simpl. rewrite !length_app. simpl. unfold l. lia.
    - rewrite Hpre in Hrun. now injection Hrun as <-. }
  assert (Hl2 : ongoingAiMessages s2 !! cid = Some l).
  { rewrite Hong, (frame_ongoing _ _ F). simpl.
    unfold l. rewrite length_app. simpl. rewrite Nat.add_1_r.
    apply lookup_insert_eq. }
  assert (Hlen2 : (l < length (messageHeap s2))%nat).
  { rewrite Hheap, length_app. lia. }
  assert (Hhid : activeChatIs cid s2 = false).
  { unfold activeChatIs. unfold activeChatValue in Hact.
    destruct (activeChat s2) as [a2|]; [|reflexivity].
    injection Hact as ->. rewrite Hcid. now apply N.eqb_neq. }
  assert (Hobj2 : messageAt s2 l =
                  mkMessage (N.succ (messageNext (db s))) cid assistant
                            (textOf pre) None (clock s (S (ticks s)))).
  { unfold messageAt. rewrite Hheap, lookup_total_app_l by exact Hl1.
    exact Hobj. }
  (* the parts that arrive afterwards *)
  destruct (consume_parts cid l post s2 Hl2 Hlen2)
    as (s3 & Hpost & F3 & _ & _ & Hrows3 & Hvis3).
  pose proof (consume_hidden_heap cid l post s2 s3 Hl2 Hhid Hpost) as Hkeep.
  rewrite (addUserMessage_interrupted content pre (SwitchChat other) post
             EndOfStream s a s1 s3 Ha Hpre Hpost).
  simpl fst; simpl snd.
  split; [reflexivity|].
  assert (Hvis : messages s3 = messages s2).
  { destruct post as [|p post']; [exact (proj1 Hvis3)|].
    now rewrite Hhid in Hvis3. }
  split.
  { change (messageRows (db s3) =
            messageRows (db s) ++ [userMessage; aiMessage]).
    rewrite Hobj2 in Hrows3. simpl msg_id in Hrows3. simpl msg_content in Hrows3.
    rewrite Hdb, Hrows in Hrows3. rewrite Hrows3.
    unfold aiMessage. rewrite textOf_app.
    destruct post as [|p post'].
    - simpl textOf. now rewrite string_app_nil_r.
    - rewrite overwriteContent_app, overwriteContent_fresh.
      + simpl.
        destruct (N.eqb_spec (messageNext (db s)) (N.succ (messageNext (db s))));
          [lia|].
        now rewrite N.eqb_refl.
      + intros m Hm. pose proof (ok_message_ids _ Hok m Hm). lia. }
  split.
  { change (option_map chat_id (activeChatValue s3) = Some other).
    rewrite (activeChatValue_frame s2 s3 (frame_activeChat _ _ F3)
                                   (frame_chatHeap _ _ F3)).
    rewrite Hact. simpl. now rewrite Hcid. }
  split.
  { change (messageList s3 = store_getMessages other (db s)).
    unfold messageList, messageAt. rewrite Hvis.
    transitivity (List.map (fun k => messageHeap s2 !!! k) (messages s2)).
    - apply List.map_ext_in. intros k Hk. apply Hkeep.
      rewrite Hmsgs in Hk. apply in_seq in Hk. lia.
    - fold (messageAt s2). fold (messageList s2). rewrite Hshown.
      unfold store_getMessages. rewrite Hrows, List.filter_app. simpl.
      destruct (N.eqb_spec cid other) as [E|_]; [now destruct Hother|].
      apply app_nil_r. }
  simpl. apply lookup_delete_eq.
Qed.

Lemma sampleSession_first_chat :
  1%N <> chat_id (chatAt sampleSession 1%nat) /\
  In 1%N (List.map chat_id (chatRows (db sampleSession))).
Proof. vm_compute. split; [discriminate|now left]. Qed.

Lemma stream_goes_on_in_background_witness :
  coherent sampleSession /\
  activeChat sampleSession = Some 1%nat /\
  1%N <> chat_id (chatAt sampleSession 1%nat) /\
  In 1%N (List.map chat_id (chatRows (db sampleSession))) /\
  outcome (addUserMessage "hi"
             (mkStream (List.map Part [Hel] ++ Meanwhile (SwitchChat 1)
                          :: List.map Part [lo]) EndOfStream))
          sampleSession = Returned tt.
Proof.
  split; [exact sampleSession_coherent|]. split; [exact sampleSession_active|].
  split; [exact (proj1 sampleSession_first_chat)|].
  split; [exact (proj2 sampleSession_first_chat)|].
  exact (proj1 (stream_goes_on_in_background
                  "hi" [Hel] [lo] 1 sampleSession 1%nat
                  sampleSession_coherent sampleSession_active
                  (proj1 sampleSession_first_chat)
                  (proj2 sampleSession_first_chat))).
Defined.

(** ** Choosing a model *)

(** X19.  [switchModel] on an active chat makes the model the current
    model and writes it into the active chat object and into the store rows
    that carry the chat's key; name, key and date of every chat stay as they
    are, and so do all messages, the visible messages and the references of
    the chat list. *)
Theorem switchModel_changes_model_only
    (model : string) (s : State) (a : loc) :
  activeChat s = Some a ->
  (a < length (chatHeap s))%nat ->
  let chat := chatAt s a in
  let s' := exec (switchModel model) s in
  outcome (switchModel model) s = Returned tt /\
  currentModel s' = model /\
  activeChatValue s' = Some (with_chat_model model chat) /\
  chatRows (db s') =
    List.map (fun c => if N.eqb (chat_id c) (chat_id chat)
                       then with_chat_model model c else c)
             (chatRows (db s)) /\
  List.map (fun c => (chat_key c, chat_name c)) (chatRows (db s')) =
    List.map (fun c => (chat_key c, chat_name c)) (chatRows (db s)) /\
  messageRows (db s') = messageRows (db s) /\
  messageList s' = messageList s /\
  chats s' = chats s.
Proof.
  intros Ha Hlt chat s'. subst s'. unfold exec, outcome.
  rewrite switchModel_eq. simpl fst; simpl snd.
  unfold afterSwitchModel. rewrite Ha.
  split; [reflexivity|]. split; [reflexivity|]. split.
  { unfold activeChatValue, chatAt. simpl. rewrite Ha. f_equal.
    now apply list_lookup_total_alter_eq. }
  split; [reflexivity|]. split.
  { simpl. rewrite List.map_map. apply List.map_ext. intros c.
    now destruct (N.eqb (chat_id c) (chat_id (chatAt s a))). }
  now repeat split.
Qed.

Lemma switchModel_changes_model_only_witness :
  activeChat sampleReady = Some 0%nat /\
  (0 < length (chatHeap sampleReady))%nat /\
  currentModel (exec (switchModel "mistral") sampleReady) = "mistral".
Proof.
  split; [reflexivity|].
  assert (H : (0 < length (chatHeap sampleReady))%nat)
    by (vm_compute; repeat constructor).
  split; [exact H|].
  exact (proj1 (proj2 (switchModel_changes_model_only
                         "mistral" sampleReady 0%nat eq_refl H))).
Defined.

(** ** Without an active chat *)

Lemma step_without_active_chat r s :
  activeChat s = None ->
  needsActiveChat r ->
  db (step r s) = db s /\ backend (step r s) = backend s /\
  activeChat (step r s) = None /\
  messages (step r s) = messages s /\ chats (step r s) = chats s.
Proof.
  intros Ha Hr. rewrite step_eq.
  destruct r as [c|content response|response]; simpl in *.
  - destruct c; try now destruct Hr.
    + simpl. unfold afterSwitchModel. now rewrite Ha.
    + simpl. unfold afterRename. now rewrite Ha.
    + simpl. unfold afterSystemMessage. now rewrite Ha.
  - now rewrite Ha.
  - now rewrite Ha.
Qed.

(** X20.  The operations on the active chat need one.  While there is no
    active chat, whatever sequence of [renameChat], [addSystemMessage],
    [switchModel], [addUserMessage] and [regenerateResponse] calls is made,
    nothing is stored or deleted, the backend is never called, the visible
    messages and the chat list stay as they are, and there is still no
    active chat. *)
Theorem operations_need_an_active_chat (s : State) (rs : list Request) :
  activeChat s = None ->
  Forall needsActiveChat rs ->
  db (run rs s) = db s /\
  backend (run rs s) = backend s /\
  activeChat (run rs s) = None /\
  messages (run rs s) = messages s /\
  chats (run rs s) = chats s.
Proof.
  intros Ha Hrs. revert s Ha. unfold run.
  induction Hrs as [|r rs Hr _ IH]; intros s Ha; [now repeat split|].
  simpl. destruct (step_without_active_chat r s Ha Hr)
    as (H1 & H2 & H3 & H4 & H5).
  destruct (IH _ H3) as (G1 & G2 & G3 & G4 & G5).
  repeat split; congruence.
Qed.

Lemma operations_need_an_active_chat_witness :
  activeChat sampleBoot = None /\
  Forall needsActiveChat
    [Plain (RenameChat "Plans");
     AddUserMessage "hi" (mkStream [Part Hel; Part lo] EndOfStream)] /\
  db (run [Plain (RenameChat "Plans");
           AddUserMessage "hi" (mkStream [Part Hel; Part lo] EndOfStream)]
          sampleBoot) = db sampleBoot.
Proof.
  assert (H : Forall needsActiveChat
                [Plain (RenameChat "Plans");
                 AddUserMessage "hi" (mkStream [Part Hel; Part lo] EndOfStream)])
    by (repeat constructor).
  split; [reflexivity|]. split; [exact H|].
  exact (proj1 (operations_need_an_active_chat sampleBoot _ eq_refl H)).
Defined.

(** ** What holds throughout a session *)

(** X21.  In a session that starts from a freshly loaded page over a sound
    store, after any sequence of requests, with any commands running between
    the parts of a stream, the stored chats have distinct keys and every
    stored message belongs to a stored chat: no operation leaves a message
    behind whose chat is gone. *)
Theorem session_keeps_store_sound
    (st : Store) (model : string) (historyLength : option Z)
    (prompts : string -> option string) (time : nat -> Z)
    (rs : list Request) :
  storeSound st ->
  let s := run rs (boot st model historyLength prompts time) in
  NoDup (List.map chat_id (chatRows (db s))) /\
  (forall m, In m (messageRows (db s)) ->
             In (msg_chatId m) (List.map chat_id (chatRows (db s)))) /\
  (forall c, In c (chatRows (db s)) -> (0 < chat_id c < chatNext (db s))%N) /\
  (forall m, In m (messageRows (db s)) ->
             (0 < msg_id m < messageNext (db s))%N).
Proof.
  intros Hst s.
  pose proof (session_coherent st model historyLength prompts time rs Hst) as C.
  fold s in C. destruct (coh_store _ C) as [Hok Hd Hr].
  split; [exact Hd|]. split; [exact Hr|].
  split; [apply (ok_chat_ids _ Hok)|apply (ok_message_ids _ Hok)].
Qed.

Lemma session_keeps_store_sound_witness :
  storeSound (mkStore [] 1 [] 1) /\
  NoDup (List.map chat_id
           (chatRows (db (run [Plain Initialize; Plain (StartNewChat "b")]
                              (boot (mkStore [] 1 [] 1) "llama3" (Some 2)
                                    (fun _ => None)
                                    (fun n => Z.of_nat n)))))).
Proof.
  split; [exact empty_store_sound|].
  exact (proj1 (session_keeps_store_sound
                  (mkStore [] 1 [] 1) "llama3" (Some 2) (fun _ => None)
                  (fun n => Z.of_nat n)
                  [Plain Initialize; Plain (StartNewChat "b")]
                  empty_store_sound)).
Defined.

(** X22.  In such a session the engine only ever shows what is stored for
    the active chat: every visible message carries the key of the active
    chat, every entry of the chat list carries the key and date of a stored
    chat, and the active chat is a stored chat. *)
Theorem session_shows_the_active_chat
    (st : Store) (model : string) (historyLength : option Z)
    (prompts : string -> option string) (time : nat -> Z)
    (rs : list Request) :
  storeSound st ->
  let s := run rs (boot st model historyLength prompts time) in
  (forall m, In m (messageList s) ->
             option_map chat_id (activeChatValue s) = Some (msg_chatId m)) /\
  (forall c, In c (chatList s) ->
             In (chat_key c) (List.map chat_key (chatRows (db s)))) /\
  (forall chat, activeChatValue s = Some chat ->
                In (chat_id chat) (List.map chat_id (chatRows (db s)))).
Proof.
  intros Hst s.
  pose proof (session_coherent st model historyLength prompts time rs Hst) as C.
  fold s in C. destruct C as [K _ Hact _ Sh].
  split; [|split].
  - intros m Hm. unfold messageList in Hm.
    apply List.in_map_iff in Hm as (l & <- & Hl).
    pose proof (shown_active _ Sh l Hl) as H.
    unfold activeChatIs in H. unfold activeChatValue.
    destruct (activeChat s) as [a|]; [|discriminate].
    apply N.eqb_eq in H. simpl. now rewrite H.
  - intros c Hc. unfold chatList in Hc.
    apply List.in_map_iff in Hc as (l & <- & Hl). now apply (known_keys _ K).
  - intros chat Hc. unfold activeChatValue in Hc.
    destruct (activeChat s) as [a|] eqn:Ha; [|discriminate].
    injection Hc as <-. now apply Hact.
Qed.

Lemma session_shows_the_active_chat_witness :
  storeSound (mkStore [] 1 [] 1) /\
  forall chat,
    activeChatValue (run [Plain Initialize; Plain (StartNewChat "b")]
                         (boot (mkStore [] 1 [] 1) "llama3" (Some 2)
                               (fun _ => None) (fun n => Z.of_nat n))) =
      Some chat ->
    In (chat_id chat)
       (List.map chat_id
          (chatRows (db (run [Plain Initialize; Plain (StartNewChat "b")]
                             (boot (mkStore [] 1 [] 1) "llama3" (Some 2)
                                   (fun _ => None)
                                   (fun n => Z.of_nat n)))))).
Proof.
  split; [exact empty_store_sound|].
  exact (proj2 (proj2 (session_shows_the_active_chat
                         (mkStore [] 1 [] 1) "llama3" (Some 2) (fun _ => None)
                         (fun n => Z.of_nat n)
                         [Plain Initialize; Plain (StartNewChat "b")]
                         empty_store_sound))).
Defined.

(** ** The visible messages during an exchange *)

(** X23.  Every part that arrives for the active chat brings the visible
    messages back in line with the store: after an [addUserMessage] whose
    stream has delivered at least one part, the visible messages are
    exactly the stored messages of the active chat, however the stream
    ends. *)
Theorem addUserMessage_shows_stored_messages
    (content : string) (parts : list ChatPart) (ending : StreamEnd)
    (s : State) (a : loc) :
  activeChat s = Some a ->
  parts <> [] ->
  let cid := chat_id (chatAt s a) in
  let s' :=
    exec (addUserMessage content (mkStream (List.map Part parts) ending)) s in
  messageList s' = store_getMessages cid (db s').
Proof.
  intros Ha Hne cid s'. subst s'. unfold exec.
  set (s0 := afterRequest cid (afterUserMessage cid content s)).
  assert (Hin : ongoingAiMessages s0 !! cid =
                Some (length (messageHeap (afterUserMessage cid content s))))
    by apply lookup_insert_eq.
  assert (Hl : (length (messageHeap (afterUserMessage cid content s)) <
                length (messageHeap s0))%nat).
  { simpl. rewrite !length_app. simpl. lia. }
  assert (Hact : activeChatIs cid s0 = true).
  { unfold activeChatIs, chatAt. simpl. rewrite Ha. apply N.eqb_refl. }
  destruct (consume_parts cid _ parts s0 Hin Hl)
    as (s1 & Hrun & _ & _ & _ & _ & Hvis).
  rewrite (addUserMessage_eq content _ ending s a s1 Ha Hrun). simpl snd.
  rewrite settle_messageList, settle_db.
  destruct parts as [|p parts]; [now destruct Hne|].
  now rewrite Hact in Hvis.
Qed.

Lemma addUserMessage_shows_stored_messages_witness :
  activeChat sampleReady = Some 0%nat /\
  [Hel; lo] <> [] /\
  messageList
    (exec (addUserMessage "hi" (mkStream (List.map Part [Hel; lo]) EndOfStream))
          sampleReady) =
  store_getMessages (chat_id (chatAt sampleReady 0%nat))
    (db (exec (addUserMessage "hi"
                 (mkStream (List.map Part [Hel; lo]) EndOfStream))
              sampleReady)).
Proof.
  assert (H : [Hel; lo] <> []) by discriminate.
  split; [reflexivity|]. split; [exact H|].
  exact (addUserMessage_shows_stored_messages
           "hi" [Hel; lo] EndOfStream sampleReady 0%nat eq_refl H).
Defined.

(** * Properties of the confirmation dialog *)

Section ConfirmDialog.

Import useConfirmDialog.




Lemma fresh_tidy : tidy fresh.
Proof.
  constructor; simpl; [intros p []|discriminate|constructor].
Qed.

Lemma NoDup_snoc {A} (l : list A) (x : A) :
  NoDup l -> ~ In x l -> NoDup (l ++ [x]).
Proof.
  intros Hl Hx. apply NoDup_app. split; [exact Hl|]. split.
  - intros y Hy Hy'. apply list_elem_of_In in Hy, Hy'.
    destruct Hy' as [<-|[]]. now apply Hx.
  - apply NoDup_singleton.
Qed.

Lemma handle_tidy e d : tidy d -> tidy (handle e d).
Proof.
  intros [Hr Hp Hn]. destruct e as [options| |]; simpl.
  - constructor; simpl.
    + intros p Hin. specialize (Hr p Hin). lia.
    + intros p [= <-]. split; [lia|]. intros Hin. specialize (Hr _ Hin). lia.
    + exact Hn.
  - unfold handleConfirm. destruct (resolvePromise d) as [p|] eqn:E.
    + destruct (Hp p eq_refl) as [Hlt Hnot].
      constructor; simpl; try discriminate.
      * intros q Hin. rewrite List.map_app in Hin.
        apply in_app_or in Hin as [Hin|[<-|[]]]; [now apply Hr|exact Hlt].
      * rewrite List.map_app. now apply NoDup_snoc.
    + constructor; simpl; try discriminate; assumption.
  - unfold handleCancel. destruct (resolvePromise d) as [p|] eqn:E.
    + destruct (Hp p eq_refl) as [Hlt Hnot].
      constructor; simpl; try discriminate.
      * intros q Hin. rewrite List.map_app in Hin.
        apply in_app_or in Hin as [Hin|[<-|[]]]; [now apply Hr|exact Hlt].
      * rewrite List.map_app. now apply NoDup_snoc.
    + constructor; simpl; try discriminate; assumption.
Qed.

Lemma run_tidy events d : tidy d -> tidy (run events d).
Proof.
  unfold run. revert d. induction events as [|e events IH]; intros d H;
    [exact H|].
  simpl. now apply IH, handle_tidy.
Qed.

Lemma handle_orphan p e d : orphan p d -> orphan p (handle e d).
Proof.
  intros (Hlt & Hne & Hnot). destruct e as [options| |]; simpl.
  - repeat split; simpl; [lia| |exact Hnot]. intros [= E]. lia.
  - unfold handleConfirm. destruct (resolvePromise d) as [q|] eqn:E;
      repeat split; simpl; try discriminate; try assumption.
    rewrite List.map_app. intros Hin.
    apply in_app_or in Hin as [Hin|[<-|[]]]; [now apply Hnot|].
    now apply Hne.
  - unfold handleCancel. destruct (resolvePromise d) as [q|] eqn:E;
      repeat split; simpl; try discriminate; try assumption.
    rewrite List.map_app. intros Hin.
    apply in_app_or in Hin as [Hin|[<-|[]]]; [now apply Hnot|].
    now apply Hne.
Qed.

Lemma run_orphan p events d : orphan p d -> orphan p (run events d).
Proof.
  unfold run. revert d. induction events as [|e events IH]; intros d H;
    [exact H|].
  simpl. now apply IH, handle_orphan.
Qed.

(** X25.  Whatever is done to a dialog, no promise is settled twice.  And
    only the latest question can be answered: when [confirm] is called
    again before the earlier question has been answered, the promise of the
    earlier question is never settled, whatever happens afterwards. *)
Theorem only_latest_question_is_answered
    (before after : list Event) (first second : Options) :
  let d := run before fresh in
  let p := fst (confirm first d) in
  let d' := run (Confirm first :: Confirm second :: after) d in
  NoDup (List.map fst (resolved d')) /\
  ~ In p (List.map fst (resolved d')).
Proof.
  intros d p d'.
  assert (T : tidy d) by apply run_tidy, fresh_tidy.
  split; [apply (tidy_once _ (run_tidy _ _ T))|].
  change d' with (run after (handle (Confirm second) (handle (Confirm first) d))).
  apply run_orphan. subst p. clearbody d. repeat split; simpl.
  - lia.
  - intros [= E]. lia.
  - intros Hin. pose proof (tidy_resolved _ T _ Hin). lia.
Qed.

End ConfirmDialog.

(** * Properties of the provider client *)

Section ProviderClient.

Import useApi.

Lemma receiveChunk_eq request text results w :
  receiveChunk request text (results, w) =
  (results ++ [partResponse (req_model request) (now w (reads w)) text],
   mkWorld (provider w) (now w) (S (reads w)) (jobs w)
           (received w ++
            [partResponse (req_model request) (now w (reads w)) text])
           (errors w)).
Proof. reflexivity. Qed.

Lemma receiveChunks_eq request texts : forall results w,
  List.fold_left (fun acc text => receiveChunk request text acc) texts
                 (results, w) =
  (results ++ partResponses (req_model request) (now w) (reads w) texts,
   mkWorld (provider w) (now w) (reads w + length texts)%nat (jobs w)
           (received w ++
            partResponses (req_model request) (now w) (reads w) texts)
           (errors w)).
Proof.
  induction texts as [|text texts IH]; intros results w.
  - simpl. rewrite !app_nil_r, Nat.add_0_r. now destruct w.
  - cbn [List.fold_left]. rewrite receiveChunk_eq, IH. simpl.
    rewrite <- !app_assoc, Nat.add_succ_r. reflexivity.
Qed.

Lemma getProvider_supported name :
  supported name -> exists p, getProvider name = inr p.
Proof.
  intros [H|[H|H]]; rewrite H; unfold getProvider; simpl; eauto.
Qed.

Lemma getProvider_unsupported name :
  ~ supported name -> getProvider name = inl (ErrorObject "Error").
Proof.
  unfold supported, getProvider. intros H.
  destruct (decide (name = "openai")); [tauto|].
  destruct (decide (name = "ollama")); [tauto|].
  destruct (decide (name = "anthropic")); [tauto|reflexivity].
Qed.

Lemma partResponses_length model time k texts :
  length (partResponses model time k texts) = length texts.
Proof.
  revert k. induction texts as [|t texts IH]; intros k; simpl; [|rewrite IH];
    reflexivity.
Qed.

Lemma partResponses_pending model time k texts :
  Forall (fun r => res_done r = false /\ res_model r = Some model)
         (partResponses model time k texts).
Proof.
  revert k. induction texts as [|t texts IH]; intros k; simpl; constructor;
    [now split|apply IH].
Qed.

Lemma partResponses_last model time k texts text :
  last texts = Some text ->
  last (partResponses model time k texts) =
  Some (partResponse model (time (k + length texts - 1)%nat) text).
Proof.
  revert k. induction texts as [|t texts IH]; intros k H; [discriminate|].
  destruct texts as [|t' texts'].
  - simpl in *. injection H as ->. do 3 f_equal. lia.
  - change (last (t :: t' :: texts')) with (last (t' :: texts')) in H.
    change (last (partResponses model time k (t :: t' :: texts')))
      with (last (partResponses model time (S k) (t' :: texts'))).
    rewrite (IH (S k) H). do 3 f_equal. simpl. lia.
Qed.

(** X26.  With a supported provider and a stream of [n] chunks that ends
    normally, [generateChat] starts one job for the request's model and
    messages, hands one response to the callback per chunk, in order, each
    for the request's model, from the assistant, with the chunk's text (the
    empty text when it is missing) and [done = false], and returns these
    [n] responses followed by one more with [done = true]: a copy of the
    last response, or, for a stream without chunks, a response that has no
    field but [done].  Nothing is written to the console. *)
Theorem generateChat_marks_the_end
    (request : ChatRequest) (texts : list (option string)) (w : World) :
  supported (provider w) ->
  let parts :=
    partResponses (req_model request) (now w) (reads w) texts in
  let final :=
    match last texts with
    | Some text =>
        mkResponse (Some (req_model request))
                   (Some (now w (reads w + length texts - 1)%nat))
                   (Some (mkChatMessage "assistant" (default "" text))) true
    | None => mkResponse None None None true
    end in
  exists p w',
    getProvider (provider w) = inr p /\
    generateChat request (mkJob texts EndOfStream) w =
      (Returned (parts ++ [final]), w') /\
    length (parts ++ [final]) = S (length texts) /\
    Forall (fun r => res_done r = false /\
                     res_model r = Some (req_model request)) parts /\
    received w' = received w ++ parts /\
    jobs w' = jobs w ++ [(p, req_model request, requestMessages request)] /\
    errors w' = errors w.
Proof.
  intros Hs parts final.
  destruct (getProvider_supported _ Hs) as [p Hp].
  exists p. eexists. split; [exact Hp|].
  unfold generateChat. rewrite Hp. cbv zeta. rewrite receiveChunks_eq.
  cbv iota beta. simpl job_end. cbv iota.
  simpl app at 1.
  assert (Hfinal : finalResponse parts = final).
  { unfold finalResponse, final.
    destruct (last texts) as [text|] eqn:Hl.
    - unfold parts. now rewrite (partResponses_last _ _ _ _ _ Hl).
    - destruct texts as [|t texts]; [reflexivity|].
      exfalso. revert Hl. clear. revert t.
      induction texts as [|t' texts IH]; intros t; [discriminate|].
      exact (IH t'). }
  split; [now rewrite <- Hfinal|].
  split.
  { rewrite length_app. unfold parts. rewrite partResponses_length.
    simpl. lia. }
  split; [apply partResponses_pending|].
  now repeat split.
Qed.

Lemma generateChat_marks_the_end_witness :
  supported "ollama" /\
  exists p w',
    getProvider "ollama" = inr p /\
    generateChat (mkChatRequest "llama3" None)
                 (mkJob [Some "Hel"; None; Some "lo"] EndOfStream)
                 (mkWorld "ollama" (fun n => Z.of_nat n) 0 [] [] []) =
    (Returned
       [mkResponse (Some "llama3") (Some 0)
                   (Some (mkChatMessage "assistant" "Hel")) false;
        mkResponse (Some "llama3") (Some 1)
                   (Some (mkChatMessage "assistant" "")) false;
        mkResponse (Some "llama3") (Some 2)
                   (Some (mkChatMessage "assistant" "lo")) false;
        mkResponse (Some "llama3") (Some 2)
                   (Some (mkChatMessage "assistant" "lo")) true], w').
Proof.
  assert (H : supported "ollama") by (right; now left).
  split; [exact H|].
  destruct (generateChat_marks_the_end
              (mkChatRequest "llama3" None) [Some "Hel"; None; Some "lo"]
              (mkWorld "ollama" (fun n => Z.of_nat n) 0 [] [] []) H)
    as (p & w' & Hp & Hrun & _).
  exists p, w'. split; [exact Hp|exact Hrun].
Defined.

(** X27.  [generateChat] fails in two ways, and both times it writes the
    error to the console once and throws it again.  With a provider that is
    not supported it throws an [Error] before anything else happens: no job
    is started and the callback is never called.  When the stream fails
    after some chunks, the callback has been given one response for each
    of these chunks, and the responses are not returned. *)
Theorem generateChat_rethrows
    (request : ChatRequest) (texts : list (option string)) (e : JsError)
    (w : World) :
  let job := mkJob texts (StreamThrows e) in
  let w' := snd (generateChat request job w) in
  (~ supported (provider w) ->
   fst (generateChat request job w) = Threw (ErrorObject "Error") /\
   errors w' = errors w ++ [ErrorObject "Error"] /\
   received w' = received w /\ jobs w' = jobs w) /\
  (supported (provider w) ->
   fst (generateChat request job w) = Threw e /\
   errors w' = errors w ++ [e] /\
   received w' =
     received w ++
     partResponses (req_model request) (now w) (reads w) texts /\
   length (jobs w') = S (length (jobs w))).
Proof.
  intros job w'. subst w' job. split.
  - intros Hn. unfold generateChat.
    rewrite (getProvider_unsupported _ Hn). now repeat split.
  - intros Hs. destruct (getProvider_supported _ Hs) as [p Hp].
    unfold generateChat. rewrite Hp. cbv zeta. rewrite receiveChunks_eq.
    simpl. repeat split. rewrite length_app. simpl. lia.
Qed.

Lemma gemini_unsupported : ~ supported "gemini".
Proof. intros [H|[H|H]]; discriminate H. Qed.

Lemma generateChat_rethrows_witness :
  ~ supported "gemini" /\
  fst (generateChat (mkChatRequest "llama3" None)
                    (mkJob [Some "Hel"] (StreamThrows AbortError))
                    (mkWorld "gemini" (fun n => Z.of_nat n) 0 [] [] [])) =
  Threw (ErrorObject "Error").
Proof.
  split; [exact gemini_unsupported|].
  exact (proj1 (proj1 (generateChat_rethrows
                         (mkChatRequest "llama3" None) [Some "Hel"] AbortError
                         (mkWorld "gemini" (fun n => Z.of_nat n) 0 [] [] []))
                      gemini_unsupported)).
Defined.

End ProviderClient.
